(** * Reconcilers of the New Relic Kubernetes operator

    A shallow embedding of [controllers/policy_controller.go] (the policy
    reconciler) and of the alerts-channel reconciler.  The two collaborators
    of the reconcilers, the Kubernetes client (the declarative store) and the
    New Relic alerts client (the remote system), are modelled as a store held
    in the state plus response functions that see the history of calls, the
    way the counterfeiter fake of the test-suite stubs them.  Every call to a
    collaborator is appended to a trace, so that statements about "which
    remote calls were issued, in which order" are statements about lists. *)

From Stdlib Require Import ZArith String Ascii List DecimalString.
From stdpp Require Import base option strings gmap list.

Local Open Scope Z_scope.
Local Open Scope string_scope.

(** ** Go values *)

(** A Go [error] value is modelled by its message ([err.Error()]); the
    [error] interface itself is [option GoError], [None] being [nil]. *)
Definition GoError : Type := string.
Definition error : Type := option GoError.

Definition nil_error : error := None.

(** [errors.New] *)
Definition errors_New (msg : string) : GoError := msg.

(** [strings.Contains]: [substr] occurs somewhere in [s]. *)
Fixpoint strings_Contains (s substr : string) : bool :=
  if String.prefix substr s then true
  else match s with
       | EmptyString => false
       | String _ rest => strings_Contains rest substr
       end.

(** [fmt.Sprintf("%d", n)] for an unsigned value. *)
Definition sprintf_d (n : Z) : string :=
  NilZero.string_of_uint (N.to_uint (Z.to_N n)).

(** ** API types

    Modelled from the spec: the declarations of package [api/v1] and of the
    client library are not among the sources; the records below carry the
    fields of section 3 of the specification that the controllers and their
    test-suite read and write. *)

Module NamespacedName.
Record t : Type := mk { Namespace : string; Name : string }.
End NamespacedName.

Module ObjectMeta.
(** [DeletionTimestamp] is a [*metav1.Time]; a time is counted in seconds
    from the zero instant of [time.Time]. *)
Record t : Type := mk {
  Name : string;
  Namespace : string;
  Labels : gmap string string;
  Finalizers : list string;
  DeletionTimestamp : option Z;
  ResourceVersion : string
}.

Definition zero : t := mk EmptyString EmptyString ∅ [] None EmptyString.

Definition set_Name (v : string) (m : t) : t :=
  mk v (Namespace m) (Labels m) (Finalizers m) (DeletionTimestamp m) (ResourceVersion m).
Definition set_Namespace (v : string) (m : t) : t :=
  mk (Name m) v (Labels m) (Finalizers m) (DeletionTimestamp m) (ResourceVersion m).
Definition set_Labels (v : gmap string string) (m : t) : t :=
  mk (Name m) (Namespace m) v (Finalizers m) (DeletionTimestamp m) (ResourceVersion m).
Definition set_Finalizers (v : list string) (m : t) : t :=
  mk (Name m) (Namespace m) (Labels m) v (DeletionTimestamp m) (ResourceVersion m).
Definition set_ResourceVersion (v : string) (m : t) : t :=
  mk (Name m) (Namespace m) (Labels m) (Finalizers m) (DeletionTimestamp m) v.

(** [metav1.Time.IsZero]: a nil pointer or the zero instant. *)
Definition DeletionTimestamp_IsZero (m : t) : bool :=
  match DeletionTimestamp m with
  | None => true
  | Some t => Z.eqb t 0
  end.

Definition key (m : t) : NamespacedName.t :=
  NamespacedName.mk (Namespace m) (Name m).
End ObjectMeta.

Module NewRelicAPIKeySecret.
Record t : Type := mk { Name : string; Namespace : string; KeyName : string }.
Definition zero : t := mk EmptyString EmptyString EmptyString.
End NewRelicAPIKeySecret.

Module AlertConditionTerm.
(** The two [resource.Quantity] fields are kept in their textual form. *)
Record t : Type := mk {
  Duration : string;
  Operator : string;
  Priority : string;
  Threshold : string;
  TimeFunction : string
}.
End AlertConditionTerm.

Module NrqlQuery.
Record t : Type := mk { Query : string; SinceValue : string }.
Definition zero : t := mk EmptyString EmptyString.
End NrqlQuery.

Module NrqlAlertConditionSpec.
Record t : Type := mk {
  Terms : list AlertConditionTerm.t;
  Nrql : NrqlQuery.t;
  Type_ : string;
  Name : string;
  RunbookURL : string;
  ValueFunction : string;
  ID : Z;
  ViolationCloseTimer : Z;
  ExpectedGroups : Z;
  IgnoreOverlap : bool;
  Enabled : bool;
  ExistingPolicyID : Z;
  APIKey : string;
  APIKeySecret : NewRelicAPIKeySecret.t;
  Region : string
}.

Definition zero : t :=
  mk [] NrqlQuery.zero EmptyString EmptyString EmptyString EmptyString 0 0 0
     false false 0 EmptyString NewRelicAPIKeySecret.zero EmptyString.

(** The four fields copied down from the parent policy. *)
Definition set_parent (region : string) (policyID : Z) (apiKey : string)
    (secret : NewRelicAPIKeySecret.t) (s : t) : t :=
  mk (Terms s) (Nrql s) (Type_ s) (Name s) (RunbookURL s) (ValueFunction s)
     (ID s) (ViolationCloseTimer s) (ExpectedGroups s) (IgnoreOverlap s)
     (Enabled s) policyID apiKey secret region.
End NrqlAlertConditionSpec.

Module NrqlAlertConditionStatus.
Record t : Type := mk {
  AppliedSpec : option NrqlAlertConditionSpec.t;
  ConditionID : Z
}.
Definition zero : t := mk None 0.
End NrqlAlertConditionStatus.

Module NrqlAlertCondition.
Record t : Type := mk {
  Meta : ObjectMeta.t;
  Spec : NrqlAlertConditionSpec.t;
  Status : NrqlAlertConditionStatus.t
}.
Definition set_Meta (v : ObjectMeta.t) (c : t) : t := mk v (Spec c) (Status c).
Definition set_Spec (v : NrqlAlertConditionSpec.t) (c : t) : t := mk (Meta c) v (Status c).
Definition set_Status (v : NrqlAlertConditionStatus.t) (c : t) : t := mk (Meta c) (Spec c) v.
Definition ResourceVersion (c : t) : string := ObjectMeta.ResourceVersion (Meta c).
Definition key (c : t) : NamespacedName.t := ObjectMeta.key (Meta c).
End NrqlAlertCondition.

Module PolicySpec.
Record t : Type := mk {
  IncidentPreference : string;
  Name : string;
  APIKey : string;
  APIKeySecret : NewRelicAPIKeySecret.t;
  Region : string;
  Conditions : list NrqlAlertCondition.t
}.
Definition zero : t :=
  mk EmptyString EmptyString EmptyString NewRelicAPIKeySecret.zero EmptyString [].
Definition set_Conditions (v : list NrqlAlertCondition.t) (s : t) : t :=
  mk (IncidentPreference s) (Name s) (APIKey s) (APIKeySecret s) (Region s) v.
End PolicySpec.

Module PolicyStatus.
Record t : Type := mk { AppliedSpec : option PolicySpec.t; PolicyID : Z }.
Definition zero : t := mk None 0.
Definition set_AppliedSpec (v : option PolicySpec.t) (s : t) : t := mk v (PolicyID s).
Definition set_PolicyID (v : Z) (s : t) : t := mk (AppliedSpec s) v.
End PolicyStatus.

Module Policy.
Record t : Type := mk {
  Meta : ObjectMeta.t;
  Spec : PolicySpec.t;
  Status : PolicyStatus.t
}.
Definition zero : t := mk ObjectMeta.zero PolicySpec.zero PolicyStatus.zero.
Definition set_Meta (v : ObjectMeta.t) (p : t) : t := mk v (Spec p) (Status p).
Definition set_Spec (v : PolicySpec.t) (p : t) : t := mk (Meta p) v (Status p).
Definition set_Status (v : PolicyStatus.t) (p : t) : t := mk (Meta p) (Spec p) v.
Definition Name (p : t) : string := ObjectMeta.Name (Meta p).
Definition Namespace (p : t) : string := ObjectMeta.Namespace (Meta p).
Definition Labels (p : t) : gmap string string := ObjectMeta.Labels (Meta p).
Definition Finalizers (p : t) : list string := ObjectMeta.Finalizers (Meta p).
Definition PolicyID (p : t) : Z := PolicyStatus.PolicyID (Status p).
Definition AppliedSpec (p : t) : option PolicySpec.t := PolicyStatus.AppliedSpec (Status p).
Definition key (p : t) : NamespacedName.t := ObjectMeta.key (Meta p).
Definition set_Finalizers (v : list string) (p : t) : t :=
  set_Meta (ObjectMeta.set_Finalizers v (Meta p)) p.
Definition set_PolicyID (v : Z) (p : t) : t :=
  set_Status (PolicyStatus.set_PolicyID v (Status p)) p.
Definition set_AppliedSpec (v : option PolicySpec.t) (p : t) : t :=
  set_Status (PolicyStatus.set_AppliedSpec v (Status p)) p.
Definition set_Conditions (v : list NrqlAlertCondition.t) (p : t) : t :=
  set_Spec (PolicySpec.set_Conditions v (Spec p)) p.
End Policy.

Module AlertsChannelSpec.
Record t : Type := mk {
  Name : string;
  APIKey : string;
  APIKeySecret : NewRelicAPIKeySecret.t;
  Region : string;
  Type_ : string
}.
Definition zero : t :=
  mk EmptyString EmptyString NewRelicAPIKeySecret.zero EmptyString EmptyString.
End AlertsChannelSpec.

Module AlertsChannelStatus.
Record t : Type := mk { AppliedSpec : option AlertsChannelSpec.t; ChannelID : Z }.
Definition zero : t := mk None 0.
End AlertsChannelStatus.

Module AlertsChannel.
Record t : Type := mk {
  Meta : ObjectMeta.t;
  Spec : AlertsChannelSpec.t;
  Status : AlertsChannelStatus.t
}.
Definition zero : t := mk ObjectMeta.zero AlertsChannelSpec.zero AlertsChannelStatus.zero.
Definition set_Meta (v : ObjectMeta.t) (c : t) : t := mk v (Spec c) (Status c).
Definition set_Status (v : AlertsChannelStatus.t) (c : t) : t := mk (Meta c) (Spec c) v.
Definition Name (c : t) : string := ObjectMeta.Name (Meta c).
Definition Finalizers (c : t) : list string := ObjectMeta.Finalizers (Meta c).
Definition ChannelID (c : t) : Z := AlertsChannelStatus.ChannelID (Status c).
Definition AppliedSpec (c : t) : option AlertsChannelSpec.t :=
  AlertsChannelStatus.AppliedSpec (Status c).
Definition key (c : t) : NamespacedName.t := ObjectMeta.key (Meta c).
Definition set_Finalizers (v : list string) (c : t) : t :=
  set_Meta (ObjectMeta.set_Finalizers v (Meta c)) c.
End AlertsChannel.

(** [v1.Secret]: only its [Data] map is read. *)
Module Secret.
Record t : Type := mk { Data : gmap string string }.
Definition zero : t := mk ∅.
End Secret.

(** Types of the client library, package [alerts]. *)
Module alerts.
Record Policy : Type := mkPolicy {
  ID : Z;
  IncidentPreference : string;
  Name : string
}.
Definition set_ID (v : Z) (p : Policy) : Policy :=
  mkPolicy v (IncidentPreference p) (Name p).

Record Channel : Type := mkChannel {
  ChannelID : Z;
  ChannelName : string;
  ChannelType : string
}.

Record ListPoliciesParams : Type := mkListPoliciesParams { ParamName : string }.
End alerts.

(** ** Decidable equality, standing for [reflect.DeepEqual] and [==] *)

#[global] Instance NamespacedName_eq_dec : EqDecision NamespacedName.t.
Proof. solve_decision. Defined.
#[global] Instance NamespacedName_countable : Countable NamespacedName.t.
Proof.
  refine (inj_countable'
            (fun n => (NamespacedName.Namespace n, NamespacedName.Name n))
            (fun p => NamespacedName.mk (fst p) (snd p)) _).
  intros []; reflexivity.
Defined.

#[global] Instance ObjectMeta_eq_dec : EqDecision ObjectMeta.t.
Proof. solve_decision. Defined.
#[global] Instance NewRelicAPIKeySecret_eq_dec : EqDecision NewRelicAPIKeySecret.t.
Proof. solve_decision. Defined.
#[global] Instance AlertConditionTerm_eq_dec : EqDecision AlertConditionTerm.t.
Proof. solve_decision. Defined.
#[global] Instance NrqlQuery_eq_dec : EqDecision NrqlQuery.t.
Proof. solve_decision. Defined.
#[global] Instance NrqlAlertConditionSpec_eq_dec : EqDecision NrqlAlertConditionSpec.t.
Proof. solve_decision. Defined.
#[global] Instance NrqlAlertConditionStatus_eq_dec : EqDecision NrqlAlertConditionStatus.t.
Proof. solve_decision. Defined.
#[global] Instance NrqlAlertCondition_eq_dec : EqDecision NrqlAlertCondition.t.
Proof. solve_decision. Defined.
#[global] Instance PolicySpec_eq_dec : EqDecision PolicySpec.t.
Proof. solve_decision. Defined.
#[global] Instance AlertsChannelSpec_eq_dec : EqDecision AlertsChannelSpec.t.
Proof. solve_decision. Defined.

(** [reflect.DeepEqual] on two values of one type: slices are lists and
    pointers are options, compared by content. *)
Definition DeepEqual {A : Type} `{EqDecision A} (x y : A) : bool :=
  bool_decide (x = y).

(** ** Collaborators: calls, responses and the trace *)

(** One constructor per operation the reconcilers invoke on the Kubernetes
    client ([Client...]) and on the New Relic alerts client ([Alerts...]). *)
Inductive Call : Type :=
| ClientGetPolicy (key : NamespacedName.t)
| ClientGetChannel (key : NamespacedName.t)
| ClientGetSecret (key : NamespacedName.t)
| ClientUpdatePolicy (policy : Policy.t)
| ClientUpdateChannel (channel : AlertsChannel.t)
| ClientUpdateCondition (condition : NrqlAlertCondition.t)
| ClientCreateCondition (condition : NrqlAlertCondition.t)
| ClientDeleteCondition (condition : NrqlAlertCondition.t)
| AlertsCreatePolicy (policy : alerts.Policy)
| AlertsUpdatePolicy (policy : alerts.Policy)
| AlertsDeletePolicy (id : Z)
| AlertsListPolicies (params : alerts.ListPoliciesParams)
| AlertsCreateChannel (channel : alerts.Channel)
| AlertsDeleteChannel (id : Z).

(** A call together with the error it returned. *)
Record Event : Type := mkEvent { call : Call; failure : error }.

(** Calls that reach the remote alerting API. *)
Definition is_remote (c : Call) : bool :=
  match c with
  | AlertsCreatePolicy _ | AlertsUpdatePolicy _ | AlertsDeletePolicy _
  | AlertsListPolicies _ | AlertsCreateChannel _ | AlertsDeleteChannel _ => true
  | _ => false
  end.

(** Calls that create a remote entity. *)
Definition is_remote_create (c : Call) : bool :=
  match c with
  | AlertsCreatePolicy _ | AlertsCreateChannel _ => true
  | _ => false
  end.

(** Calls that write to the declarative store. *)
Definition is_store_write (c : Call) : bool :=
  match c with
  | ClientUpdatePolicy _ | ClientUpdateChannel _ | ClientUpdateCondition _
  | ClientCreateCondition _ | ClientDeleteCondition _ => true
  | _ => false
  end.

Definition remote_calls (t : list Event) : list Event :=
  filter (fun ev => is_remote (call ev) = true) t.

Definition store_writes (t : list Event) : list Event :=
  filter (fun ev => is_store_write (call ev) = true) t.

(** [interfaces.NewRelicAlertsClient]: every method answers from its
    argument and from the calls made so far, like a stubbed fake.  A method
    returning a pointer may return nil. *)
Module NewRelicAlertsClient.
Record t : Type := mk {
  CreatePolicy : list Event -> alerts.Policy -> option alerts.Policy * error;
  UpdatePolicy : list Event -> alerts.Policy -> option alerts.Policy * error;
  DeletePolicy : list Event -> Z -> option alerts.Policy * error;
  ListPolicies : list Event -> alerts.ListPoliciesParams -> list alerts.Policy * error;
  CreateChannel : list Event -> alerts.Channel -> option alerts.Channel * error;
  DeleteChannel : list Event -> Z -> option alerts.Channel * error
}.
End NewRelicAlertsClient.

(** What surrounds a reconciler: the client factory handed to it at
    construction, the failures of the declarative store (conflicts,
    time-outs, ...), the resource versions the store assigns, and the
    rendering that [spew] gives of a condition specification. *)
Record Env : Type := mkEnv {
  AlertClientFunc : list Event -> string -> string -> NewRelicAlertsClient.t + GoError;
  storeFault : list Event -> Call -> error;
  storeVersion : list Event -> string;
  spew_Sprintf : NrqlAlertConditionSpec.t -> string
}.

Inductive LogEntry : Type :=
| LogInfo (msg : string)
| LogError (err : error) (msg : string).

(** The declarative store, the trace of collaborator calls (oldest first)
    and the lines written to the logger. *)
Record World : Type := mkWorld {
  policies : gmap NamespacedName.t Policy.t;
  channels : gmap NamespacedName.t AlertsChannel.t;
  conditions : gmap NamespacedName.t NrqlAlertCondition.t;
  secrets : gmap NamespacedName.t Secret.t;
  trace : list Event;
  logged : list LogEntry
}.

(** The four object maps of the store, without trace and log. *)
Definition store (w : World) :=
  (policies w, channels w, conditions w, secrets w).

Definition record (c : Call) (e : error) (w : World) : World :=
  mkWorld (policies w) (channels w) (conditions w) (secrets w)
          (trace w ++ [mkEvent c e]) (logged w).

Definition write_log (l : LogEntry) (w : World) : World :=
  mkWorld (policies w) (channels w) (conditions w) (secrets w)
          (trace w) (logged w ++ [l]).

Definition set_policies (m : gmap NamespacedName.t Policy.t) (w : World) : World :=
  mkWorld m (channels w) (conditions w) (secrets w) (trace w) (logged w).
Definition set_channels (m : gmap NamespacedName.t AlertsChannel.t) (w : World) : World :=
  mkWorld (policies w) m (conditions w) (secrets w) (trace w) (logged w).
Definition set_conditions (m : gmap NamespacedName.t NrqlAlertCondition.t) (w : World) : World :=
  mkWorld (policies w) (channels w) m (secrets w) (trace w) (logged w).

(** Events and log lines added between two worlds of one run. *)
Definition new_events (w w' : World) : list Event :=
  drop (length (trace w)) (trace w').
Definition new_logs (w w' : World) : list LogEntry :=
  drop (length (logged w)) (logged w').

(** ** The monad of reconciler code: state, with Go panics *)

Inductive outcome (A : Type) : Type :=
| Done (a : A)
| Panic (msg : string).
Arguments Done {A} a.
Arguments Panic {A} msg.

Definition M (A : Type) : Type := World -> outcome A * World.

Definition ret {A : Type} (a : A) : M A := fun w => (Done a, w).

Definition bind {A B : Type} (m : M A) (k : A -> M B) : M B :=
  fun w =>
    match m w with
    | (Done a, w') => k a w'
    | (Panic msg, w') => (Panic msg, w')
    end.

Definition panic {A : Type} (msg : string) : M A := fun w => (Panic msg, w).

Declare Scope go_scope.
Delimit Scope go_scope with go.
Notation "'let*' p ':=' m 'in' k" := (bind m (fun p => k))
  (at level 10, p pattern, m at level 100, k at level 200) : go_scope.
Notation "m ;; k" := (bind m (fun _ => k))
  (at level 100, right associativity) : go_scope.
Local Open Scope go_scope.

(** [r.Log.Info] and [r.Log.Error]; the key/value pairs are dropped. *)
Definition Log_Info (msg : string) : M unit :=
  fun w => (Done tt, write_log (LogInfo msg) w).
Definition Log_Error (err : error) (msg : string) : M unit :=
  fun w => (Done tt, write_log (LogError err msg) w).

(** Following a pointer: nil panics. *)
Definition deref {A : Type} (p : option A) : M A :=
  match p with
  | Some a => ret a
  | None => panic "invalid memory address or nil pointer dereference"
  end.

(** Indexing a slice: out of range panics. *)
Definition index {A : Type} (l : list A) (i : nat) : M A :=
  match l !! i with
  | Some a => ret a
  | None => panic "index out of range"
  end.

(** A [for ... range] loop over a slice whose body may [return]: the body
    gets the index, the element and the loop-carried state. *)
Inductive flow (S R : Type) : Type :=
| Continue (s : S)
| Return (s : S) (r : R).
Arguments Continue {S R} s.
Arguments Return {S R} s r.

Fixpoint for_range {A S R : Type} (body : nat -> A -> S -> M (flow S R))
    (i : nat) (l : list A) (s : S) : M (S * option R) :=
  match l with
  | [] => ret (s, None)
  | x :: rest =>
      let* f := body i x s in
      match f with
      | Continue s' => for_range body (Datatypes.S i) rest s'
      | Return s' r => ret (s', Some r)
      end
  end.

(** ** Helpers of package [controllers] *)

Definition apiKeyBlank : GoError := errors_New "api key is blank".

(** Modelled from the spec: the helper [containsString] is not among the
    sources; "ensure finalizer guard is present on the entity if not
    already" needs the membership test on the finalizer list. *)
Fixpoint containsString (slice : list string) (s : string) : bool :=
  match slice with
  | [] => false
  | item :: rest => if String.eqb item s then true else containsString rest s
  end.

(** Modelled from the spec: the helper [removeString] is not among the
    sources; "strip the finalizer guard" removes every occurrence of the
    finalizer from the list. *)
Fixpoint removeString (slice : list string) (s : string) : list string :=
  match slice with
  | [] => []
  | item :: rest =>
      if String.eqb item s then removeString rest s
      else item :: removeString rest s
  end.

(** Modelled from the spec: the method [PolicySpec.APIPolicy] is not among
    the sources; it yields the policy sent to the remote system, carrying the
    name and the incident preference of the specification and no identifier. *)
Definition PolicySpec_APIPolicy (s : PolicySpec.t) : alerts.Policy :=
  alerts.mkPolicy 0 (PolicySpec.IncidentPreference s) (PolicySpec.Name s).

(** Modelled from the spec: the method [AlertsChannelSpec.APIChannel] is not
    among the sources; it yields the channel sent to the remote system. *)
Definition AlertsChannelSpec_APIChannel (s : AlertsChannelSpec.t) : alerts.Channel :=
  alerts.mkChannel 0 (AlertsChannelSpec.Name s) (AlertsChannelSpec.Type_ s).

(** 32-bit FNV-1a, [hash/fnv.New32a]. *)
Definition fnv_offset32 : Z := 2166136261.
Definition fnv_prime32 : Z := 16777619.

Definition fnv32a_byte (h : Z) (b : ascii) : Z :=
  (Z.lxor h (Z.of_N (N_of_ascii b)) * fnv_prime32) mod 2 ^ 32.

Definition fnv32a_Write (h : Z) (s : string) : Z :=
  fold_left fnv32a_byte (list_ascii_of_string s) h.

Section Collaborators.

Variable env : Env.

(** [DeepHashObject]: reset the hasher, then write the rendering. *)
Definition DeepHashObject (hasher : Z) (objectToWrite : NrqlAlertConditionSpec.t) : Z :=
  let hasher := fnv_offset32 in
  fnv32a_Write hasher (spew_Sprintf env objectToWrite).

Definition ComputeHash (template : NrqlAlertConditionSpec.t) : Z :=
  let conditionTemplateSpecHasher := fnv_offset32 in
  DeepHashObject conditionTemplateSpecHasher template.

(** *** The Kubernetes client

    A read answers from the store unless the environment makes it fail; a
    write that the environment lets through lands in the store, with the
    resource version the store assigns, and is handed back to the caller
    through the pointer it passed. *)

Definition quote : string := String (ascii_of_nat 34) EmptyString.

Definition NotFound (resource : string) (key : NamespacedName.t) : GoError :=
  resource ++ " " ++ quote ++ NamespacedName.Name key ++ quote ++ " not found".

Definition Client_Get_Policy (key : NamespacedName.t) : M (Policy.t * error) :=
  fun w =>
    let c := ClientGetPolicy key in
    match storeFault env (trace w) c with
    | Some e => (Done (Policy.zero, Some e), record c (Some e) w)
    | None =>
        match policies w !! key with
        | Some p => (Done (p, None), record c None w)
        | None =>
            let e := NotFound "policies.nr.k8s.newrelic.com" key in
            (Done (Policy.zero, Some e), record c (Some e) w)
        end
    end.

Definition Client_Get_AlertsChannel (key : NamespacedName.t)
  : M (AlertsChannel.t * error) :=
  fun w =>
    let c := ClientGetChannel key in
    match storeFault env (trace w) c with
    | Some e => (Done (AlertsChannel.zero, Some e), record c (Some e) w)
    | None =>
        match channels w !! key with
        | Some p => (Done (p, None), record c None w)
        | None =>
            let e := NotFound "alertschannels.nr.k8s.newrelic.com" key in
            (Done (AlertsChannel.zero, Some e), record c (Some e) w)
        end
    end.

Definition Client_Get_Secret (key : NamespacedName.t) : M (Secret.t * error) :=
  fun w =>
    let c := ClientGetSecret key in
    match storeFault env (trace w) c with
    | Some e => (Done (Secret.zero, Some e), record c (Some e) w)
    | None =>
        match secrets w !! key with
        | Some s => (Done (s, None), record c None w)
        | None =>
            let e := NotFound "secrets" key in
            (Done (Secret.zero, Some e), record c (Some e) w)
        end
    end.

Definition Client_Update_Policy (policy : Policy.t) : M (Policy.t * error) :=
  fun w =>
    let c := ClientUpdatePolicy policy in
    match storeFault env (trace w) c with
    | Some e => (Done (policy, Some e), record c (Some e) w)
    | None =>
        let stored :=
          Policy.set_Meta
            (ObjectMeta.set_ResourceVersion (storeVersion env (trace w)) (Policy.Meta policy))
            policy in
        (Done (stored, None),
         record c None (set_policies (<[Policy.key policy := stored]> (policies w)) w))
    end.

Definition Client_Update_AlertsChannel (channel : AlertsChannel.t)
  : M (AlertsChannel.t * error) :=
  fun w =>
    let c := ClientUpdateChannel channel in
    match storeFault env (trace w) c with
    | Some e => (Done (channel, Some e), record c (Some e) w)
    | None =>
        let stored :=
          AlertsChannel.set_Meta
            (ObjectMeta.set_ResourceVersion (storeVersion env (trace w))
                                            (AlertsChannel.Meta channel))
            channel in
        (Done (stored, None),
         record c None (set_channels (<[AlertsChannel.key channel := stored]> (channels w)) w))
    end.

Definition store_condition (c : Call) (condition : NrqlAlertCondition.t)
  : M (NrqlAlertCondition.t * error) :=
  fun w =>
    match storeFault env (trace w) c with
    | Some e => (Done (condition, Some e), record c (Some e) w)
    | None =>
        let stored :=
          NrqlAlertCondition.set_Meta
            (ObjectMeta.set_ResourceVersion (storeVersion env (trace w))
                                            (NrqlAlertCondition.Meta condition))
            condition in
        (Done (stored, None),
         record c None
           (set_conditions (<[NrqlAlertCondition.key condition := stored]> (conditions w)) w))
    end.

Definition Client_Update_Condition (condition : NrqlAlertCondition.t) :=
  store_condition (ClientUpdateCondition condition) condition.

Definition Client_Create_Condition (condition : NrqlAlertCondition.t) :=
  store_condition (ClientCreateCondition condition) condition.

Definition Client_Delete_Condition (condition : NrqlAlertCondition.t) : M error :=
  fun w =>
    let c := ClientDeleteCondition condition in
    match storeFault env (trace w) c with
    | Some e => (Done (Some e), record c (Some e) w)
    | None =>
        (Done None,
         record c None
           (set_conditions (delete (NrqlAlertCondition.key condition) (conditions w)) w))
    end.

(** *** The receiver

    [Reconcile] stores the resolved key and the client in the reconciler
    before it calls the other methods; they receive both through [r]. *)
Record Reconciler : Type := mkReconciler {
  apiKey : string;
  Alerts : NewRelicAlertsClient.t
}.

(** A call of a method of [r.Alerts]: answer from the history, then record. *)
Definition remote {A : Type} (c : Call) (answer : list Event -> A * error)
  : M (A * error) :=
  fun w => let res := answer (trace w) in (Done res, record c (snd res) w).

Definition Alerts_CreatePolicy (r : Reconciler) (p : alerts.Policy) :=
  remote (AlertsCreatePolicy p) (fun h => NewRelicAlertsClient.CreatePolicy (Alerts r) h p).
Definition Alerts_UpdatePolicy (r : Reconciler) (p : alerts.Policy) :=
  remote (AlertsUpdatePolicy p) (fun h => NewRelicAlertsClient.UpdatePolicy (Alerts r) h p).
Definition Alerts_DeletePolicy (r : Reconciler) (id : Z) :=
  remote (AlertsDeletePolicy id) (fun h => NewRelicAlertsClient.DeletePolicy (Alerts r) h id).
Definition Alerts_ListPolicies (r : Reconciler) (params : alerts.ListPoliciesParams) :=
  remote (AlertsListPolicies params)
         (fun h => NewRelicAlertsClient.ListPolicies (Alerts r) h params).
Definition Alerts_CreateChannel (r : Reconciler) (c : alerts.Channel) :=
  remote (AlertsCreateChannel c) (fun h => NewRelicAlertsClient.CreateChannel (Alerts r) h c).
Definition Alerts_DeleteChannel (r : Reconciler) (id : Z) :=
  remote (AlertsDeleteChannel id) (fun h => NewRelicAlertsClient.DeleteChannel (Alerts r) h id).

End Collaborators.

(** ** [controllers/policy_controller.go] *)

Module PolicyReconciler.
Section WithEnv.

Variable env : Env.

Definition policyFinalizer : string := "storage.finalizers.tutorial.kubebuilder.io".

(** [getAPIKeyOrSecret] of the policy reconciler.  The error of the secret
    fetch is logged whether or not it is nil and is not tested: on a failed
    fetch [apiKeySecret] is still the zero value it was declared with. *)
Definition getAPIKeyOrSecret (policy : Policy.t) : M string :=
  let spec := Policy.Spec policy in
  if negb (String.eqb (PolicySpec.APIKey spec) EmptyString) then
    ret (PolicySpec.APIKey spec)
  else if negb (bool_decide (PolicySpec.APIKeySecret spec = NewRelicAPIKeySecret.zero)) then
    let key := NamespacedName.mk
                 (NewRelicAPIKeySecret.Namespace (PolicySpec.APIKeySecret spec))
                 (NewRelicAPIKeySecret.Name (PolicySpec.APIKeySecret spec)) in
    let* (apiKeySecret, getErr) := Client_Get_Secret env key in
    Log_Error getErr "Failed to retrieve secret";;
    ret (default EmptyString
           (Secret.Data apiKeySecret
              !! NewRelicAPIKeySecret.KeyName (PolicySpec.APIKeySecret spec)))
  else ret EmptyString.

Definition createCondition (r : Reconciler) (policy : Policy.t)
    (condition : NrqlAlertCondition.t) : M (NrqlAlertCondition.t * error) :=
  let conditionSpecHash := sprintf_d (ComputeHash env (NrqlAlertCondition.Spec condition)) in
  let meta := NrqlAlertCondition.Meta condition in
  let meta := ObjectMeta.set_Name (Policy.Name policy ++ conditionSpecHash) meta in
  let meta := ObjectMeta.set_Namespace (Policy.Namespace policy) meta in
  let meta := ObjectMeta.set_Labels (Policy.Labels policy) meta in
  let condition := NrqlAlertCondition.set_Meta meta condition in
  let condition :=
    NrqlAlertCondition.set_Status
      (NrqlAlertConditionStatus.mk (Some NrqlAlertConditionSpec.zero) 0) condition in
  let condition :=
    NrqlAlertCondition.set_Spec
      (NrqlAlertConditionSpec.set_parent
         (PolicySpec.Region (Policy.Spec policy))
         (Policy.PolicyID policy)
         (PolicySpec.APIKey (Policy.Spec policy))
         (PolicySpec.APIKeySecret (Policy.Spec policy))
         (NrqlAlertCondition.Spec condition))
      condition in
  Log_Info "creating condition";;
  let* (condition, errCondition) := Client_Create_Condition env condition in
  match errCondition with
  | Some e =>
      Log_Error (Some e) "error creating condition";;
      ret (condition, Some e)
  | None => ret (condition, None)
  end.

(** [updateCondition]: no statement of [Reconcile] or of the methods it
    calls invokes it; its body is the body of [createCondition]. *)
Definition updateCondition (r : Reconciler) (policy : Policy.t)
    (condition : NrqlAlertCondition.t) : M (NrqlAlertCondition.t * error) :=
  let conditionSpecHash := sprintf_d (ComputeHash env (NrqlAlertCondition.Spec condition)) in
  let meta := NrqlAlertCondition.Meta condition in
  let meta := ObjectMeta.set_Name (Policy.Name policy ++ conditionSpecHash) meta in
  let meta := ObjectMeta.set_Namespace (Policy.Namespace policy) meta in
  let meta := ObjectMeta.set_Labels (Policy.Labels policy) meta in
  let condition := NrqlAlertCondition.set_Meta meta condition in
  let condition :=
    NrqlAlertCondition.set_Status
      (NrqlAlertConditionStatus.mk (Some NrqlAlertConditionSpec.zero) 0) condition in
  let condition :=
    NrqlAlertCondition.set_Spec
      (NrqlAlertConditionSpec.set_parent
         (PolicySpec.Region (Policy.Spec policy))
         (Policy.PolicyID policy)
         (PolicySpec.APIKey (Policy.Spec policy))
         (PolicySpec.APIKeySecret (Policy.Spec policy))
         (NrqlAlertCondition.Spec condition))
      condition in
  Log_Info "creating condition";;
  let* (condition, errCondition) := Client_Create_Condition env condition in
  match errCondition with
  | Some e =>
      Log_Error (Some e) "error creating condition";;
      ret (condition, Some e)
  | None => ret (condition, None)
  end.

Definition deleteCondition (condition : NrqlAlertCondition.t) : M error :=
  Log_Info "Deleting condition";;
  let* err := Client_Delete_Condition env condition in
  match err with
  | Some e =>
      Log_Error (Some e) "error deleting condition resource";;
      ret (Some e)
  | None => ret None
  end.

(** The body of the loop of [createOrUpdateConditions]; its last statement
    is [return nil]. *)
Definition createOrUpdateConditions_body (r : Reconciler) (i : nat)
    (condition : NrqlAlertCondition.t) (policy : Policy.t)
  : M (flow Policy.t error) :=
  Log_Info "createOrUpdate condition";;
  if negb (String.eqb (NrqlAlertCondition.ResourceVersion condition) EmptyString) then
    let* applied := deref (Policy.AppliedSpec policy) in
    let* conditionToUpdate := index (PolicySpec.Conditions applied) i in
    Log_Info "condition already created, check to see if we should update";;
    let* policy :=
      (if negb (DeepEqual condition conditionToUpdate) then
         Log_Info "condition doesn't match, lets update";;
         let* (condition, _) := Client_Update_Condition env condition in
         ret (Policy.set_Conditions
                (<[i := condition]> (PolicySpec.Conditions (Policy.Spec policy))) policy)
       else ret policy) in
    Log_Info "updated condition after creation";;
    ret (Return policy None)
  else
    let* (condition, err) := createCondition r policy condition in
    match err with
    | Some e =>
        Log_Error (Some e) "error creating condition";;
        ret (Return policy (Some e))
    | None =>
        let policy :=
          Policy.set_Conditions
            (<[i := condition]> (PolicySpec.Conditions (Policy.Spec policy))) policy in
        Log_Info "updated condition after creation";;
        ret (Return policy None)
    end.

Definition createOrUpdateConditions (r : Reconciler) (policy : Policy.t)
  : M (Policy.t * error) :=
  let* applied := deref (Policy.AppliedSpec policy) in
  if DeepEqual (PolicySpec.Conditions (Policy.Spec policy)) (PolicySpec.Conditions applied) then
    Log_Info "conditions match, not updating ";;
    ret (policy, None)
  else
    let* (policy, returned) :=
      for_range (createOrUpdateConditions_body r) 0%nat
                (PolicySpec.Conditions (Policy.Spec policy)) policy in
    match returned with
    | Some err => ret (policy, err)
    | None => ret (policy, None)
    end.

Definition createPolicy (r : Reconciler) (policy : Policy.t) : M (Policy.t * error) :=
  Log_Info "Creating policy";;
  let APIPolicy := PolicySpec_APIPolicy (Policy.Spec policy) in
  let* (createdPolicy, err) := Alerts_CreatePolicy r APIPolicy in
  match err with
  | Some e =>
      Log_Error (Some e) "failed to create policy via New Relic API";;
      ret (policy, Some e)
  | None =>
      let* createdPolicy := deref createdPolicy in
      let policy := Policy.set_PolicyID (alerts.ID createdPolicy) policy in
      let* (policy, errConditions) := createOrUpdateConditions r policy in
      match errConditions with
      | Some e =>
          Log_Error (Some e) "error creating or updating conditions";;
          ret (policy, Some e)
      | None =>
          Log_Info "policy after resource creations";;
          let policy := Policy.set_AppliedSpec (Some (Policy.Spec policy)) policy in
          let* (policy, err) := Client_Update_Policy env policy in
          match err with
          | Some e =>
              Log_Error (Some e) "tried updating policy status";;
              ret (policy, Some e)
          | None => ret (policy, None)
          end
      end
  end.

Definition updatePolicy (r : Reconciler) (policy : Policy.t) : M (Policy.t * error) :=
  Log_Info "updating policy";;
  let APIPolicy := PolicySpec_APIPolicy (Policy.Spec policy) in
  let APIPolicy := alerts.set_ID (Policy.PolicyID policy) APIPolicy in
  let* (updatedPolicy, err) := Alerts_UpdatePolicy r APIPolicy in
  match err with
  | Some e =>
      Log_Error (Some e) "failed to update policy via New Relic API";;
      ret (policy, Some e)
  | None =>
      let* (policy, errConditions) := createOrUpdateConditions r policy in
      match errConditions with
      | Some e =>
          Log_Error (Some e) "error creating or updating conditions";;
          ret (policy, Some e)
      | None =>
          let policy := Policy.set_AppliedSpec (Some (Policy.Spec policy)) policy in
          let* updatedPolicy := deref updatedPolicy in
          let policy := Policy.set_PolicyID (alerts.ID updatedPolicy) policy in
          let* (policy, err) := Client_Update_Policy env policy in
          match err with
          | Some e =>
              Log_Error (Some e) "failed to update policy status";;
              ret (policy, Some e)
          | None => ret (policy, None)
          end
      end
  end.

Definition deleteNewRelicAlertPolicy (r : Reconciler) (policy : Policy.t) : M error :=
  Log_Info "Deleting policy";;
  let* (_, err) := Alerts_DeletePolicy r (Policy.PolicyID policy) in
  match err with
  | Some e =>
      Log_Error (Some e) "Error deleting policy via New Relic API";;
      ret (Some e)
  | None => ret None
  end.

(** The body of the loop of [deletePolicy] over the recorded conditions. *)
Definition deletePolicy_body (i : nat) (condition : NrqlAlertCondition.t) (s : unit)
  : M (flow unit GoError) :=
  let* err := deleteCondition condition in
  match err with
  | Some e =>
      Log_Error (Some e) "error deleting condition resources";;
      ret (Return tt e)
  | None => ret (Continue tt)
  end.

Definition deletePolicy (r : Reconciler) (policy : Policy.t) (deleteFinalizer : string)
  : M (Policy.t * error) :=
  if containsString (Policy.Finalizers policy) deleteFinalizer then
    if Z.eqb (Policy.PolicyID policy) 0 then
      Log_Info "No Condition ID set, just removing finalizer";;
      let policy :=
        Policy.set_Finalizers (removeString (Policy.Finalizers policy) deleteFinalizer)
                              policy in
      Log_Info "All done with policy deletion";;
      ret (policy, None)
    else
      let* applied := deref (Policy.AppliedSpec policy) in
      let* (_, returned) :=
        for_range deletePolicy_body 0%nat (PolicySpec.Conditions applied) tt in
      match returned with
      | Some e => ret (policy, Some e)
      | None =>
          let* err := deleteNewRelicAlertPolicy r policy in
          match err with
          | Some e =>
              Log_Error (Some e) "Failed to delete Alert Policy via New Relic API";;
              ret (policy, Some e)
          | None =>
              Log_Info "New Relic Alert policy deleted, Removing finalizer";;
              let policy :=
                Policy.set_Finalizers
                  (removeString (Policy.Finalizers policy) deleteFinalizer) policy in
              let* (policy, err) := Client_Update_Policy env policy in
              match err with
              | Some e =>
                  Log_Error (Some e)
                    "Failed to update k8s records for this policy after successfully deleting the policy via New Relic Alert API";;
                  ret (policy, Some e)
              | None =>
                  Log_Info "All done with policy deletion";;
                  ret (policy, None)
              end
          end
      end
  else
    Log_Info "All done with policy deletion";;
    ret (policy, None).

(** The first listed policy whose name is the wanted one: the loop of
    [checkForExistingPolicy], which breaks at the first match. *)
Fixpoint firstNamed (name : string) (existingPolicies : list alerts.Policy)
  : option alerts.Policy :=
  match existingPolicies with
  | [] => None
  | existingPolicy :: rest =>
      if String.eqb (alerts.Name existingPolicy) name then Some existingPolicy
      else firstNamed name rest
  end.

Definition checkForExistingPolicy (r : Reconciler) (policy : Policy.t) : M Policy.t :=
  if Z.eqb (Policy.PolicyID policy) 0 then
    Log_Info "Checking for existing policy";;
    let alertParams :=
      alerts.mkListPoliciesParams (PolicySpec.Name (Policy.Spec policy)) in
    let* (existingPolicies, err) := Alerts_ListPolicies r alertParams in
    match err with
    | Some e =>
        Log_Error (Some e) "failed to get list of NRQL policys from New Relic API";;
        ret policy
    | None =>
        match firstNamed (PolicySpec.Name (Policy.Spec policy)) existingPolicies with
        | Some existingPolicy =>
            Log_Info "Matched on existing policy, updating PolicyId";;
            ret (Policy.set_PolicyID (alerts.ID existingPolicy) policy)
        | None => ret policy
        end
    end
  else ret policy.

(** The statements of [Reconcile] that follow the construction of the
    alerts client, from the examination of the deletion timestamp on; [r]
    carries the key and the client that [Reconcile] has just stored. *)
Definition Reconcile_lifecycle (r : Reconciler) (policy : Policy.t) : M error :=
  let deleteFinalizer := policyFinalizer in
  if ObjectMeta.DeletionTimestamp_IsZero (Policy.Meta policy) then
    let policy :=
      if negb (containsString (Policy.Finalizers policy) deleteFinalizer)
      then Policy.set_Finalizers (Policy.Finalizers policy ++ [deleteFinalizer]) policy
      else policy in
    if DeepEqual (Some (Policy.Spec policy)) (Policy.AppliedSpec policy) then
      ret None
    else
      Log_Info "Reconciling";;
      let* policy := checkForExistingPolicy r policy in
      if negb (Z.eqb (Policy.PolicyID policy) 0) then
        let* (_, err) := updatePolicy r policy in
        match err with
        | Some e => ret (Some e)
        | None => ret None
        end
      else
        let* (_, err) := createPolicy r policy in
        match err with
        | Some e => ret (Some e)
        | None => ret None
        end
  else
    let* (_, err) := deletePolicy r policy deleteFinalizer in
    ret err.

Definition Reconcile (req : NamespacedName.t) : M error :=
  let* (policy, err) := Client_Get_Policy env req in
  match err with
  | Some e =>
      if strings_Contains e " not found" then
        Log_Info "Policy 'not found' after being deleted. This is expected and no cause for alarm";;
        ret None
      else
        Log_Error (Some e) "Failed to GET policy";;
        ret None
  | None =>
      Log_Info "Starting reconcile action";;
      Log_Info "policy spec";;
      let* apiKey := getAPIKeyOrSecret policy in
      if String.eqb apiKey EmptyString then ret (Some apiKeyBlank)
      else
        fun w =>
        match AlertClientFunc env (trace w) apiKey (PolicySpec.Region (Policy.Spec policy)) with
        | inr errAlertsClient =>
            (Log_Error (Some errAlertsClient) "Failed to create AlertsClient";;
             ret (Some errAlertsClient)) w
        | inl alertsClient =>
            Reconcile_lifecycle (mkReconciler apiKey alertsClient) policy w
        end
  end.

End WithEnv.
End PolicyReconciler.

(** ** The alerts-channel reconciler *)

Module AlertsChannelReconciler.
Section WithEnv.

Variable env : Env.

Definition channelFinalizer : string := "alertschannels.finalizers.nr.k8s.newrelic.com".

Definition getAPIKeyOrSecret (alertschannel : AlertsChannel.t) : M string :=
  let spec := AlertsChannel.Spec alertschannel in
  if negb (String.eqb (AlertsChannelSpec.APIKey spec) EmptyString) then
    ret (AlertsChannelSpec.APIKey spec)
  else if negb (bool_decide (AlertsChannelSpec.APIKeySecret spec = NewRelicAPIKeySecret.zero))
  then
    let key := NamespacedName.mk
                 (NewRelicAPIKeySecret.Namespace (AlertsChannelSpec.APIKeySecret spec))
                 (NewRelicAPIKeySecret.Name (AlertsChannelSpec.APIKeySecret spec)) in
    let* (apiKeySecret, getErr) := Client_Get_Secret env key in
    match getErr with
    | Some e =>
        Log_Error (Some e) "Failed to retrieve secret";;
        ret EmptyString
    | None =>
        ret (default EmptyString
               (Secret.Data apiKeySecret
                  !! NewRelicAPIKeySecret.KeyName (AlertsChannelSpec.APIKeySecret spec)))
    end
  else ret EmptyString.

(** [err] is the named result: the error of the remote delete is logged and
    then overwritten by the result of the store update. *)
Definition deleteAlertsChannel (r : Reconciler) (alertsChannel : AlertsChannel.t)
    (deleteFinalizer : string) : M (AlertsChannel.t * error) :=
  Log_Info "Deleting AlertsChannel";;
  (if negb (Z.eqb (AlertsChannel.ChannelID alertsChannel) 0) then
     let* (_, err) := Alerts_DeleteChannel r (AlertsChannel.ChannelID alertsChannel) in
     match err with
     | Some e => Log_Error (Some e) "error deleting AlertsChannel"
     | None => ret tt
     end
   else ret tt);;
  let alertsChannel :=
    AlertsChannel.set_Finalizers
      (removeString (AlertsChannel.Finalizers alertsChannel) deleteFinalizer)
      alertsChannel in
  let* (alertsChannel, err) := Client_Update_AlertsChannel env alertsChannel in
  match err with
  | Some e =>
      Log_Error (Some e) "tried updating condition status";;
      ret (alertsChannel, Some e)
  | None => ret (alertsChannel, None)
  end.

Definition createAlertsChannel (r : Reconciler) (alertsChannel : AlertsChannel.t)
  : M (AlertsChannel.t * error) :=
  Log_Info "Creating AlertsChannel";;
  let APIChannel := AlertsChannelSpec_APIChannel (AlertsChannel.Spec alertsChannel) in
  let* (createdCondition, err) := Alerts_CreateChannel r APIChannel in
  match err with
  | Some e =>
      Log_Error (Some e) ("error creating AlertsChannel" ++ AlertsChannel.Name alertsChannel);;
      ret (alertsChannel, Some e)
  | None =>
      let* createdCondition := deref createdCondition in
      let alertsChannel :=
        AlertsChannel.set_Status
          (AlertsChannelStatus.mk (Some (AlertsChannel.Spec alertsChannel))
                                  (alerts.ChannelID createdCondition))
          alertsChannel in
      let* (alertsChannel, err) := Client_Update_AlertsChannel env alertsChannel in
      match err with
      | Some e =>
          Log_Error (Some e) "tried updating condition status";;
          ret (alertsChannel, Some e)
      | None => ret (alertsChannel, None)
      end
  end.

(** The body of [updateAlertsChannel] is [return nil]. *)
Definition updateAlertsChannel (r : Reconciler) (alertschannel : AlertsChannel.t)
  : M (AlertsChannel.t * error) :=
  ret (alertschannel, None).

(** The body of [checkForExistingAlertsChannel] is empty. *)
Definition checkForExistingAlertsChannel (r : Reconciler) (alertsChannel : AlertsChannel.t)
  : M AlertsChannel.t :=
  ret alertsChannel.

(** What follows the deletion check in [Reconcile]; a successful
    [deleteAlertsChannel] does not return and reaches it too. *)
Definition Reconcile_sync (r : Reconciler) (alertsChannel : AlertsChannel.t) : M error :=
  if DeepEqual (Some (AlertsChannel.Spec alertsChannel))
               (AlertsChannel.AppliedSpec alertsChannel) then
    ret None
  else
    Log_Info "Reconciling";;
    let* alertsChannel := checkForExistingAlertsChannel r alertsChannel in
    if negb (Z.eqb (AlertsChannel.ChannelID alertsChannel) 0) then
      let* (_, err) := updateAlertsChannel r alertsChannel in
      match err with
      | Some e =>
          Log_Error (Some e) "error updating alertsChannel";;
          ret (Some e)
      | None => ret None
      end
    else
      let* (_, err) := createAlertsChannel r alertsChannel in
      match err with
      | Some e =>
          Log_Error (Some e) "Error creating alertsChannel";;
          ret (Some e)
      | None => ret None
      end.

(** The statements of [Reconcile] that follow the construction of the
    alerts client. *)
Definition Reconcile_lifecycle (r : Reconciler) (alertsChannel : AlertsChannel.t)
  : M error :=
  let deleteFinalizer := channelFinalizer in
  if ObjectMeta.DeletionTimestamp_IsZero (AlertsChannel.Meta alertsChannel) then
    let alertsChannel :=
      if negb (containsString (AlertsChannel.Finalizers alertsChannel) deleteFinalizer)
      then AlertsChannel.set_Finalizers
             (AlertsChannel.Finalizers alertsChannel ++ [deleteFinalizer]) alertsChannel
      else alertsChannel in
    Reconcile_sync r alertsChannel
  else
    let* (alertsChannel, err) := deleteAlertsChannel r alertsChannel deleteFinalizer in
    match err with
    | Some e =>
        Log_Error (Some e) "error deleting channel";;
        ret (Some e)
    | None => Reconcile_sync r alertsChannel
    end.

Definition Reconcile (req : NamespacedName.t) : M error :=
  let* (alertsChannel, err) := Client_Get_AlertsChannel env req in
  match err with
  | Some e =>
      if strings_Contains e " not found" then
        Log_Info "AlertsChannel 'not found' after being deleted. This is expected and no cause for alarm";;
        ret None
      else
        Log_Error (Some e) "Failed to GET alertsChannel";;
        ret None
  | None =>
      Log_Info "Starting reconcile action";;
      Log_Info "alertsChannel";;
      let* apiKey := getAPIKeyOrSecret alertsChannel in
      if String.eqb apiKey EmptyString then ret (Some apiKeyBlank)
      else
        fun w =>
        match AlertClientFunc env (trace w) apiKey
                (AlertsChannelSpec.Region (AlertsChannel.Spec alertsChannel)) with
        | inr errAlertsClient =>
            (Log_Error (Some errAlertsClient) "Failed to create AlertsClient";;
             ret (Some errAlertsClient)) w
        | inl alertsClient =>
            Reconcile_lifecycle (mkReconciler apiKey alertsClient) alertsChannel w
        end
  end.

End WithEnv.
End AlertsChannelReconciler.

(** Reconciling the same request [n] times in a row: the results, oldest
    first, and the final world. *)
Fixpoint Reconcile_n (reconcile : M error) (n : nat) (w : World)
  : list (outcome error) * World :=
  match n with
  | O => ([], w)
  | S n' =>
      let (r, w1) := reconcile w in
      let (rs, w2) := Reconcile_n reconcile n' w1 in
      (r :: rs, w2)
  end.

(** ** The fixtures of the test-suite *)

Module Fixtures.

(** The fake client of the suite: a created policy gets identifier 333, an
    updated one 222, nothing is listed. *)
Definition fakeAlerts : NewRelicAlertsClient.t :=
  NewRelicAlertsClient.mk
    (fun _ a => (Some (alerts.set_ID 333 a), None))
    (fun _ a => (Some (alerts.mkPolicy 222 EmptyString EmptyString), None))
    (fun _ _ => (Some (alerts.mkPolicy 0 EmptyString EmptyString), None))
    (fun _ _ => ([], None))
    (fun _ c => (Some (alerts.mkChannel 444 (alerts.ChannelName c) (alerts.ChannelType c)), None))
    (fun _ _ => (Some (alerts.mkChannel 0 EmptyString EmptyString), None)).

(** A store without failures that numbers its resource versions by the
    calls made so far; a condition specification is rendered by its name. *)
Definition fakeEnv (client : NewRelicAlertsClient.t) : Env :=
  mkEnv (fun _ _ _ => inl client)
        (fun _ _ => None)
        (fun h => sprintf_d (Z.of_nat (length h)))
        NrqlAlertConditionSpec.Name.

Definition conditionSpec (name : string) : NrqlAlertConditionSpec.t :=
  NrqlAlertConditionSpec.mk
    [AlertConditionTerm.mk "30" "above" "critical" "5" "all"]
    (NrqlQuery.mk "SELECT 1 FROM MyEvents" "5")
    "NRQL" name "http://test.com/runbook" "max" 777 60 2 true true 42
    "api-key" NewRelicAPIKeySecret.zero "us".

Definition condition (name : string) : NrqlAlertCondition.t :=
  NrqlAlertCondition.mk ObjectMeta.zero (conditionSpec name)
    (NrqlAlertConditionStatus.mk (Some NrqlAlertConditionSpec.zero) 0).

Definition policySpec (conds : list NrqlAlertCondition.t) : PolicySpec.t :=
  PolicySpec.mk "PER_POLICY" "test policy" "112233" NewRelicAPIKeySecret.zero
                EmptyString conds.

Definition policyMeta : ObjectMeta.t :=
  ObjectMeta.mk "test-policy" "default" ∅ [] None EmptyString.

Definition policy : Policy.t :=
  Policy.mk policyMeta (policySpec [condition "NRQL Condition"])
            (PolicyStatus.mk (Some PolicySpec.zero) 0).

Definition namespacedName : NamespacedName.t :=
  NamespacedName.mk "default" "test-policy".

Definition emptyWorld : World := mkWorld ∅ ∅ ∅ ∅ [] [].

Definition withPolicy (p : Policy.t) (w : World) : World :=
  set_policies (<[Policy.key p := p]> (policies w)) w.

End Fixtures.

(** ** Further fixtures *)

Module Scenarios.
Import Fixtures.

Definition anyError : GoError := "Any Error Goes Here".

(** The stub of the test "when the New Relic API returns an error". *)
Definition failingCreate : NewRelicAlertsClient.t :=
  NewRelicAlertsClient.mk
    (fun _ _ => (Some (alerts.mkPolicy 0 EmptyString EmptyString), Some anyError))
    (NewRelicAlertsClient.UpdatePolicy fakeAlerts)
    (NewRelicAlertsClient.DeletePolicy fakeAlerts)
    (NewRelicAlertsClient.ListPolicies fakeAlerts)
    (NewRelicAlertsClient.CreateChannel fakeAlerts)
    (NewRelicAlertsClient.DeleteChannel fakeAlerts).

(** A client whose list call answers [answer]. *)
Definition listing (answer : list alerts.Policy * error) : NewRelicAlertsClient.t :=
  NewRelicAlertsClient.mk
    (NewRelicAlertsClient.CreatePolicy fakeAlerts)
    (NewRelicAlertsClient.UpdatePolicy fakeAlerts)
    (NewRelicAlertsClient.DeletePolicy fakeAlerts)
    (fun _ _ => answer)
    (NewRelicAlertsClient.CreateChannel fakeAlerts)
    (NewRelicAlertsClient.DeleteChannel fakeAlerts).

Definition receiver (client : NewRelicAlertsClient.t) : Reconciler :=
  mkReconciler "112233" client.

(** A policy with two declared conditions, none of them created yet. *)
Definition twoConditions : Policy.t :=
  Policy.mk policyMeta (policySpec [condition "first"; condition "second"])
            (PolicyStatus.mk (Some PolicySpec.zero) 0).

Definition finalized : ObjectMeta.t :=
  ObjectMeta.mk "test-policy" "default" ∅ [PolicyReconciler.policyFinalizer] None "1".

Definition deleting : ObjectMeta.t :=
  ObjectMeta.mk "test-policy" "default" ∅ [PolicyReconciler.policyFinalizer]
                (Some 1600000000) "2".

(** A policy that has converged. *)
Definition converged : Policy.t :=
  Policy.mk finalized (policySpec []) (PolicyStatus.mk (Some (policySpec [])) 333).

(** A converged policy whose specification names neither a key nor a secret. *)
Definition blankSpec : PolicySpec.t :=
  PolicySpec.mk "PER_POLICY" "test policy" EmptyString NewRelicAPIKeySecret.zero
                EmptyString [].

Definition convergedBlank : Policy.t :=
  Policy.mk finalized blankSpec (PolicyStatus.mk (Some blankSpec) 333).

(** A policy under deletion that never got a remote identifier. *)
Definition deletingUnassigned : Policy.t :=
  Policy.mk deleting (policySpec []) (PolicyStatus.mk (Some PolicySpec.zero) 0).

(** A policy under deletion with a remote identifier and one recorded
    condition. *)
Definition deletingAssigned : Policy.t :=
  Policy.mk deleting (policySpec [condition "NRQL Condition"])
            (PolicyStatus.mk (Some (policySpec [condition "NRQL Condition"])) 333).

(** A store whose delete of a condition fails. *)
Definition failingDeleteEnv : Env :=
  mkEnv (fun _ _ _ => inl fakeAlerts)
        (fun _ c => match c with
                    | ClientDeleteCondition _ => Some "delete refused"
                    | _ => None
                    end)
        (fun h => sprintf_d (Z.of_nat (length h)))
        NrqlAlertConditionSpec.Name.

(** A policy whose key is in a secret. *)
Definition secretRef : NewRelicAPIKeySecret.t :=
  NewRelicAPIKeySecret.mk "nr-secret" "default" "key".

Definition secretSpec : PolicySpec.t :=
  PolicySpec.mk "PER_POLICY" "test policy" EmptyString secretRef EmptyString [].

Definition withSecretRef : Policy.t :=
  Policy.mk policyMeta secretSpec (PolicyStatus.mk (Some PolicySpec.zero) 0).

(** A policy that has converged with the key of its secret. *)
Definition convergedBySecret : Policy.t :=
  Policy.mk finalized secretSpec (PolicyStatus.mk (Some secretSpec) 333).

Definition withSecret (w : World) : World :=
  mkWorld (policies w) (channels w) (conditions w)
          (<[NamespacedName.mk "default" "nr-secret" := Secret.mk {["key" := "112233"]}]>
             (secrets w))
          (trace w) (logged w).

(** Channels. *)
Definition channelSpec : AlertsChannelSpec.t :=
  AlertsChannelSpec.mk "my alert channel" "112233" NewRelicAPIKeySecret.zero
                       EmptyString "email".

Definition channelMeta : ObjectMeta.t :=
  ObjectMeta.mk "test-channel" "default" ∅ [] None "1".

Definition channelName : NamespacedName.t :=
  NamespacedName.mk "default" "test-channel".

(** A channel with a remote identifier whose specification has changed. *)
Definition changedChannel : AlertsChannel.t :=
  AlertsChannel.mk channelMeta channelSpec (AlertsChannelStatus.mk None 5).

Definition convergedChannel : AlertsChannel.t :=
  AlertsChannel.mk channelMeta channelSpec (AlertsChannelStatus.mk (Some channelSpec) 5).

Definition freshChannel : AlertsChannel.t :=
  AlertsChannel.mk channelMeta channelSpec (AlertsChannelStatus.mk None 0).

Definition failingChannelCreate : NewRelicAlertsClient.t :=
  NewRelicAlertsClient.mk
    (NewRelicAlertsClient.CreatePolicy fakeAlerts)
    (NewRelicAlertsClient.UpdatePolicy fakeAlerts)
    (NewRelicAlertsClient.DeletePolicy fakeAlerts)
    (NewRelicAlertsClient.ListPolicies fakeAlerts)
    (fun _ _ => (None, Some anyError))
    (NewRelicAlertsClient.DeleteChannel fakeAlerts).

Definition withChannel (c : AlertsChannel.t) (w : World) : World :=
  set_channels (<[AlertsChannel.key c := c]> (channels w)) w.

(** A world holding the converged policy and the converged channel. *)
Definition convergedWorld : World :=
  withPolicy converged (withChannel convergedChannel emptyWorld).

(** Two remote policies of the wanted name. *)
Definition sameName : list alerts.Policy :=
  [alerts.mkPolicy 0 "PER_POLICY" "test policy";
   alerts.mkPolicy 7 "PER_POLICY" "test policy"].

End Scenarios.

(** ** Fixtures for discovery and for the further properties *)

Module Cases.
Import Fixtures Scenarios.

(** What a list by name can return: a policy whose name only contains the
    wanted one, then two policies of the wanted name. *)
Definition duplicates : list alerts.Policy :=
  [alerts.mkPolicy 9 "PER_POLICY" "test policy 2";
   alerts.mkPolicy 5 "PER_POLICY" "test policy";
   alerts.mkPolicy 7 "PER_POLICY" "test policy"].

(** A client that lists [listed] and answers an update with the policy it
    was sent. *)
Definition echoing (listed : list alerts.Policy) : NewRelicAlertsClient.t :=
  NewRelicAlertsClient.mk
    (NewRelicAlertsClient.CreatePolicy fakeAlerts)
    (fun _ a => (Some a, None))
    (NewRelicAlertsClient.DeletePolicy fakeAlerts)
    (fun _ _ => (listed, None))
    (NewRelicAlertsClient.CreateChannel fakeAlerts)
    (NewRelicAlertsClient.DeleteChannel fakeAlerts).

(** A store that refuses every update of a policy. *)
Definition refusingUpdateEnv : Env :=
  mkEnv (fun _ _ _ => inl fakeAlerts)
        (fun _ c => match c with
                    | ClientUpdatePolicy _ => Some "update refused"
                    | _ => None
                    end)
        (fun h => sprintf_d (Z.of_nat (length h)))
        NrqlAlertConditionSpec.Name.

(** A policy as the store holds it before the first synchronisation: its
    status is empty. *)
Definition unapplied : Policy.t :=
  Policy.mk policyMeta (policySpec [condition "NRQL Condition"]) PolicyStatus.zero.

(** A declared condition that the store has versioned, and the different
    condition recorded for it. *)
Definition versionedCondition : NrqlAlertCondition.t :=
  NrqlAlertCondition.mk
    (ObjectMeta.mk "test-policy476730929" "default" ∅ [] None "7")
    (conditionSpec "NRQL Condition, changed")
    (NrqlAlertConditionStatus.mk (Some NrqlAlertConditionSpec.zero) 0).

Definition recordedCondition : NrqlAlertCondition.t :=
  NrqlAlertCondition.mk
    (ObjectMeta.mk "test-policy476730929" "default" ∅ [] None "7")
    (conditionSpec "NRQL Condition")
    (NrqlAlertConditionStatus.mk (Some NrqlAlertConditionSpec.zero) 0).

Definition withVersioned : Policy.t :=
  Policy.mk finalized (policySpec [versionedCondition])
            (PolicyStatus.mk (Some (policySpec [recordedCondition])) 333).

(** The same declaration with nothing recorded. *)
Definition versionedUnrecorded : Policy.t :=
  Policy.mk finalized (policySpec [versionedCondition])
            (PolicyStatus.mk (Some PolicySpec.zero) 333).

(** A store that refuses every update of a condition. *)
Definition refusingConditionEnv : Env :=
  mkEnv (fun _ _ _ => inl fakeAlerts)
        (fun _ c => match c with
                    | ClientUpdateCondition _ => Some "conflict"
                    | _ => None
                    end)
        (fun h => sprintf_d (Z.of_nat (length h)))
        NrqlAlertConditionSpec.Name.

(** A policy with a remote identifier and recorded conditions that lacks
    the finalizer. *)
Definition assignedWithoutFinalizer : Policy.t :=
  Policy.mk policyMeta (policySpec [condition "NRQL Condition"])
            (PolicyStatus.mk (Some (policySpec [condition "NRQL Condition"])) 333).

(** Channels under deletion: one with a remote identifier, one without. *)
Definition deletingChannelMeta : ObjectMeta.t :=
  ObjectMeta.mk "test-channel" "default" ∅ [AlertsChannelReconciler.channelFinalizer]
                (Some 1600000000) "2".

Definition deletingChannel : AlertsChannel.t :=
  AlertsChannel.mk deletingChannelMeta channelSpec
                   (AlertsChannelStatus.mk (Some channelSpec) 5).

Definition deletingFreshChannel : AlertsChannel.t :=
  AlertsChannel.mk deletingChannelMeta channelSpec (AlertsChannelStatus.mk None 0).

(** A client whose delete of a channel fails. *)
Definition failingChannelDelete : NewRelicAlertsClient.t :=
  NewRelicAlertsClient.mk
    (NewRelicAlertsClient.CreatePolicy fakeAlerts)
    (NewRelicAlertsClient.UpdatePolicy fakeAlerts)
    (NewRelicAlertsClient.DeletePolicy fakeAlerts)
    (NewRelicAlertsClient.ListPolicies fakeAlerts)
    (NewRelicAlertsClient.CreateChannel fakeAlerts)
    (fun _ _ => (None, Some anyError)).


(** A channel whose key is in the secret of [withSecretRef]. *)
Definition channelBySecret : AlertsChannel.t :=
  AlertsChannel.mk channelMeta
    (AlertsChannelSpec.mk "my alert channel" EmptyString secretRef EmptyString "email")
    (AlertsChannelStatus.mk None 0).

End Cases.

(** * Vocabulary of the properties

    The predicates in which the properties of the reconcilers are stated:
    how a world grows, which runs a method can have, and what the
    specification asks of a run. *)

Local Open Scope list_scope.

(** ** Growth of a world *)

(** [grows w w' new nl]: [w'] is [w] with the events [new] and the log
    lines [nl] added. *)
Definition grows (w w' : World) (new : list Event) (nl : list LogEntry) : Prop :=
  trace w' = trace w ++ new /\ logged w' = logged w ++ nl.

(** ** Credentials *)

(** The key under which the secret referred to by [ref] is fetched. *)
Definition secretKey (ref : NewRelicAPIKeySecret.t) : NamespacedName.t :=
  NamespacedName.mk (NewRelicAPIKeySecret.Namespace ref) (NewRelicAPIKeySecret.Name ref).

(** What section 4.1 of the specification asks of a resolver [resolve] for a specification with
    inline key [apiKey] and secret reference [ref]. *)
Definition resolver_contract (env : Env) (apiKey : string)
    (ref : NewRelicAPIKeySecret.t) (resolve : M string) : Prop :=
  forall w,
    (apiKey <> EmptyString -> resolve w = (Done apiKey, w))
    /\ (apiKey = EmptyString -> ref <> NewRelicAPIKeySecret.zero ->
        forall s err w1,
          Client_Get_Secret env (secretKey ref) w = (Done (s, err), w1) ->
          exists w',
            resolve w =
              (Done (match err with
                     | None => default EmptyString
                                 (Secret.Data s !! NewRelicAPIKeySecret.KeyName ref)
                     | Some _ => EmptyString
                     end), w')
            /\ store w' = store w
            /\ new_events w w' = [mkEvent (ClientGetSecret (secretKey ref)) err])
    /\ (apiKey = EmptyString -> ref = NewRelicAPIKeySecret.zero ->
        resolve w = (Done EmptyString, w)).

(** What the same section asks of the caller: when the entity [x] was
    fetched and its key resolves to the empty string, the invocation fails
    with "api key is blank", having called nothing remote and written
    nothing to the store. *)
Definition blank_key_is_fatal {X : Type} (fetch : M (X * error))
    (resolve : X -> M string) (reconcile : M error) : Prop :=
  forall w x w1,
    fetch w = (Done (x, None), w1) ->
    fst (resolve x w1) = Done EmptyString ->
    exists w',
      reconcile w = (Done (Some apiKeyBlank), w')
      /\ store w' = store w
      /\ remote_calls (new_events w w') = []
      /\ store_writes (new_events w w') = [].

(** ** Convergence *)

(** A run that neither calls the remote system nor writes to the store. *)
Definition quiet (w w' : World) : Prop :=
  exists new nl,
    grows w w' new nl /\ store w' = store w
    /\ remote_calls new = [] /\ store_writes new = [].

(** The outcomes a reconciliation of a converged entity can have. *)
Definition noop_result (env : Env) (region : string) (r : outcome error) : Prop :=
  r = Done None
  \/ r = Done (Some apiKeyBlank)
  \/ exists h k e, AlertClientFunc env h k region = inr e /\ r = Done (Some e).

(** The client factory builds a client for this key, whatever happened. *)
Definition builds_client (env : Env) (key region : string) : Prop :=
  key <> EmptyString /\ forall h e, AlertClientFunc env h key region <> inr e.

(** The key that the store of [w] holds for a specification with inline
    key [apiKey] and secret reference [ref]: the inline key when it is set,
    else the named field of the referred secret, else the empty string. *)
Definition storedKey (apiKey : string) (ref : NewRelicAPIKeySecret.t) (w : World)
  : string :=
  if negb (String.eqb apiKey EmptyString) then apiKey
  else if negb (bool_decide (ref = NewRelicAPIKeySecret.zero)) then
    match secrets w !! secretKey ref with
    | Some s => default EmptyString (Secret.Data s !! NewRelicAPIKeySecret.KeyName ref)
    | None => EmptyString
    end
  else EmptyString.

(** The store answers the reads of the referred secret; with an inline key
    that secret is not read. *)
Definition secret_is_read (env : Env) (apiKey : string) (ref : NewRelicAPIKeySecret.t)
  : Prop :=
  apiKey = EmptyString ->
  forall h, storeFault env h (ClientGetSecret (secretKey ref)) = None.

(** The credentials resolve: the key held by the store, inline or in the
    secret, is not empty, the secret can be read, and the client factory
    builds a client for that key. *)
Definition key_and_client (env : Env) (apiKey : string) (ref : NewRelicAPIKeySecret.t)
    (region : string) (w : World) : Prop :=
  secret_is_read env apiKey ref
  /\ builds_client env (storedKey apiKey ref w) region.

(** The outcomes of a reconciliation of a converged entity, each error with
    its cause: success; the blank-key error, when the store holds no key or
    the read of the secret failed; the error with which the client factory
    refused the key held by the store. *)
Definition converged_result (env : Env) (apiKey : string) (ref : NewRelicAPIKeySecret.t)
    (region : string) (w : World) (r : outcome error) : Prop :=
  r = Done None
  \/ (r = Done (Some apiKeyBlank)
      /\ (storedKey apiKey ref w = EmptyString
          \/ exists h e,
              apiKey = EmptyString
              /\ storeFault env h (ClientGetSecret (secretKey ref)) = Some e))
  \/ (exists h e,
         AlertClientFunc env h (storedKey apiKey ref w) region = inr e
         /\ r = Done (Some e)).

(** [n] invocations in a row from [w] call nothing remote and write nothing;
    each returns success, or the blank-key error or the error of the client
    factory with their causes; all return success when the credentials
    resolve. *)
Definition converged_noop (env : Env) (reconcile : M error)
    (apiKey : string) (ref : NewRelicAPIKeySecret.t) (region : string) (w : World)
  : Prop :=
  forall n,
    let w' := snd (Reconcile_n reconcile n w) in
    let results := fst (Reconcile_n reconcile n w) in
    length results = n
    /\ store w' = store w
    /\ remote_calls (new_events w w') = []
    /\ store_writes (new_events w w') = []
    /\ Forall (converged_result env apiKey ref region w) results
    /\ (key_and_client env apiKey ref region w ->
        Forall (fun r => r = Done None) results).

(** ** Deletion *)

(** A successful delete of the condition resource [c]. *)
Definition okDelete (c : NrqlAlertCondition.t) : Event :=
  mkEvent (ClientDeleteCondition c) None.

(** A delete of the condition resource [c] that failed with [e]. *)
Definition failedDelete (c : NrqlAlertCondition.t) (e : GoError) : Event :=
  mkEvent (ClientDeleteCondition c) (Some e).

(** Only the conditions of the store change. *)
Definition same_entities (w w' : World) : Prop :=
  policies w' = policies w /\ channels w' = channels w /\ secrets w' = secrets w.

(** The conditions recorded in [Status.AppliedSpec]. *)
Definition recordedConditions (p : Policy.t) : list NrqlAlertCondition.t :=
  match Policy.AppliedSpec p with
  | Some applied => PolicySpec.Conditions applied
  | None => []
  end.

(** The policy with the finalizer stripped. *)
Definition stripped (p : Policy.t) (fin : string) : Policy.t :=
  Policy.set_Finalizers (removeString (Policy.Finalizers p) fin) p.

(** The remote delete of the policy, with its result. *)
Definition remoteDelete (p : Policy.t) (e : error) : Event :=
  mkEvent (AlertsDeletePolicy (Policy.PolicyID p)) e.

(** The runs of [deletePolicy] on a policy that has the finalizer and a
    remote identifier: what is returned, the events, the log lines. *)
Inductive deletion_run (p : Policy.t) (fin : string) (w w' : World)
  : outcome (Policy.t * error) -> list Event -> list LogEntry -> Prop :=
| deletion_panics msg :
    Policy.AppliedSpec p = None ->
    policies w' = policies w ->
    deletion_run p fin w w' (Panic msg) [] []
| deletion_child_fails pre c post e nl :
    recordedConditions p = pre ++ c :: post ->
    policies w' = policies w ->
    (exists msg, LogError (Some e) msg ∈ nl) ->
    deletion_run p fin w w' (Done (p, Some e))
                 (map okDelete pre ++ [failedDelete c e]) nl
| deletion_remote_fails e nl :
    policies w' = policies w ->
    (exists msg, LogError (Some e) msg ∈ nl) ->
    deletion_run p fin w w' (Done (p, Some e))
                 (map okDelete (recordedConditions p) ++ [remoteDelete p (Some e)]) nl
| deletion_update_fails e nl :
    policies w' = policies w ->
    (exists msg, LogError (Some e) msg ∈ nl) ->
    deletion_run p fin w w' (Done (stripped p fin, Some e))
                 (map okDelete (recordedConditions p)
                  ++ [remoteDelete p None;
                      mkEvent (ClientUpdatePolicy (stripped p fin)) (Some e)]) nl
| deletion_done q nl :
    policies w' = <[Policy.key p := q]> (policies w) ->
    Policy.Finalizers q = removeString (Policy.Finalizers p) fin ->
    deletion_run p fin w w' (Done (q, None))
                 (map okDelete (recordedConditions p)
                  ++ [remoteDelete p None;
                      mkEvent (ClientUpdatePolicy (stripped p fin)) None]) nl.

(** The three statements of the deletion-ordering property on the events
    [new] of a run from [w] to [w'] that returned [res]. *)
Definition children_before_parent (p : Policy.t) (new : list Event) : Prop :=
  forall ev id,
    ev ∈ new -> call ev = AlertsDeletePolicy id ->
    exists post, new = map okDelete (recordedConditions p) ++ ev :: post.

Definition finalizer_after_remote_delete (p : Policy.t) (fin : string)
    (w w' : World) (new : list Event) : Prop :=
  (forall ev q,
      ev ∈ new -> call ev = ClientUpdatePolicy q ->
      q = stripped p fin /\ exists pre, new = pre ++ [remoteDelete p None; ev])
  /\ (policies w' = policies w \/ remoteDelete p None ∈ new).

Definition first_child_error_aborts (p : Policy.t) (w w' : World)
    (res : outcome error) (new : list Event) : Prop :=
  forall c e,
    failedDelete c e ∈ new ->
    res = Done (Some e)
    /\ policies w' = policies w
    /\ exists pre post,
        recordedConditions p = pre ++ c :: post
        /\ new = map okDelete pre ++ [failedDelete c e].

(** ** Create, update and discovery *)

(** Calls that write a condition resource to the store. *)
Definition is_condition_write (c : Call) : bool :=
  match c with
  | ClientUpdateCondition _ | ClientCreateCondition _ => true
  | _ => false
  end.

(** The runs of [createPolicy] and of [updatePolicy], which start with the
    remote call [c]: either it fails, and the method returns its error
    without another call, or it succeeds and only the store is called. *)
Inductive remote_step_run (c : Call) (p : Policy.t) (w w' : World)
  : outcome (Policy.t * error) -> list Event -> list LogEntry -> Prop :=
| remote_step_fails e nl :
    store w' = store w ->
    (exists msg, LogError (Some e) msg ∈ nl) ->
    remote_step_run c p w w' (Done (p, Some e)) [mkEvent c (Some e)] nl
| remote_step_passes res rest nl :
    Forall (fun ev => is_remote (call ev) = false) rest ->
    remote_step_run c p w w' res (mkEvent c None :: rest) nl.

(** The list call of the discovery step. *)
Definition listCall (p : Policy.t) : Call :=
  AlertsListPolicies (alerts.mkListPoliciesParams (PolicySpec.Name (Policy.Spec p))).

(** The policy with the identifier of the first listed policy of its name,
    if there is one. *)
Definition adopt (p : Policy.t) (existingPolicies : list alerts.Policy) : Policy.t :=
  match PolicyReconciler.firstNamed (PolicySpec.Name (Policy.Spec p)) existingPolicies with
  | Some existingPolicy => Policy.set_PolicyID (alerts.ID existingPolicy) p
  | None => p
  end.

(** The runs of [checkForExistingPolicy] with history [h]: the policy it
    leaves, the events, the log lines. *)
Inductive discovery_run (r : Reconciler) (p : Policy.t) (h : list Event)
  : Policy.t -> list Event -> list LogEntry -> Prop :=
| discovery_skipped :
    Policy.PolicyID p <> 0 ->
    discovery_run r p h p [] []
| discovery_fails ps e nl :
    Policy.PolicyID p = 0 ->
    NewRelicAlertsClient.ListPolicies (Alerts r) h
      (alerts.mkListPoliciesParams (PolicySpec.Name (Policy.Spec p))) = (ps, Some e) ->
    (exists msg, LogError (Some e) msg ∈ nl) ->
    discovery_run r p h p [mkEvent (listCall p) (Some e)] nl
| discovery_lists ps nl :
    Policy.PolicyID p = 0 ->
    NewRelicAlertsClient.ListPolicies (Alerts r) h
      (alerts.mkListPoliciesParams (PolicySpec.Name (Policy.Spec p))) = (ps, None) ->
    discovery_run r p h (adopt p ps) [mkEvent (listCall p) None] nl.

(** The policy [Reconcile] works on when it is not being deleted: the
    finalizer is appended in memory if it is missing. *)
Definition withFinalizer (p : Policy.t) (fin : string) : Policy.t :=
  if negb (containsString (Policy.Finalizers p) fin)
  then Policy.set_Finalizers (Policy.Finalizers p ++ [fin]) p
  else p.

(** What [Reconcile] returns of the result of a method on the policy. *)
Definition error_of (res : outcome (Policy.t * error)) : outcome error :=
  match res with
  | Done (_, err) => Done err
  | Panic msg => Panic msg
  end.

(** The remote call that follows discovery: an update when an identifier
    is known, a create otherwise. *)
Definition syncCall (q : Policy.t) : Call :=
  if Z.eqb (Policy.PolicyID q) 0
  then AlertsCreatePolicy (PolicySpec_APIPolicy (Policy.Spec q))
  else AlertsUpdatePolicy (alerts.set_ID (Policy.PolicyID q)
                                         (PolicySpec_APIPolicy (Policy.Spec q))).

(** The runs of [Reconcile_lifecycle]. *)
Inductive lifecycle_run (r : Reconciler) (p : Policy.t) (w w' : World)
  : outcome error -> list Event -> list LogEntry -> Prop :=
| lifecycle_nothing_to_delete nl :
    ObjectMeta.DeletionTimestamp_IsZero (Policy.Meta p) = false ->
    store w' = store w ->
    lifecycle_run r p w w' (Done None) [] nl
| lifecycle_deletes res new nl :
    ObjectMeta.DeletionTimestamp_IsZero (Policy.Meta p) = false ->
    deletion_run p PolicyReconciler.policyFinalizer w w' res new nl ->
    lifecycle_run r p w w' (error_of res) new nl
| lifecycle_converged :
    ObjectMeta.DeletionTimestamp_IsZero (Policy.Meta p) = true ->
    Policy.AppliedSpec p = Some (Policy.Spec p) ->
    store w' = store w ->
    lifecycle_run r p w w' (Done None) [] []
| lifecycle_syncs q w1 new1 nl1 res new2 nl2 :
    ObjectMeta.DeletionTimestamp_IsZero (Policy.Meta p) = true ->
    Policy.AppliedSpec p <> Some (Policy.Spec p) ->
    discovery_run r (withFinalizer p PolicyReconciler.policyFinalizer) (trace w) q new1 nl1 ->
    store w1 = store w ->
    remote_step_run (syncCall q) q w1 w' res new2 nl2 ->
    lifecycle_run r p w w' (error_of res) (new1 ++ new2)
                  (LogInfo "Reconciling" :: nl1 ++ nl2).

(** The runs of [Reconcile]: it returns before the lifecycle, having only
    read the store, or it runs the lifecycle on the stored policy. *)
Inductive reconcile_run (env : Env) (req : NamespacedName.t) (w w' : World)
  : outcome error -> Prop :=
| reconcile_returns_early res :
    quiet w w' ->
    noop_result env EmptyString res
    \/ (exists h k region e, AlertClientFunc env h k region = inr e /\ res = Done (Some e)) ->
    reconcile_run env req w w' res
| reconcile_lifecycle p r w1 res new nl :
    policies w !! req = Some p ->
    quiet w w1 ->
    grows w1 w' new nl ->
    lifecycle_run r p w1 w' res new nl ->
    reconcile_run env req w w' res.

(** ** Failures *)

(** The remote calls whose failure [Reconcile] returns as its own error. *)
Definition must_propagate (c : Call) : bool :=
  match c with
  | AlertsCreatePolicy _ | AlertsUpdatePolicy _ | AlertsDeletePolicy _
  | AlertsCreateChannel _ => true
  | _ => false
  end.

(** The remote creates of a trace. *)
Definition remote_creates (t : list Event) : list Event :=
  filter (fun ev => is_remote_create (call ev) = true) t.

(** The channel [Reconcile] works on when it is not being deleted. *)
Definition channelWithFinalizer (c : AlertsChannel.t) (fin : string) : AlertsChannel.t :=
  if negb (containsString (AlertsChannel.Finalizers c) fin)
  then AlertsChannel.set_Finalizers (AlertsChannel.Finalizers c ++ [fin]) c
  else c.

(** The runs of [Reconcile_sync] of the channel reconciler. *)
Inductive channel_sync_run (c : AlertsChannel.t)
  : outcome error -> list Event -> list LogEntry -> Prop :=
| channel_sync_converged :
    AlertsChannel.AppliedSpec c = Some (AlertsChannel.Spec c) ->
    channel_sync_run c (Done None) [] []
| channel_sync_update_stub nl :
    AlertsChannel.AppliedSpec c <> Some (AlertsChannel.Spec c) ->
    AlertsChannel.ChannelID c <> 0 ->
    channel_sync_run c (Done None) [] nl
| channel_sync_create_fails e nl :
    AlertsChannel.ChannelID c = 0 ->
    (exists msg, LogError (Some e) msg ∈ nl) ->
    channel_sync_run c (Done (Some e))
      [mkEvent (AlertsCreateChannel (AlertsChannelSpec_APIChannel (AlertsChannel.Spec c)))
               (Some e)] nl
| channel_sync_create_passes res rest nl :
    AlertsChannel.ChannelID c = 0 ->
    Forall (fun ev => is_remote (call ev) = false) rest ->
    channel_sync_run c res
      (mkEvent (AlertsCreateChannel (AlertsChannelSpec_APIChannel (AlertsChannel.Spec c)))
               None :: rest) nl.

(** What [Reconcile] promises about the failures of remote mutations, on
    the events [new] and log lines [nl] of a run that returned [res]: the
    error of the failed call is returned, it is logged, and the failed call
    is the last call of the run. *)
Definition propagates (res : outcome error) (new : list Event) (nl : list LogEntry) : Prop :=
  forall ev e,
    ev ∈ new -> failure ev = Some e -> must_propagate (call ev) = true ->
    res = Done (Some e)
    /\ (exists msg, LogError (Some e) msg ∈ nl)
    /\ exists pre, new = pre ++ [ev].

(** ** Children of a policy *)

(** The condition resource that [createCondition] hands to the store for
    the declared condition [condition] of [policy]: named after the policy
    and the hash of its specification as declared, in the namespace and with
    the labels of the policy, status cleared, parent fields copied down. *)
Definition childOf (env : Env) (policy : Policy.t) (condition : NrqlAlertCondition.t)
  : NrqlAlertCondition.t :=
  NrqlAlertCondition.mk
    (ObjectMeta.mk
       (String.append (Policy.Name policy)
                      (sprintf_d (ComputeHash env (NrqlAlertCondition.Spec condition))))
       (Policy.Namespace policy)
       (Policy.Labels policy)
       (ObjectMeta.Finalizers (NrqlAlertCondition.Meta condition))
       (ObjectMeta.DeletionTimestamp (NrqlAlertCondition.Meta condition))
       (ObjectMeta.ResourceVersion (NrqlAlertCondition.Meta condition)))
    (NrqlAlertConditionSpec.set_parent
       (PolicySpec.Region (Policy.Spec policy))
       (Policy.PolicyID policy)
       (PolicySpec.APIKey (Policy.Spec policy))
       (PolicySpec.APIKeySecret (Policy.Spec policy))
       (NrqlAlertCondition.Spec condition))
    (NrqlAlertConditionStatus.mk (Some NrqlAlertConditionSpec.zero) 0).

(** An object as the store hands it back: with the version it assigned. *)
Definition versioned (version : string) (c : NrqlAlertCondition.t) : NrqlAlertCondition.t :=
  NrqlAlertCondition.set_Meta
    (ObjectMeta.set_ResourceVersion version (NrqlAlertCondition.Meta c)) c.

(** Remote calls that change a policy. *)
Definition is_policy_mutation (c : Call) : bool :=
  match c with
  | AlertsCreatePolicy _ | AlertsUpdatePolicy _ | AlertsDeletePolicy _ => true
  | _ => false
  end.

Definition policy_mutations (t : list Event) : list Event :=
  filter (fun ev => is_policy_mutation (call ev) = true) t.

(** Calls that delete something, in the store or in the remote system. *)
Definition is_delete (c : Call) : bool :=
  match c with
  | ClientDeleteCondition _ | AlertsDeletePolicy _ | AlertsDeleteChannel _ => true
  | _ => false
  end.

(** A trace holds a store update of a policy that went through. *)
Definition policy_persisted (t : list Event) : bool :=
  existsb (fun ev => match call ev, failure ev with
                     | ClientUpdatePolicy _, None => true
                     | _, _ => false
                     end) t.

(** A write of a condition resource which, if it is a create, is that of a
    child pointing to the remote policy [id]. *)
Definition child_write (id : Z) (ev : Event) : Prop :=
  is_condition_write (call ev) = true
  /\ forall cond, call ev = ClientCreateCondition cond ->
       NrqlAlertConditionSpec.ExistingPolicyID (NrqlAlertCondition.Spec cond) = id.

(** ** The synchronisation step in full *)

(** The policy [q] that [createPolicy] and [updatePolicy] store for [p]
    when the remote system answered the identifier [id]: the identifier and
    the snapshot of the specification are set, the declared conditions are
    those the condition step left, and the store has assigned a version. *)
Definition applied (id : Z) (p q : Policy.t) : Prop :=
  Policy.PolicyID q = id
  /\ Policy.AppliedSpec q = Some (Policy.Spec q)
  /\ Policy.Spec q
     = PolicySpec.set_Conditions (PolicySpec.Conditions (Policy.Spec q)) (Policy.Spec p)
  /\ length (PolicySpec.Conditions (Policy.Spec q))
     = length (PolicySpec.Conditions (Policy.Spec p))
  /\ Policy.Meta q
     = ObjectMeta.set_ResourceVersion (ObjectMeta.ResourceVersion (Policy.Meta q))
                                      (Policy.Meta p).

(** The runs of [createPolicy] and of [updatePolicy] on [p]: [c] is the
    remote call they start with, [answer] what the remote system answers
    and [seen] the identifier that a child created in the run is given. *)
Inductive sync_run (c : Call) (answer : option alerts.Policy * error)
    (seen : alerts.Policy -> Z) (p : Policy.t) (w w' : World)
  : outcome (Policy.t * error) -> list Event -> Prop :=
| sync_remote_fails a e :
    answer = (a, Some e) ->
    store w' = store w ->
    sync_run c answer seen p w w' (Done (p, Some e)) [mkEvent c (Some e)]
| sync_panics a msg writes :
    answer = (a, None) ->
    a = None \/ Policy.AppliedSpec p = None
    \/ (exists cond rest,
           PolicySpec.Conditions (Policy.Spec p) = cond :: rest
           /\ NrqlAlertCondition.ResourceVersion cond <> EmptyString) ->
    policies w' = policies w ->
    Forall (fun ev => is_condition_write (call ev) = true) writes ->
    sync_run c answer seen p w w' (Panic msg) (mkEvent c None :: writes)
| sync_condition_fails a q e cond :
    answer = (a, None) ->
    Policy.AppliedSpec p <> None ->
    policies w' = policies w ->
    sync_run c answer seen p w w' (Done (q, Some e))
             [mkEvent c None; mkEvent (ClientCreateCondition cond) (Some e)]
| sync_update_fails a q e writes :
    answer = (a, None) ->
    Policy.AppliedSpec p <> None ->
    policies w' = policies w ->
    Forall (fun ev => is_condition_write (call ev) = true) writes ->
    sync_run c answer seen p w w' (Done (q, Some e))
             (mkEvent c None :: writes ++ [mkEvent (ClientUpdatePolicy q) (Some e)])
| sync_done created q q0 writes :
    answer = (Some created, None) ->
    Policy.AppliedSpec p <> None ->
    policies w' = <[Policy.key p := q]> (policies w) ->
    applied (alerts.ID created) p q ->
    Forall (child_write (seen created)) writes ->
    sync_run c answer seen p w w' (Done (q, None))
             (mkEvent c None :: writes ++ [mkEvent (ClientUpdatePolicy q0) None]).

(** What the remote system answers to the call that follows discovery,
    with history [h]. *)
Definition syncAnswer (r : Reconciler) (q : Policy.t) (h : list Event)
  : option alerts.Policy * error :=
  if Z.eqb (Policy.PolicyID q) 0
  then NewRelicAlertsClient.CreatePolicy (Alerts r) h (PolicySpec_APIPolicy (Policy.Spec q))
  else NewRelicAlertsClient.UpdatePolicy (Alerts r) h
         (alerts.set_ID (Policy.PolicyID q) (PolicySpec_APIPolicy (Policy.Spec q))).

(** The identifier a child created after discovery is given: the one just
    assigned on the create path, the one known before on the update path. *)
Definition syncSeen (q : Policy.t) (answered : alerts.Policy) : Z :=
  if Z.eqb (Policy.PolicyID q) 0 then alerts.ID answered else Policy.PolicyID q.

(** ** Channels and clients *)

(** The channel with the finalizer stripped. *)
Definition strippedChannel (c : AlertsChannel.t) (fin : string) : AlertsChannel.t :=
  AlertsChannel.set_Finalizers (removeString (AlertsChannel.Finalizers c) fin) c.

(** A client that answers a create or an update of a policy with a policy
    or with an error, never with neither. *)
Definition answers_policy (client : NewRelicAlertsClient.t) : Prop :=
  (forall h a, NewRelicAlertsClient.CreatePolicy client h a <> (None, None))
  /\ (forall h a, NewRelicAlertsClient.UpdatePolicy client h a <> (None, None)).

(** The declared conditions that [createOrUpdateConditions] looks at can be
    handled without indexing the recorded ones: the first carries no
    resource version. *)
Definition first_condition_is_new (p : Policy.t) : Prop :=
  forall c rest,
    PolicySpec.Conditions (Policy.Spec p) = c :: rest ->
    NrqlAlertCondition.ResourceVersion c = EmptyString.

(** * Properties of the reconcilers *)

(** ** Traces and logs only grow *)

Lemma new_events_app (w w' : World) (new : list Event) :
  trace w' = trace w ++ new -> new_events w w' = new.
Proof. unfold new_events. intros ->. apply drop_app_length. Qed.

Lemma new_logs_app (w w' : World) (nl : list LogEntry) :
  logged w' = logged w ++ nl -> new_logs w w' = nl.
Proof. unfold new_logs. intros ->. apply drop_app_length. Qed.

Lemma new_events_refl (w w' : World) :
  trace w' = trace w -> new_events w w' = [].
Proof. intros H. apply new_events_app. now rewrite app_nil_r. Qed.

Lemma new_logs_refl (w w' : World) :
  logged w' = logged w -> new_logs w w' = [].
Proof. intros H. apply new_logs_app. now rewrite app_nil_r. Qed.

(** Unfolding the monad and the primitives down to the world. *)
Ltac unfold_go :=
  unfold Client_Update_Condition, Client_Create_Condition,
    Alerts_CreatePolicy, Alerts_UpdatePolicy, Alerts_DeletePolicy,
    Alerts_ListPolicies, Alerts_CreateChannel, Alerts_DeleteChannel,
    deref, index in *;
  unfold remote, store_condition, Log_Info, Log_Error,
    Client_Get_Policy, Client_Get_AlertsChannel, Client_Get_Secret,
    Client_Update_Policy, Client_Update_AlertsChannel,
    Client_Delete_Condition in *;
  unfold bind, ret, panic in *.

Ltac world_simpl :=
  cbn [trace logged policies channels conditions secrets store
       record write_log set_policies set_channels set_conditions fst snd] in *.

Ltac go_cases := repeat (case_match; simplify_eq; world_simpl).

(** C10.  Whatever error the initial fetch of the entity returns, a
    "not found" or any other, [Reconcile] of the policy reconciler and of
    the channel reconciler returns success: the only call is the fetch, the
    store is as before, and one line has been logged. *)
Theorem fetch_error_returns_success (env : Env) (req : NamespacedName.t) (w : World) :
  (forall p e w1,
      Client_Get_Policy env req w = (Done (p, Some e), w1) ->
      exists w',
        PolicyReconciler.Reconcile env req w = (Done None, w')
        /\ store w' = store w
        /\ new_events w w' = [mkEvent (ClientGetPolicy req) (Some e)]
        /\ exists entry, new_logs w w' = [entry])
  /\
  (forall c e w1,
      Client_Get_AlertsChannel env req w = (Done (c, Some e), w1) ->
      exists w',
        AlertsChannelReconciler.Reconcile env req w = (Done None, w')
        /\ store w' = store w
        /\ new_events w w' = [mkEvent (ClientGetChannel req) (Some e)]
        /\ exists entry, new_logs w w' = [entry]).
Proof.
  split.
  - intros p e w1 Hget.
    unfold PolicyReconciler.Reconcile, bind. rewrite Hget.
    unfold Client_Get_Policy in Hget.
    destruct (strings_Contains e " not found");
      unfold_go; eexists; (split; [reflexivity|]);
      repeat case_match; simplify_eq; world_simpl;
      (split; [reflexivity|]); (split; [now apply new_events_app|]);
      eexists; now apply new_logs_app.
  - intros p e w1 Hget.
    unfold AlertsChannelReconciler.Reconcile, bind. rewrite Hget.
    unfold Client_Get_AlertsChannel in Hget.
    destruct (strings_Contains e " not found");
      unfold_go; eexists; (split; [reflexivity|]);
      repeat case_match; simplify_eq; world_simpl;
      (split; [reflexivity|]); (split; [now apply new_events_app|]);
      eexists; now apply new_logs_app.
Qed.

Lemma grows_new_events w w' new nl : grows w w' new nl -> new_events w w' = new.
Proof. intros [H _]. now apply new_events_app. Qed.

Lemma grows_new_logs w w' new nl : grows w w' new nl -> new_logs w w' = nl.
Proof. intros [_ H]. now apply new_logs_app. Qed.

Lemma grows_refl w : grows w w [] [].
Proof. split; now rewrite app_nil_r. Qed.

Lemma grows_trans w w1 w2 new1 nl1 new2 nl2 :
  grows w w1 new1 nl1 -> grows w1 w2 new2 nl2 ->
  grows w w2 (new1 ++ new2) (nl1 ++ nl2).
Proof.
  intros [Ht1 Hl1] [Ht2 Hl2]. split.
  - now rewrite Ht2, Ht1, app_assoc.
  - now rewrite Hl2, Hl1, app_assoc.
Qed.

Lemma grows_record c e w : grows w (record c e w) [mkEvent c e] [].
Proof. split; cbn; [reflexivity | now rewrite app_nil_r]. Qed.

Lemma grows_write_log l w : grows w (write_log l w) [] [l].
Proof. split; cbn; [now rewrite app_nil_r | reflexivity]. Qed.

(** ** The credential resolver *)

Lemma eqb_empty_false (s : string) : s <> EmptyString -> String.eqb s EmptyString = false.
Proof. intros H. now apply String.eqb_neq. Qed.

Lemma policy_resolver_contract env p :
  resolver_contract env (PolicySpec.APIKey (Policy.Spec p))
                    (PolicySpec.APIKeySecret (Policy.Spec p))
                    (PolicyReconciler.getAPIKeyOrSecret env p).
Proof.
  intros w. unfold PolicyReconciler.getAPIKeyOrSecret. repeat split.
  - intros H. now rewrite (eqb_empty_false _ H).
  - intros -> Href s err w1 Hget. cbn [String.eqb negb].
    rewrite bool_decide_eq_false_2 by assumption. cbn [negb].
    unfold bind. fold (secretKey (PolicySpec.APIKeySecret (Policy.Spec p))).
    rewrite Hget. unfold_go.
    repeat case_match; simplify_eq; world_simpl; eexists;
      (split; [try reflexivity | split; [reflexivity | now apply new_events_app]]).
    all: cbn; now rewrite ?lookup_empty.
  - intros -> ->. cbn [String.eqb negb].
    now rewrite bool_decide_eq_true_2.
Qed.

Lemma channel_resolver_contract env c :
  resolver_contract env (AlertsChannelSpec.APIKey (AlertsChannel.Spec c))
                    (AlertsChannelSpec.APIKeySecret (AlertsChannel.Spec c))
                    (AlertsChannelReconciler.getAPIKeyOrSecret env c).
Proof.
  intros w. unfold AlertsChannelReconciler.getAPIKeyOrSecret. repeat split.
  - intros H. now rewrite (eqb_empty_false _ H).
  - intros -> Href s err w1 Hget. cbn [String.eqb negb].
    rewrite bool_decide_eq_false_2 by assumption. cbn [negb].
    unfold bind. fold (secretKey (AlertsChannelSpec.APIKeySecret (AlertsChannel.Spec c))).
    rewrite Hget. unfold_go.
    repeat case_match; simplify_eq; world_simpl; eexists;
      (split; [try reflexivity | split; [reflexivity | now apply new_events_app]]).
  - intros -> ->. cbn [String.eqb negb].
    now rewrite bool_decide_eq_true_2.
Qed.

Lemma quiet_refl w : quiet w w.
Proof. exists [], []. split; [apply grows_refl | repeat split]. Qed.

Lemma remote_calls_app (t1 t2 : list Event) :
  remote_calls (t1 ++ t2) = remote_calls t1 ++ remote_calls t2.
Proof. apply filter_app. Qed.

Lemma store_writes_app (t1 t2 : list Event) :
  store_writes (t1 ++ t2) = store_writes t1 ++ store_writes t2.
Proof. apply filter_app. Qed.

Lemma quiet_trans w w1 w2 : quiet w w1 -> quiet w1 w2 -> quiet w w2.
Proof.
  intros (n1 & l1 & G1 & S1 & R1 & W1) (n2 & l2 & G2 & S2 & R2 & W2).
  exists (n1 ++ n2), (l1 ++ l2). split; [|split; [|split]].
  - apply (grows_trans _ _ _ _ _ _ _ G1 G2).
  - congruence.
  - now rewrite remote_calls_app, R1, R2.
  - now rewrite store_writes_app, W1, W2.
Qed.

Lemma quiet_write_log l w : quiet w (write_log l w).
Proof. exists [], [l]. split; [apply grows_write_log | repeat split]. Qed.

Lemma quiet_read c e w :
  is_remote c = false -> is_store_write c = false -> quiet w (record c e w).
Proof.
  intros Hr Hw. exists [mkEvent c e], []. split; [|split; [|split]].
  - apply grows_record.
  - reflexivity.
  - unfold remote_calls. cbn. rewrite decide_False; [reflexivity | cbn; congruence].
  - unfold store_writes. cbn. rewrite decide_False; [reflexivity | cbn; congruence].
Qed.

(** Peels the log lines and the reads off the final world. *)
Ltac quiet_tac :=
  repeat first
    [ apply quiet_refl
    | assumption
    | eapply quiet_trans; [| apply quiet_write_log]
    | eapply quiet_trans; [| apply quiet_read; reflexivity] ].

Lemma policy_resolver_quiet env p w :
  exists k w', PolicyReconciler.getAPIKeyOrSecret env p w = (Done k, w') /\ quiet w w'.
Proof.
  unfold PolicyReconciler.getAPIKeyOrSecret. unfold_go.
  repeat case_match; simplify_eq; do 2 eexists; (split; [reflexivity|]);
    quiet_tac.
Qed.

Lemma channel_resolver_quiet env c w :
  exists k w', AlertsChannelReconciler.getAPIKeyOrSecret env c w = (Done k, w') /\ quiet w w'.
Proof.
  unfold AlertsChannelReconciler.getAPIKeyOrSecret. unfold_go.
  repeat case_match; simplify_eq; do 2 eexists; (split; [reflexivity|]);
    quiet_tac.
Qed.

(** The resolved key does not depend on what has been logged. *)
Lemma policy_resolver_log env p l w :
  fst (PolicyReconciler.getAPIKeyOrSecret env p (write_log l w))
  = fst (PolicyReconciler.getAPIKeyOrSecret env p w).
Proof.
  unfold PolicyReconciler.getAPIKeyOrSecret. unfold_go. world_simpl.
  go_cases; reflexivity.
Qed.

Lemma channel_resolver_log env c l w :
  fst (AlertsChannelReconciler.getAPIKeyOrSecret env c (write_log l w))
  = fst (AlertsChannelReconciler.getAPIKeyOrSecret env c w).
Proof.
  unfold AlertsChannelReconciler.getAPIKeyOrSecret. unfold_go. world_simpl.
  go_cases; reflexivity.
Qed.

Lemma policy_fetch_quiet env req w x e w1 :
  Client_Get_Policy env req w = (Done (x, e), w1) -> quiet w w1.
Proof.
  unfold Client_Get_Policy. intros H.
  repeat case_match; simplify_eq; now apply quiet_read.
Qed.

Lemma channel_fetch_quiet env req w x e w1 :
  Client_Get_AlertsChannel env req w = (Done (x, e), w1) -> quiet w w1.
Proof.
  unfold Client_Get_AlertsChannel. intros H.
  repeat case_match; simplify_eq; now apply quiet_read.
Qed.

Lemma quiet_facts w w' :
  quiet w w' ->
  store w' = store w
  /\ remote_calls (new_events w w') = [] /\ store_writes (new_events w w') = [].
Proof.
  intros (new & nl & G & S & R & W).
  rewrite (grows_new_events _ _ _ _ G). auto.
Qed.

Lemma policy_blank_key_is_fatal env req :
  blank_key_is_fatal (Client_Get_Policy env req)
                     (PolicyReconciler.getAPIKeyOrSecret env)
                     (PolicyReconciler.Reconcile env req).
Proof.
  intros w x w1 Hget Hkey.
  unfold PolicyReconciler.Reconcile. unfold bind at 1. rewrite Hget.
  set (w2 := write_log (LogInfo "policy spec")
               (write_log (LogInfo "Starting reconcile action") w1)).
  destruct (policy_resolver_quiet env x w2) as (k & w3 & Hres & Hq).
  assert (k = EmptyString) as ->.
  { pose proof (f_equal fst Hres) as Hk. unfold w2 in Hk.
    rewrite !policy_resolver_log, Hkey in Hk. cbn in Hk. congruence. }
  exists w3. split.
  - unfold bind, Log_Info. fold w2. rewrite Hres. reflexivity.
  - apply quiet_facts.
    eapply quiet_trans; [eapply policy_fetch_quiet; eassumption|].
    eapply quiet_trans; [|exact Hq].
    unfold w2. quiet_tac.
Qed.

Lemma channel_blank_key_is_fatal env req :
  blank_key_is_fatal (Client_Get_AlertsChannel env req)
                     (AlertsChannelReconciler.getAPIKeyOrSecret env)
                     (AlertsChannelReconciler.Reconcile env req).
Proof.
  intros w x w1 Hget Hkey.
  unfold AlertsChannelReconciler.Reconcile. unfold bind at 1. rewrite Hget.
  set (w2 := write_log (LogInfo "alertsChannel")
               (write_log (LogInfo "Starting reconcile action") w1)).
  destruct (channel_resolver_quiet env x w2) as (k & w3 & Hres & Hq).
  assert (k = EmptyString) as ->.
  { pose proof (f_equal fst Hres) as Hk. unfold w2 in Hk.
    rewrite !channel_resolver_log, Hkey in Hk. cbn in Hk. congruence. }
  exists w3. split.
  - unfold bind, Log_Info. fold w2. rewrite Hres. reflexivity.
  - apply quiet_facts.
    eapply quiet_trans; [eapply channel_fetch_quiet; eassumption|].
    eapply quiet_trans; [|exact Hq].
    unfold w2. quiet_tac.
Qed.

(** C9.  The credential resolver of either reconciler returns the inline
    key when it is set; otherwise, with a secret reference, it fetches the
    secret and returns the named field, or the empty string when the fetch
    fails; with neither it returns the empty string.  And when the key
    resolves to the empty string, [Reconcile] fails with "api key is blank",
    having called nothing remote and written nothing to the store. *)
Theorem credential_resolver_contract (env : Env) :
  (forall p : Policy.t,
      resolver_contract env (PolicySpec.APIKey (Policy.Spec p))
                        (PolicySpec.APIKeySecret (Policy.Spec p))
                        (PolicyReconciler.getAPIKeyOrSecret env p))
  /\ (forall c : AlertsChannel.t,
         resolver_contract env (AlertsChannelSpec.APIKey (AlertsChannel.Spec c))
                           (AlertsChannelSpec.APIKeySecret (AlertsChannel.Spec c))
                           (AlertsChannelReconciler.getAPIKeyOrSecret env c))
  /\ (forall req,
         blank_key_is_fatal (Client_Get_Policy env req)
                            (PolicyReconciler.getAPIKeyOrSecret env)
                            (PolicyReconciler.Reconcile env req))
  /\ (forall req,
         blank_key_is_fatal (Client_Get_AlertsChannel env req)
                            (AlertsChannelReconciler.getAPIKeyOrSecret env)
                            (AlertsChannelReconciler.Reconcile env req)).
Proof.
  repeat split.
  - apply policy_resolver_contract.
  - apply policy_resolver_contract.
  - apply policy_resolver_contract.
  - apply channel_resolver_contract.
  - apply channel_resolver_contract.
  - apply channel_resolver_contract.
  - apply policy_blank_key_is_fatal.
  - apply channel_blank_key_is_fatal.
Qed.

(** ** Convergence *)

(** Repeating a reconciliation that is quiet on every world satisfying
    [I], and keeps [I], is quiet; every result satisfies [R]. *)
Lemma Reconcile_n_quiet (reconcile : M error) (I : World -> Prop)
    (R : outcome error -> Prop) :
  (forall w, I w ->
     exists r w', reconcile w = (r, w') /\ quiet w w' /\ I w' /\ R r) ->
  forall n w, I w ->
    quiet w (snd (Reconcile_n reconcile n w))
    /\ Forall R (fst (Reconcile_n reconcile n w)).
Proof.
  intros Hstep n. induction n as [|n IH]; intros w Hw; cbn.
  - split; [apply quiet_refl | constructor].
  - destruct (Hstep w Hw) as (r & w1 & Hrun & Hq & Hw1 & Hr).
    rewrite Hrun. destruct (IH w1 Hw1) as [Hq' Hrs].
    destruct (Reconcile_n reconcile n w1) as [rs w2]. cbn in *.
    split; [eapply quiet_trans; eassumption | now constructor].
Qed.

Lemma Reconcile_n_length reconcile n w : length (fst (Reconcile_n reconcile n w)) = n.
Proof.
  revert w. induction n as [|n IH]; intros w; cbn; [reflexivity|].
  destruct (reconcile w) as [r w1]. specialize (IH w1).
  destruct (Reconcile_n reconcile n w1). cbn in *. now rewrite IH.
Qed.

Lemma storedKey_quiet apiKey ref w w' :
  quiet w w' -> storedKey apiKey ref w' = storedKey apiKey ref w.
Proof.
  intros (new & nl & _ & Hs & _). unfold store in Hs. unfold storedKey.
  assert (secrets w' = secrets w) as -> by congruence. reflexivity.
Qed.

(** What a resolver that keeps the contract returns: the key held by the
    store, or the empty string because the read of the secret failed. *)
Lemma resolved_key env apiKey ref resolve w k w' :
  resolver_contract env apiKey ref resolve ->
  resolve w = (Done k, w') ->
  k = storedKey apiKey ref w
  \/ (k = EmptyString
      /\ exists e, apiKey = EmptyString
                   /\ storeFault env (trace w) (ClientGetSecret (secretKey ref)) = Some e).
Proof.
  intros Hcontract Hrun. destruct (Hcontract w) as (Hinline & Hsecret & Hnone).
  unfold storedKey.
  destruct (String.eqb apiKey EmptyString) eqn:Hk; cbn [negb].
  - apply String.eqb_eq in Hk.
    destruct (decide (ref = NewRelicAPIKeySecret.zero)) as [Hz|Hz].
    + rewrite bool_decide_eq_true_2 by assumption. cbn [negb].
      rewrite (Hnone Hk Hz) in Hrun. left. congruence.
    + rewrite bool_decide_eq_false_2 by assumption. cbn [negb].
      destruct (Client_Get_Secret env (secretKey ref) w) as [[[s err]|msg] w1] eqn:Hget.
      * destruct (Hsecret Hk Hz s err w1 eq_refl) as (w2 & Hres & _).
        rewrite Hres in Hrun. injection Hrun as <- _.
        unfold Client_Get_Secret in Hget.
        destruct (storeFault env (trace w) (ClientGetSecret (secretKey ref)))
          as [e|] eqn:Hfault.
        -- injection Hget as <- <- _. right. split; [reflexivity|]. eauto.
        -- destruct (secrets w !! secretKey ref) as [s0|];
             injection Hget as <- <- _; now left.
      * unfold Client_Get_Secret in Hget. repeat case_match; discriminate.
  - left. apply String.eqb_neq in Hk. rewrite (Hinline Hk) in Hrun. congruence.
Qed.

(** The result of [Reconcile] once the key [k] has been resolved in [w2],
    a world that follows [w] quietly, when the lifecycle of the converged
    entity returns success. *)
Lemma converged_after_resolution env apiKey ref region resolve w w2 k w3 :
  resolver_contract env apiKey ref resolve ->
  quiet w w2 ->
  resolve w2 = (Done k, w3) ->
  let r := if String.eqb k EmptyString then Done (Some apiKeyBlank)
           else match AlertClientFunc env (trace w3) k region with
                | inl _ => Done None
                | inr e => Done (Some e)
                end in
  converged_result env apiKey ref region w r
  /\ (key_and_client env apiKey ref region w -> r = Done None).
Proof.
  intros Hcontract Hq Hres r. subst r.
  pose proof (resolved_key _ _ _ _ _ _ _ Hcontract Hres) as Hkey.
  rewrite (storedKey_quiet _ _ _ _ Hq) in Hkey.
  destruct (String.eqb k EmptyString) eqn:Hk.
  - apply String.eqb_eq in Hk. subst k. split.
    + right. left. split; [reflexivity|].
      destruct Hkey as [Hkey | [_ (e & Hblank & Hfault)]]; [now left | right; eauto].
    + intros [Hread [Hne _]]. exfalso.
      destruct Hkey as [Hkey | [_ (e & Hblank & Hfault)]]; [congruence|].
      rewrite (Hread Hblank) in Hfault. discriminate.
  - apply String.eqb_neq in Hk.
    destruct Hkey as [-> | [Hkey _]]; [|congruence].
    destruct (AlertClientFunc env (trace w3) (storedKey apiKey ref w) region)
      as [client|e] eqn:Hfactory.
    + split; [now left | reflexivity].
    + split; [right; right; eauto|].
      intros [_ [_ Hok]]. exfalso. eapply Hok; eassumption.
Qed.

Lemma policy_converged_step env req p w :
  policies w !! req = Some p ->
  ObjectMeta.DeletionTimestamp_IsZero (Policy.Meta p) = true ->
  Policy.AppliedSpec p = Some (Policy.Spec p) ->
  exists r w',
    PolicyReconciler.Reconcile env req w = (r, w') /\ quiet w w'
    /\ policies w' !! req = Some p
    /\ converged_result env (PolicySpec.APIKey (Policy.Spec p))
         (PolicySpec.APIKeySecret (Policy.Spec p)) (PolicySpec.Region (Policy.Spec p)) w r
    /\ (key_and_client env (PolicySpec.APIKey (Policy.Spec p))
          (PolicySpec.APIKeySecret (Policy.Spec p)) (PolicySpec.Region (Policy.Spec p)) w ->
        r = Done None).
Proof.
  intros Hp Hdel Happlied.
  assert (Hstore : forall w', quiet w w' -> policies w' !! req = Some p).
  { intros w' (new & nl & _ & Hs & _). unfold store in Hs. simplify_eq. congruence. }
  unfold PolicyReconciler.Reconcile. unfold bind at 1.
  destruct (Client_Get_Policy env req w) as [[[x [e|]]|msg] w1] eqn:Hget.
  - (* the fetch fails *)
    pose proof (policy_fetch_quiet _ _ _ _ _ _ Hget) as Hq.
    destruct (strings_Contains e " not found"); unfold_go;
      do 2 eexists; (split; [reflexivity|]);
      (split; [quiet_tac|]); (split; [apply Hstore; quiet_tac|]);
      (split; [now left | reflexivity]).
  - (* the policy is fetched *)
    pose proof (policy_fetch_quiet _ _ _ _ _ _ Hget) as Hq.
    assert (x = p) as ->.
    { unfold Client_Get_Policy in Hget. rewrite Hp in Hget.
      destruct (storeFault env (trace w) (ClientGetPolicy req)); congruence. }
    unfold bind, Log_Info.
    set (w2 := write_log (LogInfo "policy spec")
                 (write_log (LogInfo "Starting reconcile action") w1)).
    assert (Hq2 : quiet w w2) by (unfold w2; quiet_tac).
    destruct (policy_resolver_quiet env p w2) as (k & w3 & Hres & Hq3).
    pose proof (quiet_trans _ _ _ Hq2 Hq3) as Hq'.
    pose proof (converged_after_resolution env _ _ (PolicySpec.Region (Policy.Spec p))
                  _ w w2 k w3 (policy_resolver_contract env p) Hq2 Hres) as Hresult.
    cbv zeta in Hresult.
    rewrite Hres.
    destruct (String.eqb k EmptyString) eqn:Hk.
    + (* blank key *)
      do 2 eexists; (split; [reflexivity|]). repeat split; auto; apply Hresult.
    + destruct (AlertClientFunc env (trace w3) k (PolicySpec.Region (Policy.Spec p)))
        as [client|e] eqn:Hfactory.
      * (* the lifecycle: neither deleting nor changed *)
        unfold PolicyReconciler.Reconcile_lifecycle. rewrite Hdel.
        assert (Hconv : forall q : Policy.t,
                   Policy.Spec q = Policy.Spec p -> Policy.AppliedSpec q = Policy.AppliedSpec p ->
                   DeepEqual (Some (Policy.Spec q)) (Policy.AppliedSpec q) = true).
        { intros q -> ->. rewrite Happlied. now apply bool_decide_eq_true_2. }
        rewrite Hconv by (now destruct (negb _)).
        do 2 eexists; (split; [reflexivity|]). repeat split; auto; apply Hresult.
      * (* the factory fails *)
        unfold_go. do 2 eexists; (split; [reflexivity|]).
        split; [quiet_tac|]. split; [apply Hstore; quiet_tac|]. exact Hresult.
  - (* a fetch does not panic *)
    unfold Client_Get_Policy in Hget. repeat case_match; simplify_eq.
Qed.

Lemma channel_converged_step env req c w :
  channels w !! req = Some c ->
  ObjectMeta.DeletionTimestamp_IsZero (AlertsChannel.Meta c) = true ->
  AlertsChannel.AppliedSpec c = Some (AlertsChannel.Spec c) ->
  exists r w',
    AlertsChannelReconciler.Reconcile env req w = (r, w') /\ quiet w w'
    /\ channels w' !! req = Some c
    /\ converged_result env (AlertsChannelSpec.APIKey (AlertsChannel.Spec c))
         (AlertsChannelSpec.APIKeySecret (AlertsChannel.Spec c))
         (AlertsChannelSpec.Region (AlertsChannel.Spec c)) w r
    /\ (key_and_client env (AlertsChannelSpec.APIKey (AlertsChannel.Spec c))
          (AlertsChannelSpec.APIKeySecret (AlertsChannel.Spec c))
          (AlertsChannelSpec.Region (AlertsChannel.Spec c)) w ->
        r = Done None).
Proof.
  intros Hc Hdel Happlied.
  assert (Hstore : forall w', quiet w w' -> channels w' !! req = Some c).
  { intros w' (new & nl & _ & Hs & _). unfold store in Hs. simplify_eq. congruence. }
  unfold AlertsChannelReconciler.Reconcile. unfold bind at 1.
  destruct (Client_Get_AlertsChannel env req w) as [[[x [e|]]|msg] w1] eqn:Hget.
  - pose proof (channel_fetch_quiet _ _ _ _ _ _ Hget) as Hq.
    destruct (strings_Contains e " not found"); unfold_go;
      do 2 eexists; (split; [reflexivity|]);
      (split; [quiet_tac|]); (split; [apply Hstore; quiet_tac|]);
      (split; [now left | reflexivity]).
  - pose proof (channel_fetch_quiet _ _ _ _ _ _ Hget) as Hq.
    assert (x = c) as ->.
    { unfold Client_Get_AlertsChannel in Hget. rewrite Hc in Hget.
      destruct (storeFault env (trace w) (ClientGetChannel req)); congruence. }
    unfold bind, Log_Info.
    set (w2 := write_log (LogInfo "alertsChannel")
                 (write_log (LogInfo "Starting reconcile action") w1)).
    assert (Hq2 : quiet w w2) by (unfold w2; quiet_tac).
    destruct (channel_resolver_quiet env c w2) as (k & w3 & Hres & Hq3).
    pose proof (quiet_trans _ _ _ Hq2 Hq3) as Hq'.
    pose proof (converged_after_resolution env _ _
                  (AlertsChannelSpec.Region (AlertsChannel.Spec c))
                  _ w w2 k w3 (channel_resolver_contract env c) Hq2 Hres) as Hresult.
    cbv zeta in Hresult.
    rewrite Hres.
    destruct (String.eqb k EmptyString) eqn:Hk.
    + do 2 eexists; (split; [reflexivity|]). repeat split; auto; apply Hresult.
    + destruct (AlertClientFunc env (trace w3) k
                  (AlertsChannelSpec.Region (AlertsChannel.Spec c)))
        as [client|e] eqn:Hfactory.
      * unfold AlertsChannelReconciler.Reconcile_lifecycle,
          AlertsChannelReconciler.Reconcile_sync. rewrite Hdel.
        assert (Hconv : forall q : AlertsChannel.t,
                   AlertsChannel.Spec q = AlertsChannel.Spec c ->
                   AlertsChannel.AppliedSpec q = AlertsChannel.AppliedSpec c ->
                   DeepEqual (Some (AlertsChannel.Spec q)) (AlertsChannel.AppliedSpec q) = true).
        { intros q -> ->. rewrite Happlied. now apply bool_decide_eq_true_2. }
        rewrite Hconv by (now destruct (negb _)).
        do 2 eexists; (split; [reflexivity|]). repeat split; auto; apply Hresult.
      * unfold_go. do 2 eexists; (split; [reflexivity|]).
        split; [quiet_tac|]. split; [apply Hstore; quiet_tac|]. exact Hresult.
  - unfold Client_Get_AlertsChannel in Hget. repeat case_match; simplify_eq.
Qed.

Lemma converged_noop_intro env reconcile apiKey ref region (I : World -> Prop) w :
  (forall w0, I w0 ->
     exists r w', reconcile w0 = (r, w') /\ quiet w0 w' /\ I w'
       /\ converged_result env apiKey ref region w0 r
       /\ (key_and_client env apiKey ref region w0 -> r = Done None)) ->
  I w -> converged_noop env reconcile apiKey ref region w.
Proof.
  intros Hstep Hw n. cbv zeta.
  destruct (Reconcile_n_quiet reconcile
              (fun w0 => I w0 /\ quiet w w0)
              (fun r => converged_result env apiKey ref region w r
                        /\ (key_and_client env apiKey ref region w -> r = Done None)))
    with (n := n) (w := w) as [Hq Hrs].
  - intros w0 [Hw0 Hq0].
    destruct (Hstep w0 Hw0) as (r & w' & Hrun & Hq1 & Hw' & Hr & Hok).
    exists r, w'. split; [exact Hrun|]. split; [exact Hq1|].
    split; [split; [exact Hw' | eapply quiet_trans; eassumption]|].
    unfold converged_result, key_and_client in *.
    rewrite (storedKey_quiet _ _ _ _ Hq0) in Hr, Hok. split; assumption.
  - split; [exact Hw | apply quiet_refl].
  - destruct (quiet_facts _ _ Hq) as (Hs & Hr & Hwr).
    split; [apply Reconcile_n_length|].
    repeat split; auto.
    + eapply Forall_impl; [exact Hrs|]. now intros r [H _].
    + intros Hb. eapply Forall_impl; [exact Hrs|]. intros r [_ H]. now apply H.
Qed.

(** C1 (amended).  For a policy, and for a channel, whose deletion timestamp
    is unset and whose [Status.AppliedSpec] equals its [Spec], any number of
    invocations of [Reconcile] in a row call nothing on the remote alerting
    API and write nothing to the store.  Every invocation returns success
    when the credentials resolve: the key, inline or held by the referred
    secret, is not empty, the secret can be read, and the client factory
    builds a client for the key.  An invocation that does not return
    success returns the "api key is blank" error, and then the store holds
    no key or the read of the secret failed, or the error with which the
    client factory refused the key. *)
Theorem converged_reconcile_is_noop (env : Env) (req : NamespacedName.t) (w : World) :
  (forall p : Policy.t,
      policies w !! req = Some p ->
      ObjectMeta.DeletionTimestamp_IsZero (Policy.Meta p) = true ->
      Policy.AppliedSpec p = Some (Policy.Spec p) ->
      converged_noop env (PolicyReconciler.Reconcile env req)
                     (PolicySpec.APIKey (Policy.Spec p))
                     (PolicySpec.APIKeySecret (Policy.Spec p))
                     (PolicySpec.Region (Policy.Spec p)) w)
  /\ (forall c : AlertsChannel.t,
         channels w !! req = Some c ->
         ObjectMeta.DeletionTimestamp_IsZero (AlertsChannel.Meta c) = true ->
         AlertsChannel.AppliedSpec c = Some (AlertsChannel.Spec c) ->
         converged_noop env (AlertsChannelReconciler.Reconcile env req)
                        (AlertsChannelSpec.APIKey (AlertsChannel.Spec c))
                        (AlertsChannelSpec.APIKeySecret (AlertsChannel.Spec c))
                        (AlertsChannelSpec.Region (AlertsChannel.Spec c)) w).
Proof.
  split.
  - intros p Hp Hdel Happlied.
    apply (converged_noop_intro _ _ _ _ _ (fun w => policies w !! req = Some p)); [|exact Hp].
    intros w0 Hw0. now apply policy_converged_step.
  - intros c Hc Hdel Happlied.
    apply (converged_noop_intro _ _ _ _ _ (fun w => channels w !! req = Some c)); [|exact Hc].
    intros w0 Hw0. now apply channel_converged_step.
Qed.

(** ** The deletion protocol *)

Lemma same_entities_refl w : same_entities w w.
Proof. repeat split. Qed.

Lemma same_entities_trans w w1 w2 :
  same_entities w w1 -> same_entities w1 w2 -> same_entities w w2.
Proof. intros (?&?&?) (?&?&?). repeat split; congruence. Qed.

(** Closes [grows w w' new nl] for an explicit [w']. *)
Ltac grows_tac :=
  split; world_simpl; rewrite <- ?app_assoc; cbn [app map];
  first [reflexivity | symmetry; apply app_nil_r].

(** The loop of [deletePolicy]: either every recorded condition is deleted,
    or the loop returns at the first delete that fails. *)
Lemma deletePolicy_loop env (conds : list NrqlAlertCondition.t) :
  forall i w,
  exists res w' nl,
    for_range (PolicyReconciler.deletePolicy_body env) i conds tt w = (Done (tt, res), w')
    /\ same_entities w w'
    /\ ((res = None /\ grows w w' (map okDelete conds) nl)
        \/ (exists pre c post e,
               conds = pre ++ c :: post /\ res = Some e
               /\ grows w w' (map okDelete pre ++ [failedDelete c e]) nl
               /\ exists msg, LogError (Some e) msg ∈ nl)).
Proof.
  induction conds as [|c rest IH]; intros i w.
  - exists None, w, []. split; [reflexivity|]. split; [apply same_entities_refl|].
    left. split; [reflexivity | apply grows_refl].
  - cbn [for_range]. unfold bind at 1.
    unfold PolicyReconciler.deletePolicy_body at 1, PolicyReconciler.deleteCondition.
    unfold_go. world_simpl.
    destruct (storeFault env (trace w) (ClientDeleteCondition c)) as [e|] eqn:Hfault.
    + (* this delete fails: the loop returns *)
      do 3 eexists. split; [reflexivity|]. split; [repeat split|].
      right. exists [], c, rest, e.
      split; [reflexivity|]. split; [reflexivity|]. split; [grows_tac|].
      eexists. rewrite !elem_of_cons. right. left. reflexivity.
    + (* it succeeds: the loop goes on *)
      match goal with
      | |- context [for_range _ _ rest tt ?w1] =>
          destruct (IH (Datatypes.S i) w1) as (res & w' & nl & Hrun & Hsame & Hcases);
          assert (Hstep : grows w w1 [okDelete c] [LogInfo "Deleting condition"])
            by grows_tac;
          assert (Hsame1 : same_entities w w1) by (repeat split)
      end.
      rewrite Hrun. do 3 eexists. split; [reflexivity|].
      split; [eapply same_entities_trans; eassumption|].
      destruct Hcases as [[-> Hg] | (pre & c' & post & e & -> & -> & Hg & msg & Hlog)].
      * left. split; [reflexivity|].
        apply (grows_trans _ _ _ _ _ _ _ Hstep Hg).
      * right. exists (c :: pre), c', post, e.
        split; [reflexivity|]. split; [reflexivity|]. split.
        -- apply (grows_trans _ _ _ _ _ _ _ Hstep Hg).
        -- exists msg. apply elem_of_app. now right.
Qed.

Lemma deletePolicy_runs env r p fin w :
  containsString (Policy.Finalizers p) fin = true ->
  Policy.PolicyID p <> 0 ->
  exists res w' new nl,
    PolicyReconciler.deletePolicy env r p fin w = (res, w')
    /\ grows w w' new nl
    /\ deletion_run p fin w w' res new nl.
Proof.
  intros Hfin Hid. unfold PolicyReconciler.deletePolicy.
  rewrite Hfin. apply Z.eqb_neq in Hid. rewrite Hid.
  destruct (Policy.AppliedSpec p) as [applied|] eqn:Happlied.
  - unfold bind at 1. unfold deref at 1, ret at 1. unfold bind at 1.
    destruct (deletePolicy_loop env (PolicySpec.Conditions applied) 0%nat w)
      as (res & w1 & nl1 & Hrun & (Hpol & _) & Hcases).
    rewrite Hrun.
    assert (Hrec : recordedConditions p = PolicySpec.Conditions applied)
      by (unfold recordedConditions; now rewrite Happlied).
    destruct Hcases as [[-> Hg] | (pre & c & post & e & Hsplit & -> & Hg & Hlog)].
    + (* all the conditions are gone: the remote delete *)
      rewrite <- Hrec in Hg.
      unfold PolicyReconciler.deleteNewRelicAlertPolicy. unfold_go. world_simpl.
      destruct (NewRelicAlertsClient.DeletePolicy (Alerts r) (trace w1) (Policy.PolicyID p))
        as [deleted [e|]] eqn:Hdel; world_simpl.
      * do 4 eexists. split; [reflexivity|]. split.
        -- eapply grows_trans; [exact Hg | grows_tac].
        -- apply deletion_remote_fails; [assumption|].
           eexists. apply elem_of_app. right.
           rewrite !elem_of_cons. right. left. reflexivity.
      * match goal with
        | |- context [storeFault env ?h ?c] => destruct (storeFault env h c) as [e|] eqn:Hupd
        end; world_simpl.
        -- do 4 eexists. split; [reflexivity|]. split.
           ++ eapply grows_trans; [exact Hg | grows_tac].
           ++ apply deletion_update_fails; [assumption|].
              eexists. apply elem_of_app. right.
              rewrite !elem_of_cons. right. right. left. reflexivity.
        -- do 4 eexists. split; [reflexivity|]. split.
           ++ eapply grows_trans; [exact Hg | grows_tac].
           ++ apply deletion_done; world_simpl; [now rewrite Hpol | reflexivity].
    + (* a condition could not be deleted *)
      unfold ret. do 4 eexists. split; [reflexivity|]. split; [exact Hg|].
      eapply deletion_child_fails; [rewrite Hrec; exact Hsplit | assumption | assumption].
  - unfold_go. do 4 eexists. split; [reflexivity|]. split; [apply grows_refl|].
    now apply deletion_panics.
Qed.

Lemma elem_of_okDelete (ev : Event) (l : list NrqlAlertCondition.t) :
  ev ∈ map okDelete l -> exists c, ev = okDelete c.
Proof.
  intros H. apply list_elem_of_In, in_map_iff in H.
  destruct H as (c & <- & _). now exists c.
Qed.

(** Membership in an explicit trace, down to equations on the event. *)
Ltac elem_cases H :=
  repeat (rewrite ?elem_of_app, ?elem_of_cons, ?elem_of_nil in H;
          match type of H with
          | _ \/ _ => destruct H as [H|H]
          | False => destruct H
          | _ ∈ map okDelete _ =>
              let c := fresh "c" in apply elem_of_okDelete in H; destruct H as [c H]
          end).

Lemma deletion_run_ordering p fin w w' res new nl :
  deletion_run p fin w w' res new nl ->
  children_before_parent p new
  /\ finalizer_after_remote_delete p fin w w' new
  /\ first_child_error_aborts p w w'
       (match res with Done (_, err) => Done err | Panic msg => Panic msg end) new.
Proof.
  unfold children_before_parent, finalizer_after_remote_delete,
    first_child_error_aborts, failedDelete, remoteDelete.
  intros Hrun. destruct Hrun; unfold failedDelete, remoteDelete in *.
  - (* panic *)
    repeat split; try (intros; exfalso; eapply elem_of_nil; eassumption).
    now left.
  - (* a child fails *)
    split; [|split; [split|]].
    + intros ev id Hin Hcall. elem_cases Hin; subst; discriminate.
    + intros ev q Hin Hcall. elem_cases Hin; subst; discriminate.
    + now left.
    + intros c0 e0 Hin. elem_cases Hin; unfold okDelete in *; simplify_eq.
      eauto 10.
  - (* the remote delete fails *)
    split; [|split; [split|]].
    + intros ev id Hin Hcall. elem_cases Hin; subst; try discriminate. now exists [].
    + intros ev q Hin Hcall. elem_cases Hin; subst; discriminate.
    + now left.
    + intros c0 e0 Hin. elem_cases Hin; unfold okDelete in *; simplify_eq.
  - (* the store update fails *)
    split; [|split; [split|]].
    + intros ev id Hin Hcall. elem_cases Hin; subst; try discriminate. eauto.
    + intros ev q Hin Hcall. elem_cases Hin; subst; try discriminate.
      cbn in Hcall. simplify_eq. split; [reflexivity|]. eauto.
    + now left.
    + intros c0 e0 Hin. elem_cases Hin; unfold okDelete in *; simplify_eq.
  - (* success *)
    split; [|split; [split|]].
    + intros ev id Hin Hcall. elem_cases Hin; subst; try discriminate. eauto.
    + intros ev q0 Hin Hcall. elem_cases Hin; subst; try discriminate.
      cbn in Hcall. simplify_eq. split; [reflexivity|]. eauto.
    + right. apply elem_of_app. right. apply list_elem_of_here.
    + intros c0 e0 Hin. elem_cases Hin; unfold okDelete in *; simplify_eq.
Qed.

(** C4.  Deletion ordering.  For a policy with the deletion timestamp set,
    the finalizer present and a remote identifier, the invocation runs the
    deletion protocol: unless [Status.AppliedSpec] is nil, and then it
    panics before any call, it deletes the conditions recorded in
    [Status.AppliedSpec] one after the other, then deletes the policy
    remotely, then writes the policy to the store with the finalizer
    stripped, and it stops at the first of these calls that fails, returning
    its error and leaving the stored policy as it was; its calls are these
    and no others.  Hence a remote delete of the policy is preceded by a
    successful delete of every recorded condition; the policy is written to
    the store, finalizer stripped, only right after a successful remote
    delete; and the first failing delete of a condition ends the run, its
    error is the error of the invocation, and the stored policy is
    untouched. *)
Theorem deletion_ordering (env : Env) (r : Reconciler) (p : Policy.t)
    (w w' : World) (res : outcome error) :
  ObjectMeta.DeletionTimestamp_IsZero (Policy.Meta p) = false ->
  containsString (Policy.Finalizers p) PolicyReconciler.policyFinalizer = true ->
  Policy.PolicyID p <> 0 ->
  PolicyReconciler.Reconcile_lifecycle env r p w = (res, w') ->
  (exists res0 nl,
      res = error_of res0
      /\ deletion_run p PolicyReconciler.policyFinalizer w w' res0 (new_events w w') nl)
  /\ children_before_parent p (new_events w w')
  /\ finalizer_after_remote_delete p PolicyReconciler.policyFinalizer w w' (new_events w w')
  /\ first_child_error_aborts p w w' res (new_events w w').
Proof.
  intros Hdel Hfin Hid Hrun.
  unfold PolicyReconciler.Reconcile_lifecycle in Hrun. rewrite Hdel in Hrun.
  destruct (deletePolicy_runs env r p PolicyReconciler.policyFinalizer w Hfin Hid)
    as (res0 & w0 & new & nl & Hdelete & Hg & Hshape).
  unfold bind in Hrun. rewrite Hdelete in Hrun.
  assert (w' = w0 /\ res = error_of res0) as [-> ->].
  { destruct res0 as [[q err]|msg]; unfold ret in Hrun; now simplify_eq. }
  rewrite (grows_new_events _ _ _ _ Hg).
  split; [now exists res0, nl|].
  now apply deletion_run_ordering in Hshape.
Qed.

(** ** The create and update paths *)

(** [createOrUpdateConditions] issues at most one call, a write of a
    condition resource: its loop returns at the end of the first iteration. *)
Lemma createOrUpdateConditions_frame env r p w :
  exists res w' new nl,
    PolicyReconciler.createOrUpdateConditions env r p w = (res, w')
    /\ grows w w' new nl
    /\ same_entities w w'
    /\ Forall (fun ev => is_condition_write (call ev) = true) new
    /\ (length new <= 1)%nat.
Proof.
  unfold PolicyReconciler.createOrUpdateConditions.
  destruct (Policy.AppliedSpec p) as [applied|] eqn:Happlied; unfold_go.
  2: { do 4 eexists. split; [reflexivity|]. split; [apply grows_refl|].
       repeat split; auto. }
  case_match.
  { do 4 eexists. split; [reflexivity|]. split; [grows_tac|]. repeat split; auto. }
  destruct (PolicySpec.Conditions (Policy.Spec p)) as [|c rest]; cbn [for_range].
  { unfold_go. do 4 eexists. split; [reflexivity|]. split; [apply grows_refl|].
    repeat split; auto. }
  unfold PolicyReconciler.createOrUpdateConditions_body,
    PolicyReconciler.createCondition.
  unfold_go. world_simpl. rewrite ?Happlied.
  go_cases;
    do 4 eexists; (split; [reflexivity|]); (split; [grows_tac|]);
    (split; [repeat split|]); (split; [repeat constructor | cbn; lia]).
Qed.

Lemma condition_write_not_remote (new : list Event) :
  Forall (fun ev => is_condition_write (call ev) = true) new ->
  Forall (fun ev => is_remote (call ev) = false) new.
Proof.
  intros H. eapply Forall_impl; [exact H|].
  intros [c e]. cbn. now destruct c.
Qed.

Lemma createPolicy_runs env r p w :
  exists res w' new nl,
    PolicyReconciler.createPolicy env r p w = (res, w')
    /\ grows w w' new nl
    /\ remote_step_run (AlertsCreatePolicy (PolicySpec_APIPolicy (Policy.Spec p)))
                       p w w' res new nl.
Proof.
  unfold PolicyReconciler.createPolicy.
  unfold bind at 1, Log_Info at 1. unfold bind at 1.
  unfold Alerts_CreatePolicy, remote. world_simpl.
  destruct (NewRelicAlertsClient.CreatePolicy (Alerts r) (trace w)
              (PolicySpec_APIPolicy (Policy.Spec p))) as [created [e|]] eqn:Hcreate;
    world_simpl.
  - unfold_go. do 4 eexists. split; [reflexivity|]. split; [grows_tac|].
    apply remote_step_fails; [reflexivity|].
    eexists. rewrite !elem_of_cons. right. left. reflexivity.
  - destruct created as [created|].
    2: { unfold_go. do 4 eexists. split; [reflexivity|]. split; [grows_tac|].
         apply remote_step_passes. constructor. }
    unfold bind at 1, deref, ret at 1. unfold bind at 1.
    match goal with
    | |- context [PolicyReconciler.createOrUpdateConditions env r ?q ?w1] =>
        destruct (createOrUpdateConditions_frame env r q w1)
          as (res1 & w2 & new1 & nl1 & Hrun & Hg & _ & Hwrites & _);
        assert (Hg0 : grows w w1 [mkEvent (AlertsCreatePolicy
                                             (PolicySpec_APIPolicy (Policy.Spec p))) None]
                            [LogInfo "Creating policy"]) by grows_tac
    end.
    rewrite Hrun. apply condition_write_not_remote in Hwrites.
    pose proof (grows_trans _ _ _ _ _ _ _ Hg0 Hg) as Hg1.
    destruct res1 as [[q [e|]]|msg]; unfold_go; world_simpl.
    + do 4 eexists. split; [reflexivity|]. split.
      * eapply grows_trans; [exact Hg1 | grows_tac].
      * cbn [app]. apply remote_step_passes. now rewrite app_nil_r.
    + match goal with
      | |- context [storeFault env ?h ?c] => destruct (storeFault env h c) as [e|]
      end; world_simpl;
        do 4 eexists; (split; [reflexivity|]);
        (split; [eapply grows_trans; [exact Hg1 | grows_tac]|]);
        cbn [app]; apply remote_step_passes;
        (apply Forall_app; split; [assumption | repeat constructor]).
    + do 4 eexists. split; [reflexivity|]. split.
      * eapply grows_trans; [exact Hg1 | grows_tac].
      * cbn [app]. apply remote_step_passes. now rewrite app_nil_r.
Qed.

Lemma updatePolicy_runs env r p w :
  exists res w' new nl,
    PolicyReconciler.updatePolicy env r p w = (res, w')
    /\ grows w w' new nl
    /\ remote_step_run
         (AlertsUpdatePolicy (alerts.set_ID (Policy.PolicyID p)
                                            (PolicySpec_APIPolicy (Policy.Spec p))))
         p w w' res new nl.
Proof.
  unfold PolicyReconciler.updatePolicy.
  unfold bind at 1, Log_Info at 1. unfold bind at 1.
  unfold Alerts_UpdatePolicy, remote. world_simpl.
  set (api := alerts.set_ID (Policy.PolicyID p) (PolicySpec_APIPolicy (Policy.Spec p))).
  destruct (NewRelicAlertsClient.UpdatePolicy (Alerts r) (trace w) api)
    as [updated [e|]] eqn:Hupdate; world_simpl.
  - unfold_go. do 4 eexists. split; [reflexivity|]. split; [grows_tac|].
    apply remote_step_fails; [reflexivity|].
    eexists. rewrite !elem_of_cons. right. left. reflexivity.
  - unfold bind at 1.
    match goal with
    | |- context [PolicyReconciler.createOrUpdateConditions env r ?q ?w1] =>
        destruct (createOrUpdateConditions_frame env r q w1)
          as (res1 & w2 & new1 & nl1 & Hrun & Hg & _ & Hwrites & _);
        assert (Hg0 : grows w w1 [mkEvent (AlertsUpdatePolicy api) None]
                            [LogInfo "updating policy"]) by grows_tac
    end.
    rewrite Hrun. apply condition_write_not_remote in Hwrites.
    pose proof (grows_trans _ _ _ _ _ _ _ Hg0 Hg) as Hg1.
    destruct res1 as [[q [e|]]|msg]; unfold_go; world_simpl.
    + do 4 eexists. split; [reflexivity|]. split.
      * eapply grows_trans; [exact Hg1 | grows_tac].
      * cbn [app]. apply remote_step_passes. now rewrite app_nil_r.
    + destruct updated as [updated|].
      * match goal with
        | |- context [storeFault env ?h ?c] => destruct (storeFault env h c) as [e|]
        end; world_simpl;
          do 4 eexists; (split; [reflexivity|]);
          (split; [eapply grows_trans; [exact Hg1 | grows_tac]|]);
          cbn [app]; apply remote_step_passes;
          (apply Forall_app; split; [assumption | repeat constructor]).
      * do 4 eexists. split; [reflexivity|]. split.
        -- eapply grows_trans; [exact Hg1 | grows_tac].
        -- cbn [app]. apply remote_step_passes. now rewrite app_nil_r.
    + do 4 eexists. split; [reflexivity|]. split.
      * eapply grows_trans; [exact Hg1 | grows_tac].
      * cbn [app]. apply remote_step_passes. now rewrite app_nil_r.
Qed.

(** ** Discovery and the lifecycle *)

Lemma checkForExistingPolicy_runs r p w :
  exists q w' new nl,
    PolicyReconciler.checkForExistingPolicy r p w = (Done q, w')
    /\ grows w w' new nl
    /\ store w' = store w
    /\ discovery_run r p (trace w) q new nl.
Proof.
  unfold PolicyReconciler.checkForExistingPolicy.
  destruct (Z.eqb (Policy.PolicyID p) 0) eqn:Hid.
  - apply Z.eqb_eq in Hid. unfold_go. world_simpl.
    destruct (NewRelicAlertsClient.ListPolicies (Alerts r) (trace w)
                (alerts.mkListPoliciesParams (PolicySpec.Name (Policy.Spec p))))
      as [ps [e|]] eqn:Hlist; world_simpl.
    + do 4 eexists. split; [reflexivity|]. split; [grows_tac|]. split; [reflexivity|].
      eapply discovery_fails; [assumption | eassumption |].
      eexists. rewrite !elem_of_cons. right. left. reflexivity.
    + pose proof (discovery_lists r p (trace w) ps) as Hrun. unfold adopt in Hrun.
      destruct (PolicyReconciler.firstNamed (PolicySpec.Name (Policy.Spec p)) ps) as [m|];
        do 4 eexists; (split; [reflexivity|]); (split; [grows_tac|]);
        (split; [reflexivity|]); now apply Hrun.
  - apply Z.eqb_neq in Hid. unfold_go.
    do 4 eexists. split; [reflexivity|]. split; [apply grows_refl|].
    split; [reflexivity|]. now apply discovery_skipped.
Qed.

Lemma withFinalizer_spec p fin :
  Policy.Spec (withFinalizer p fin) = Policy.Spec p
  /\ Policy.Status (withFinalizer p fin) = Policy.Status p.
Proof. unfold withFinalizer. now destruct (negb _). Qed.

Lemma lifecycle_runs env r p w :
  exists res w' new nl,
    PolicyReconciler.Reconcile_lifecycle env r p w = (res, w')
    /\ grows w w' new nl
    /\ lifecycle_run r p w w' res new nl.
Proof.
  unfold PolicyReconciler.Reconcile_lifecycle.
  destruct (ObjectMeta.DeletionTimestamp_IsZero (Policy.Meta p)) eqn:Hdel.
  - fold (withFinalizer p PolicyReconciler.policyFinalizer).
    set (p0 := withFinalizer p PolicyReconciler.policyFinalizer).
    destruct (withFinalizer_spec p PolicyReconciler.policyFinalizer) as [Hspec Hstatus].
    fold p0 in Hspec, Hstatus.
    unfold DeepEqual, Policy.AppliedSpec. rewrite Hspec, Hstatus.
    fold (Policy.AppliedSpec p).
    destruct (bool_decide (Some (Policy.Spec p) = Policy.AppliedSpec p)) eqn:Heq.
    + apply bool_decide_eq_true_1 in Heq. unfold ret.
      do 4 eexists. split; [reflexivity|]. split; [apply grows_refl|].
      now apply lifecycle_converged.
    + apply bool_decide_eq_false_1 in Heq.
      unfold bind at 1, Log_Info at 1. unfold bind at 1.
      set (w0 := write_log (LogInfo "Reconciling") w).
      destruct (checkForExistingPolicy_runs r p0 w0)
        as (q & w1 & new1 & nl1 & Hcheck & Hg1 & Hs1 & Hdisc).
      rewrite Hcheck.
      assert (Hg0 : grows w w0 [] [LogInfo "Reconciling"]) by apply grows_write_log.
      pose proof (grows_trans _ _ _ _ _ _ _ Hg0 Hg1) as Hg01. cbn [app] in Hg01.
      assert (Hsync : exists res w' new2 nl2,
                 (if negb (Z.eqb (Policy.PolicyID q) 0)
                  then PolicyReconciler.updatePolicy env r q
                  else PolicyReconciler.createPolicy env r q) w1 = (res, w')
                 /\ grows w1 w' new2 nl2
                 /\ remote_step_run (syncCall q) q w1 w' res new2 nl2).
      { unfold syncCall. destruct (Z.eqb (Policy.PolicyID q) 0); cbn [negb].
        - apply createPolicy_runs.
        - apply updatePolicy_runs. }
      destruct Hsync as (res & w' & new2 & nl2 & Hrun & Hg2 & Hstep).
      pose proof (grows_trans _ _ _ _ _ _ _ Hg01 Hg2) as Hg.
      exists (error_of res), w', (new1 ++ new2), (LogInfo "Reconciling" :: nl1 ++ nl2).
      split.
      * destruct (Z.eqb (Policy.PolicyID q) 0); cbn [negb] in *;
          unfold bind; rewrite Hrun; now destruct res as [[? [?|]]|].
      * split; [exact Hg|].
        apply (lifecycle_syncs r p w w' q w1 new1 nl1 res new2 nl2);
          [assumption | congruence | exact Hdisc | exact Hs1 | exact Hstep].
  - unfold bind.
    destruct (containsString (Policy.Finalizers p) PolicyReconciler.policyFinalizer) eqn:Hfin.
    + destruct (Z.eq_dec (Policy.PolicyID p) 0) as [Hid|Hid].
      * unfold PolicyReconciler.deletePolicy. rewrite Hfin, Hid. cbn [Z.eqb].
        unfold_go. do 4 eexists. split; [reflexivity|]. split; [grows_tac|].
        now apply lifecycle_nothing_to_delete.
      * destruct (deletePolicy_runs env r p PolicyReconciler.policyFinalizer w Hfin Hid)
          as (res & w' & new & nl & Hrun & Hg & Hshape).
        rewrite Hrun. exists (error_of res), w', new, nl. split.
        -- now destruct res as [[? ?]|].
        -- split; [exact Hg|]. now apply lifecycle_deletes.
    + unfold PolicyReconciler.deletePolicy. rewrite Hfin.
      unfold_go. do 4 eexists. split; [reflexivity|]. split; [grows_tac|].
      now apply lifecycle_nothing_to_delete.
Qed.

Lemma Reconcile_runs env req w :
  exists res w',
    PolicyReconciler.Reconcile env req w = (res, w')
    /\ reconcile_run env req w w' res.
Proof.
  unfold PolicyReconciler.Reconcile. unfold bind at 1.
  destruct (Client_Get_Policy env req w) as [[[x [e|]]|msg] w1] eqn:Hget.
  - pose proof (policy_fetch_quiet _ _ _ _ _ _ Hget) as Hq.
    destruct (strings_Contains e " not found"); unfold_go;
      do 2 eexists; (split; [reflexivity|]);
      (apply reconcile_returns_early; [quiet_tac | left; now left]).
  - pose proof (policy_fetch_quiet _ _ _ _ _ _ Hget) as Hq.
    assert (Hx : policies w !! req = Some x).
    { unfold Client_Get_Policy in Hget. repeat case_match; simplify_eq; auto. }
    unfold bind, Log_Info.
    set (w2 := write_log (LogInfo "policy spec")
                 (write_log (LogInfo "Starting reconcile action") w1)).
    assert (Hq2 : quiet w w2) by (unfold w2; quiet_tac).
    destruct (policy_resolver_quiet env x w2) as (k & w3 & Hres & Hq3).
    pose proof (quiet_trans _ _ _ Hq2 Hq3) as Hq'.
    rewrite Hres.
    destruct (String.eqb k EmptyString).
    + do 2 eexists. split; [reflexivity|].
      apply reconcile_returns_early; [assumption | left; right; now left].
    + destruct (AlertClientFunc env (trace w3) k (PolicySpec.Region (Policy.Spec x)))
        as [client|e] eqn:Hfactory.
      * destruct (lifecycle_runs env (mkReconciler k client) x w3)
          as (res & w' & new & nl & Hrun & Hg & Hshape).
        rewrite Hrun. do 2 eexists. split; [reflexivity|].
        eapply reconcile_lifecycle; eassumption.
      * unfold_go. do 2 eexists. split; [reflexivity|].
        apply reconcile_returns_early; [quiet_tac | right; eauto 10].
  - unfold Client_Get_Policy in Hget. repeat case_match; simplify_eq.
Qed.

(** When the policy is fetched, its key resolves and a client is built,
    [Reconcile] is the lifecycle run with that key and that client. *)
Lemma Reconcile_enters_lifecycle env req w p w1 k w3 client :
  Client_Get_Policy env req w = (Done (p, None), w1) ->
  PolicyReconciler.getAPIKeyOrSecret env p
    (write_log (LogInfo "policy spec")
       (write_log (LogInfo "Starting reconcile action") w1)) = (Done k, w3) ->
  k <> EmptyString ->
  AlertClientFunc env (trace w3) k (PolicySpec.Region (Policy.Spec p)) = inl client ->
  PolicyReconciler.Reconcile env req w
  = PolicyReconciler.Reconcile_lifecycle env (mkReconciler k client) p w3.
Proof.
  intros Hget Hkey Hk Hclient.
  unfold PolicyReconciler.Reconcile. unfold bind at 1. rewrite Hget.
  unfold bind, Log_Info. rewrite Hkey.
  apply String.eqb_neq in Hk. rewrite Hk. now rewrite Hclient.
Qed.

Lemma quiet_no_remote w w' ev :
  quiet w w' -> ev ∈ new_events w w' -> is_remote (call ev) = false.
Proof.
  intros (new & nl & Hg & _ & Hr & _) Hin.
  rewrite (grows_new_events _ _ _ _ Hg) in Hin.
  destruct (is_remote (call ev)) eqn:Hrem; [|reflexivity].
  assert (ev ∈ remote_calls new) as Habs
    by (unfold remote_calls; now apply list_elem_of_filter).
  rewrite Hr in Habs. now apply elem_of_nil in Habs.
Qed.

(** After a quiet prefix, a remote event of the whole run is an event of
    the rest of the run. *)
Lemma remote_after_quiet w w1 w' new nl ev :
  quiet w w1 -> grows w1 w' new nl ->
  ev ∈ new_events w w' -> is_remote (call ev) = true -> ev ∈ new.
Proof.
  intros Hq Hg Hin Hrem.
  pose proof (quiet_no_remote w w1 ev Hq) as Hno.
  destruct Hq as (pre & nl0 & Hg0 & _).
  pose proof (grows_trans _ _ _ _ _ _ _ Hg0 Hg) as Hg'.
  rewrite (grows_new_events _ _ _ _ Hg') in Hin.
  rewrite (grows_new_events _ _ _ _ Hg0) in Hno.
  apply elem_of_app in Hin as [Hin|Hin]; [|assumption].
  rewrite (Hno Hin) in Hrem. discriminate.
Qed.

Lemma quiet_store w w' : quiet w w' -> store w' = store w.
Proof. now intros (new & nl & _ & Hs & _). Qed.

(** ** Failures of remote calls *)

Lemma must_propagate_remote c : must_propagate c = true -> is_remote c = true.
Proof. now destruct c. Qed.

Lemma remote_create_remote c : is_remote_create c = true -> is_remote c = true.
Proof. now destruct c. Qed.

Lemma not_remote_elem (rest : list Event) ev :
  Forall (fun ev => is_remote (call ev) = false) rest ->
  ev ∈ rest -> is_remote (call ev) = true -> False.
Proof.
  intros Hall Hin Hrem. rewrite Forall_forall in Hall.
  specialize (Hall ev Hin). cbn in Hall. congruence.
Qed.

Lemma discovery_run_events r p h q new nl ev :
  discovery_run r p h q new nl -> ev ∈ new -> call ev = listCall p.
Proof.
  intros Hrun Hin. destruct Hrun.
  - now apply elem_of_nil in Hin.
  - apply list_elem_of_singleton in Hin. now subst.
  - apply list_elem_of_singleton in Hin. now subst.
Qed.

Lemma deletion_run_events p fin w w' res new nl ev :
  deletion_run p fin w w' res new nl -> ev ∈ new ->
  (exists c, call ev = ClientDeleteCondition c)
  \/ (exists id, call ev = AlertsDeletePolicy id)
  \/ (exists q, call ev = ClientUpdatePolicy q).
Proof.
  intros Hrun Hin.
  destruct Hrun; unfold failedDelete, remoteDelete in *;
    elem_cases Hin; unfold okDelete in *; subst; cbn; eauto.
Qed.

(** In a run of the lifecycle, a failed create, update or delete of the
    policy is the error returned, it is logged, and after a failed create
    the store is as before. *)
Lemma lifecycle_failed_mutation r p w w' res new nl ev e :
  lifecycle_run r p w w' res new nl ->
  ev ∈ new -> failure ev = Some e -> must_propagate (call ev) = true ->
  (res = Done (Some e)
   /\ (exists msg, LogError (Some e) msg ∈ nl)
   /\ exists pre, new = pre ++ [ev])
  /\ (forall a, call ev = AlertsCreatePolicy a -> store w' = store w).
Proof.
  intros Hrun Hin Hfail Hprop. destruct Hrun as [| res new nl Hdel Hrun | | ].
  - now apply elem_of_nil in Hin.
  - destruct Hrun; unfold failedDelete, remoteDelete in *;
      elem_cases Hin; unfold okDelete in *; subst; cbn in *; simplify_eq;
      (split; [split; [reflexivity|]; split; [assumption|]; eexists; reflexivity|]);
      intros; discriminate.
  - now apply elem_of_nil in Hin.
  - apply elem_of_app in Hin as [Hin|Hin].
    + apply (discovery_run_events _ _ _ _ _ _ _ H1) in Hin.
      rewrite Hin in Hprop. discriminate.
    + destruct H3 as [e0 nl2 Hstore Hlog | res rest nl2 Hrest].
      * apply list_elem_of_singleton in Hin. subst ev.
        cbn [failure] in Hfail. injection Hfail as ->.
        split; [split; [reflexivity|]; split|].
        -- destruct Hlog as [msg Hlog]. exists msg.
           apply list_elem_of_further, elem_of_app. now right.
        -- now exists new1.
        -- intros a0 _. now rewrite Hstore.
      * apply elem_of_cons in Hin as [Heq|Hin]; [subst ev; discriminate|].
        exfalso. eapply not_remote_elem; eauto using must_propagate_remote.
Qed.

Lemma lifecycle_propagates r p w w' res new nl :
  lifecycle_run r p w w' res new nl -> propagates res new nl.
Proof.
  intros Hrun ev e Hin Hfail Hprop.
  now destruct (lifecycle_failed_mutation _ _ _ _ _ _ _ _ _ Hrun Hin Hfail Hprop).
Qed.

Lemma new_logs_after_quiet w w1 w' new nl l :
  quiet w w1 -> grows w1 w' new nl -> l ∈ nl -> l ∈ new_logs w w'.
Proof.
  intros (pre & nl0 & Hg0 & _) Hg Hin.
  rewrite (grows_new_logs _ _ _ _ (grows_trans _ _ _ _ _ _ _ Hg0 Hg)).
  apply elem_of_app. now right.
Qed.

(** A run that continues a quiet prefix propagates what it propagates
    alone. *)
Lemma propagates_after_quiet w w1 w' res new nl :
  quiet w w1 -> grows w1 w' new nl ->
  propagates res new nl ->
  propagates res (new_events w w') (new_logs w w').
Proof.
  intros Hq Hg Hnew ev e Hin Hfail Hprop.
  pose proof (must_propagate_remote _ Hprop) as Hrem.
  pose proof (remote_after_quiet _ _ _ _ _ _ Hq Hg Hin Hrem) as Hin'.
  destruct (Hnew ev e Hin' Hfail Hprop) as (Hres & [msg Hlog] & pre & Hlast).
  split; [assumption|]. split.
  - exists msg. eapply new_logs_after_quiet; eassumption.
  - destruct Hq as (pre0 & nl0 & Hg0 & _).
    rewrite (grows_new_events _ _ _ _ (grows_trans _ _ _ _ _ _ _ Hg0 Hg)).
    exists (pre0 ++ pre). now rewrite Hlast, app_assoc.
Qed.

Lemma policy_failed_mutation env req w res w' :
  PolicyReconciler.Reconcile env req w = (res, w') ->
  propagates res (new_events w w') (new_logs w w')
  /\ forall a e,
      mkEvent (AlertsCreatePolicy a) (Some e) ∈ new_events w w' ->
      store w' = store w.
Proof.
  intros Hrun.
  destruct (Reconcile_runs env req w) as (res0 & w0 & Hrun0 & Hshape).
  rewrite Hrun in Hrun0. simplify_eq.
  destruct Hshape as [res Hq _ | p r w1 res new nl Hp Hq Hg Hlife].
  - split.
    + intros ev e Hin Hfail Hprop.
      pose proof (must_propagate_remote _ Hprop) as Hrem.
      rewrite (quiet_no_remote _ _ _ Hq Hin) in Hrem. discriminate.
    + intros a e Hin. pose proof (quiet_no_remote _ _ _ Hq Hin). discriminate.
  - split.
    + eapply propagates_after_quiet; eauto using lifecycle_propagates.
    + intros a e Hin.
      pose proof (remote_after_quiet _ _ _ _ _ _ Hq Hg Hin eq_refl) as Hin'.
      destruct (lifecycle_failed_mutation _ _ _ _ _ _ _ _ _ Hlife Hin' eq_refl eq_refl)
        as [_ Hstore].
      rewrite (Hstore a eq_refl). now apply quiet_store.
Qed.

(** C3.  Error preserves pre-state.  When the remote create of the policy
    returns an error, [Reconcile] returns that error and the store is as
    before: the stored identifier and the stored applied specification keep
    their prior values. *)
Theorem create_error_preserves_state (env : Env) (req : NamespacedName.t)
    (w w' : World) (res : outcome error) (a : alerts.Policy) (e : GoError) :
  PolicyReconciler.Reconcile env req w = (res, w') ->
  mkEvent (AlertsCreatePolicy a) (Some e) ∈ new_events w w' ->
  res = Done (Some e)
  /\ store w' = store w
  /\ Policy.PolicyID <$> policies w' !! req = Policy.PolicyID <$> policies w !! req
  /\ Policy.AppliedSpec <$> policies w' !! req = Policy.AppliedSpec <$> policies w !! req.
Proof.
  intros Hrun Hin.
  destruct (policy_failed_mutation env req w res w' Hrun) as [Hprop Hstore].
  destruct (Hprop _ e Hin eq_refl eq_refl) as [Hres _].
  specialize (Hstore a e Hin).
  assert (policies w' = policies w) as Hpol by (unfold store in Hstore; congruence).
  rewrite Hpol. auto.
Qed.

(** ** Discovery *)

Lemma remote_creates_nil (new : list Event) :
  (forall ev, ev ∈ new -> is_remote_create (call ev) = false) ->
  remote_creates new = [].
Proof.
  intros Hall. induction new as [|ev rest IH]; [reflexivity|].
  unfold remote_creates in *. rewrite filter_cons.
  rewrite decide_False.
  - apply IH. intros ev' Hin. apply Hall. now apply list_elem_of_further.
  - rewrite (Hall ev) by apply list_elem_of_here. discriminate.
Qed.

Lemma withFinalizer_PolicyID p fin :
  Policy.PolicyID (withFinalizer p fin) = Policy.PolicyID p.
Proof. unfold withFinalizer. now destruct (negb _). Qed.

Lemma withFinalizer_Name p fin :
  PolicySpec.Name (Policy.Spec (withFinalizer p fin)) = PolicySpec.Name (Policy.Spec p).
Proof. unfold withFinalizer. now destruct (negb _). Qed.

(** ** A failed discovery *)

Lemma remote_step_first c p w w' res new nl :
  remote_step_run c p w w' res new nl -> exists err rest, new = mkEvent c err :: rest.
Proof. intros []; eauto. Qed.

(** A failed list call is logged and followed by a remote create. *)
Lemma lifecycle_failed_list r p w w' res new nl params e :
  lifecycle_run r p w w' res new nl ->
  mkEvent (AlertsListPolicies params) (Some e) ∈ new ->
  (exists msg, LogError (Some e) msg ∈ nl)
  /\ exists a err, mkEvent (AlertsCreatePolicy a) err ∈ new.
Proof.
  intros Hrun Hin.
  destruct Hrun as [| res new nl Hdel Hrun | | q w1 new1 nl1 res new2 nl2 Hdel Hneq Hdisc Hs Hstep].
  - now apply elem_of_nil in Hin.
  - destruct (deletion_run_events _ _ _ _ _ _ _ _ Hrun Hin)
      as [[c Hc] | [[id Hc] | [q Hc]]]; discriminate.
  - now apply elem_of_nil in Hin.
  - assert (Hnotin : mkEvent (AlertsListPolicies params) (Some e) ∈ new2 -> False).
    { intros Hin2. destruct Hstep as [e0 nl2 _ _ | res rest nl2 Hrest].
      - apply list_elem_of_singleton in Hin2. unfold syncCall in Hin2.
        destruct (Z.eqb _ _); discriminate.
      - apply elem_of_cons in Hin2 as [Heq|Hin2]; [discriminate|].
        eapply not_remote_elem; eauto. }
    apply elem_of_app in Hin as [Hin|Hin]; [|contradiction].
    destruct Hdisc as [Hskip | ps e0 nl1 Hid Hlist Hlog | ps nl1 Hid Hlist].
    + now apply elem_of_nil in Hin.
    + apply list_elem_of_singleton in Hin. simplify_eq. split.
      * destruct Hlog as [msg Hlog]. exists msg.
        apply list_elem_of_further, elem_of_app. now left.
      * destruct (remote_step_first _ _ _ _ _ _ _ Hstep) as (err & rest & ->).
        unfold syncCall. apply Z.eqb_eq in Hid. rewrite Hid.
        do 2 eexists. apply elem_of_app. right. apply list_elem_of_here.
    + apply list_elem_of_singleton in Hin. discriminate.
Qed.

Lemma policy_failed_list env req w res w' params e :
  PolicyReconciler.Reconcile env req w = (res, w') ->
  mkEvent (AlertsListPolicies params) (Some e) ∈ new_events w w' ->
  (exists msg, LogError (Some e) msg ∈ new_logs w w')
  /\ exists a err, mkEvent (AlertsCreatePolicy a) err ∈ new_events w w'.
Proof.
  intros Hrun Hin.
  destruct (Reconcile_runs env req w) as (res0 & w0 & Hrun0 & Hshape).
  rewrite Hrun in Hrun0. simplify_eq.
  destruct Hshape as [res Hq _ | p r w1 res new nl Hp Hq Hg Hlife].
  - pose proof (quiet_no_remote _ _ _ Hq Hin). discriminate.
  - pose proof (remote_after_quiet _ _ _ _ _ _ Hq Hg Hin eq_refl) as Hin'.
    destruct (lifecycle_failed_list _ _ _ _ _ _ _ _ _ Hlife Hin')
      as ([msg Hlog] & a & err & Hcreate).
    split.
    + exists msg. eapply new_logs_after_quiet; eassumption.
    + exists a, err. destruct Hq as (pre & nl0 & Hg0 & _).
      rewrite (grows_new_events _ _ _ _ (grows_trans _ _ _ _ _ _ _ Hg0 Hg)).
      apply elem_of_app. now right.
Qed.

(** ** The channel reconciler *)

Lemma channel_sync_runs env r c w :
  exists res w' new nl,
    AlertsChannelReconciler.Reconcile_sync env r c w = (res, w')
    /\ grows w w' new nl
    /\ (new = [] -> store w' = store w)
    /\ channel_sync_run c res new nl.
Proof.
  unfold AlertsChannelReconciler.Reconcile_sync, DeepEqual.
  destruct (bool_decide (Some (AlertsChannel.Spec c) = AlertsChannel.AppliedSpec c)) eqn:Heq.
  - apply bool_decide_eq_true_1 in Heq. unfold ret.
    do 4 eexists. split; [reflexivity|]. split; [apply grows_refl|].
    split; [reflexivity|]. now apply channel_sync_converged.
  - apply bool_decide_eq_false_1 in Heq.
    unfold AlertsChannelReconciler.checkForExistingAlertsChannel,
      AlertsChannelReconciler.updateAlertsChannel,
      AlertsChannelReconciler.createAlertsChannel.
    unfold_go. world_simpl.
    destruct (Z.eqb (AlertsChannel.ChannelID c) 0) eqn:Hid; cbn [negb].
    + apply Z.eqb_eq in Hid.
      go_cases;
        do 4 eexists; (split; [reflexivity|]); (split; [grows_tac|]);
        (split; [intros Hnil; discriminate Hnil|]).
      all: first
        [ apply channel_sync_create_fails; [assumption|];
          eexists; rewrite !elem_of_cons; right; right; left; reflexivity
        | apply channel_sync_create_passes; [assumption | repeat constructor] ].
    + apply Z.eqb_neq in Hid.
      do 4 eexists. split; [reflexivity|]. split; [grows_tac|].
      split; [reflexivity|]. apply channel_sync_update_stub; congruence.
Qed.

Lemma channel_sync_propagates c res new nl :
  channel_sync_run c res new nl -> propagates res new nl.
Proof.
  intros Hrun ev e Hin Hfail Hprop. destruct Hrun.
  - now apply elem_of_nil in Hin.
  - now apply elem_of_nil in Hin.
  - apply list_elem_of_singleton in Hin. subst ev.
    cbn [failure] in Hfail. injection Hfail as ->.
    split; [reflexivity|]. split; [assumption|]. now exists [].
  - apply elem_of_cons in Hin as [Heq|Hin]; [subst ev; discriminate|].
    exfalso. eapply not_remote_elem; eauto using must_propagate_remote.
Qed.

Lemma propagates_after (res : outcome error) pre nl0 new nl :
  Forall (fun ev => must_propagate (call ev) = false) pre ->
  propagates res new nl -> propagates res (pre ++ new) (nl0 ++ nl).
Proof.
  intros Hpre Hnew ev e Hin Hfail Hprop.
  apply elem_of_app in Hin as [Hin|Hin].
  - rewrite Forall_forall in Hpre. specialize (Hpre ev Hin). cbn in Hpre. congruence.
  - destruct (Hnew ev e Hin Hfail Hprop) as (Hres & [msg Hlog] & pre1 & Hlast).
    split; [assumption|]. split.
    + exists msg. apply elem_of_app. now right.
    + exists (pre ++ pre1). now rewrite Hlast, app_assoc.
Qed.

Lemma propagates_none (res : outcome error) pre nl :
  Forall (fun ev => must_propagate (call ev) = false) pre -> propagates res pre nl.
Proof.
  intros Hpre ev e Hin Hfail Hprop.
  rewrite Forall_forall in Hpre. specialize (Hpre ev Hin). cbn in Hpre. congruence.
Qed.

(** [deleteAlertsChannel] calls the remote delete, when there is an
    identifier, and updates the store. *)
Lemma deleteAlertsChannel_frame env r c fin w :
  exists c' err w' new nl,
    AlertsChannelReconciler.deleteAlertsChannel env r c fin w = (Done (c', err), w')
    /\ grows w w' new nl
    /\ Forall (fun ev => must_propagate (call ev) = false) new.
Proof.
  unfold AlertsChannelReconciler.deleteAlertsChannel. unfold_go. world_simpl.
  go_cases; do 5 eexists; (split; [reflexivity|]); (split; [grows_tac|]);
    repeat constructor.
Qed.

Lemma channel_lifecycle_propagates env r c w :
  exists res w' new nl,
    AlertsChannelReconciler.Reconcile_lifecycle env r c w = (res, w')
    /\ grows w w' new nl
    /\ propagates res new nl.
Proof.
  unfold AlertsChannelReconciler.Reconcile_lifecycle.
  destruct (ObjectMeta.DeletionTimestamp_IsZero (AlertsChannel.Meta c)).
  - fold (channelWithFinalizer c AlertsChannelReconciler.channelFinalizer).
    destruct (channel_sync_runs env r
                (channelWithFinalizer c AlertsChannelReconciler.channelFinalizer) w)
      as (res & w' & new & nl & Hrun & Hg & _ & Hshape).
    exists res, w', new, nl. split; [assumption|]. split; [assumption|].
    eapply channel_sync_propagates; eassumption.
  - destruct (deleteAlertsChannel_frame env r c AlertsChannelReconciler.channelFinalizer w)
      as (c' & err & w1 & pre & nl0 & Hdel & Hg0 & Hpre).
    unfold bind at 1. rewrite Hdel. destruct err as [e|].
    + unfold_go. do 4 eexists. split; [reflexivity|]. split.
      * eapply grows_trans; [exact Hg0 | grows_tac].
      * rewrite app_nil_r. now apply propagates_none.
    + destruct (channel_sync_runs env r c' w1)
        as (res & w' & new & nl & Hrun & Hg & _ & Hshape).
      exists res, w', (pre ++ new), (nl0 ++ nl). split; [assumption|]. split.
      * eapply grows_trans; eassumption.
      * apply propagates_after; [assumption|].
        eapply channel_sync_propagates; eassumption.
Qed.

Lemma channel_failed_mutation env req w res w' :
  AlertsChannelReconciler.Reconcile env req w = (res, w') ->
  propagates res (new_events w w') (new_logs w w').
Proof.
  intros Hrun ev e Hin Hfail Hprop.
  pose proof (must_propagate_remote _ Hprop) as Hrem.
  assert (Hearly : forall w0, quiet w w0 -> w' = w0 -> False).
  { intros w0 Hq ->. rewrite (quiet_no_remote _ _ _ Hq Hin) in Hrem. discriminate. }
  revert Hrun. unfold AlertsChannelReconciler.Reconcile. unfold bind at 1.
  destruct (Client_Get_AlertsChannel env req w) as [[[x [e0|]]|msg] w1] eqn:Hget.
  - pose proof (channel_fetch_quiet _ _ _ _ _ _ Hget) as Hq.
    destruct (strings_Contains e0 " not found"); unfold_go; intros Hrun; simplify_eq;
      exfalso; (eapply Hearly; [|reflexivity]); quiet_tac.
  - pose proof (channel_fetch_quiet _ _ _ _ _ _ Hget) as Hq.
    unfold bind, Log_Info.
    set (w2 := write_log (LogInfo "alertsChannel")
                 (write_log (LogInfo "Starting reconcile action") w1)).
    assert (Hq2 : quiet w w2) by (unfold w2; quiet_tac).
    destruct (channel_resolver_quiet env x w2) as (k & w3 & Hres & Hq3).
    pose proof (quiet_trans _ _ _ Hq2 Hq3) as Hq'.
    rewrite Hres.
    destruct (String.eqb k EmptyString).
    + unfold ret. intros Hrun. simplify_eq. exfalso.
      eapply Hearly; [exact Hq' | reflexivity].
    + destruct (AlertClientFunc env (trace w3) k
                  (AlertsChannelSpec.Region (AlertsChannel.Spec x)))
        as [client|e1] eqn:Hfactory.
      * destruct (channel_lifecycle_propagates env (mkReconciler k client) x w3)
          as (res0 & w0 & new & nl & Hrun0 & Hg & Hshape).
        rewrite Hrun0. intros Hrun. simplify_eq.
        exact (propagates_after_quiet _ _ _ _ _ _ Hq' Hg Hshape ev e Hin Hfail Hprop).
      * unfold_go. intros Hrun. simplify_eq. exfalso.
        eapply Hearly; [|reflexivity]. quiet_tac.
  - unfold Client_Get_AlertsChannel in Hget. repeat case_match; simplify_eq.
Qed.

(** C7 (amended).  A failed remote create, update or delete of a policy,
    and a failed remote create of a channel, is logged, is the error that
    [Reconcile] returns, and is the last call of the invocation.  A failed
    list of the policies is logged too, but it is not returned: the
    invocation goes on to create the policy. *)
Theorem remote_mutation_failure_is_returned (env : Env) (req : NamespacedName.t)
    (w w' : World) (res : outcome error) :
  (PolicyReconciler.Reconcile env req w = (res, w') ->
   propagates res (new_events w w') (new_logs w w')
   /\ forall params e,
       mkEvent (AlertsListPolicies params) (Some e) ∈ new_events w w' ->
       (exists msg, LogError (Some e) msg ∈ new_logs w w')
       /\ exists a err, mkEvent (AlertsCreatePolicy a) err ∈ new_events w w')
  /\ (AlertsChannelReconciler.Reconcile env req w = (res, w') ->
      propagates res (new_events w w') (new_logs w w')).
Proof.
  split.
  - intros Hrun. split.
    + now destruct (policy_failed_mutation env req w res w' Hrun).
    + intros params e. now apply (policy_failed_list env req w res w').
  - now apply channel_failed_mutation.
Qed.

(** ** Steps that leave the store as it was *)

(** With the finalizer present and no remote identifier, [deletePolicy]
    strips the finalizer from the policy it was handed and returns: it calls
    nothing, so the stored policy keeps its finalizer. *)
Lemma deletePolicy_unassigned env r p fin w :
  containsString (Policy.Finalizers p) fin = true ->
  Policy.PolicyID p = 0 ->
  exists w',
    PolicyReconciler.deletePolicy env r p fin w = (Done (stripped p fin, None), w')
    /\ trace w' = trace w
    /\ store w' = store w.
Proof.
  intros Hfin Hid. unfold PolicyReconciler.deletePolicy.
  rewrite Hfin, Hid. cbn [Z.eqb]. unfold_go.
  eexists. split; [reflexivity|]. split; reflexivity.
Qed.

(** With a remote identifier and a changed specification, the channel
    reconciler reaches [updateAlertsChannel], whose body is empty: nothing is
    called and nothing is stored. *)
Lemma channel_update_is_empty env r c w :
  AlertsChannel.ChannelID c <> 0 ->
  AlertsChannel.AppliedSpec c <> Some (AlertsChannel.Spec c) ->
  exists w',
    AlertsChannelReconciler.Reconcile_sync env r c w = (Done None, w')
    /\ trace w' = trace w
    /\ store w' = store w.
Proof.
  intros Hid Hneq. unfold AlertsChannelReconciler.Reconcile_sync, DeepEqual.
  rewrite bool_decide_eq_false_2 by congruence.
  unfold AlertsChannelReconciler.checkForExistingAlertsChannel,
    AlertsChannelReconciler.updateAlertsChannel.
  unfold_go. apply Z.eqb_neq in Hid. rewrite Hid. cbn [negb].
  eexists. split; [reflexivity|]. split; reflexivity.
Qed.

(** * Further properties of the methods *)

(** ** Conditions *)

Lemma createCondition_childOf env r policy condition :
  PolicyReconciler.createCondition env r policy condition
  = (Log_Info "creating condition";;
     let* (condition, errCondition) :=
       Client_Create_Condition env (childOf env policy condition) in
     match errCondition with
     | Some e =>
         Log_Error (Some e) "error creating condition";;
         ret (condition, Some e)
     | None => ret (condition, None)
     end).
Proof. reflexivity. Qed.

(** [createOrUpdateConditions] changes nothing of the policy it is handed
    but the list of its declared conditions, whose length it keeps. *)
Lemma createOrUpdateConditions_policy env r p w q err w' :
  PolicyReconciler.createOrUpdateConditions env r p w = (Done (q, err), w') ->
  q = Policy.set_Conditions (PolicySpec.Conditions (Policy.Spec q)) p
  /\ length (PolicySpec.Conditions (Policy.Spec q))
     = length (PolicySpec.Conditions (Policy.Spec p)).
Proof.
  unfold PolicyReconciler.createOrUpdateConditions.
  destruct (Policy.AppliedSpec p) as [applied|] eqn:Happlied; unfold_go; [|discriminate].
  case_match.
  { intros Hrun; simplify_eq.
    match goal with |- ?x = _ /\ _ => destruct x as [? [] ?] end. split; reflexivity. }
  destruct (PolicySpec.Conditions (Policy.Spec p)) as [|c rest] eqn:Hconds; cbn [for_range].
  { unfold_go. intros Hrun; simplify_eq. rewrite Hconds.
    match goal with |- ?x = _ /\ _ => destruct x as [? [] ?] end.
    cbn in *. subst. split; reflexivity. }
  unfold PolicyReconciler.createOrUpdateConditions_body,
    PolicyReconciler.createCondition.
  unfold_go. world_simpl. rewrite ?Happlied.
  intros Hrun. go_cases;
    repeat match goal with x : Policy.t |- _ => destruct x as [? [] ?] end;
    cbn in *; subst; split; reflexivity.
Qed.

(** The runs of [createOrUpdateConditions]: at most one write of a
    condition, a created child points to the policy as it is handed in, and
    an error is the error of a failed create. *)
Lemma createOrUpdateConditions_runs env r p w :
  exists res w' new nl,
    PolicyReconciler.createOrUpdateConditions env r p w = (res, w')
    /\ grows w w' new nl
    /\ same_entities w w'
    /\ Forall (child_write (Policy.PolicyID p)) new
    /\ match res with
       | Done (_, Some e) =>
           Policy.AppliedSpec p <> None
           /\ exists cond, new = [mkEvent (ClientCreateCondition cond) (Some e)]
       | Done (_, None) => Policy.AppliedSpec p <> None
       | Panic _ =>
           new = []
           /\ (Policy.AppliedSpec p = None
               \/ exists applied cond rest,
                   Policy.AppliedSpec p = Some applied
                   /\ PolicySpec.Conditions applied = []
                   /\ PolicySpec.Conditions (Policy.Spec p) = cond :: rest
                   /\ NrqlAlertCondition.ResourceVersion cond <> EmptyString)
       end.
Proof.
  unfold PolicyReconciler.createOrUpdateConditions.
  destruct (Policy.AppliedSpec p) as [applied|] eqn:Happlied; unfold_go.
  2: { do 4 eexists. split; [reflexivity|]. split; [apply grows_refl|].
       repeat split; auto. }
  case_match.
  { do 4 eexists. split; [reflexivity|]. split; [grows_tac|]. repeat split; auto. }
  destruct (PolicySpec.Conditions (Policy.Spec p)) as [|c rest] eqn:Hconds; cbn [for_range].
  { unfold_go. do 4 eexists. split; [reflexivity|]. split; [apply grows_refl|].
    repeat split; auto. }
  unfold PolicyReconciler.createOrUpdateConditions_body,
    PolicyReconciler.createCondition.
  unfold_go. world_simpl. rewrite ?Happlied.
  destruct (negb (NrqlAlertCondition.ResourceVersion c =? EmptyString)%string) eqn:Hversion.
  2: { go_cases;
         do 4 eexists; (split; [reflexivity|]); (split; [grows_tac|]);
         (split; [repeat split|]);
         (split; [repeat (apply List.Forall_cons;
                          [split; [reflexivity
                                  |intros ? Hc; cbn [call] in Hc; simplify_eq; reflexivity]|]);
                  apply List.Forall_nil |]);
         first [congruence | split; [congruence | eexists; reflexivity]]. }
  apply negb_true_iff, String.eqb_neq in Hversion.
  destruct (PolicySpec.Conditions applied) as [|c0 rest0] eqn:Hrecorded; cbn [lookup list_lookup].
  { do 4 eexists. split; [reflexivity|]. split; [grows_tac|].
    split; [repeat split|]. split; [constructor|]. split; [reflexivity|].
    right. exists applied, c, rest. auto. }
  world_simpl.
  go_cases;
    do 4 eexists; (split; [reflexivity|]); (split; [grows_tac|]);
    (split; [repeat split|]);
    (split; [repeat (apply List.Forall_cons;
                     [split; [reflexivity
                             |intros ? Hc; cbn [call] in Hc; simplify_eq]|]);
             apply List.Forall_nil |]);
    congruence.
Qed.

(** ** The synchronisation step *)

(** Unfolding the setters and the derived accessors of the API types. *)
Ltac api_simpl :=
  cbv [Policy.set_Conditions Policy.set_Spec Policy.set_Meta Policy.set_Status
       Policy.set_Finalizers Policy.set_PolicyID Policy.set_AppliedSpec
       Policy.Name Policy.Namespace Policy.Labels Policy.Finalizers Policy.PolicyID
       Policy.AppliedSpec Policy.key Policy.Meta Policy.Spec Policy.Status
       PolicySpec.set_Conditions PolicyStatus.set_AppliedSpec PolicyStatus.set_PolicyID
       PolicyStatus.AppliedSpec PolicyStatus.PolicyID
       PolicySpec.Conditions PolicySpec.IncidentPreference PolicySpec.Name
       PolicySpec.APIKey PolicySpec.APIKeySecret PolicySpec.Region
       ObjectMeta.set_Name ObjectMeta.set_Namespace ObjectMeta.set_Labels
       ObjectMeta.set_Finalizers ObjectMeta.set_ResourceVersion ObjectMeta.key
       ObjectMeta.Name ObjectMeta.Namespace ObjectMeta.Labels ObjectMeta.Finalizers
       ObjectMeta.DeletionTimestamp ObjectMeta.ResourceVersion
       AlertsChannel.set_Meta AlertsChannel.set_Status AlertsChannel.set_Finalizers
       AlertsChannel.Name AlertsChannel.Finalizers AlertsChannel.ChannelID
       AlertsChannel.AppliedSpec AlertsChannel.key AlertsChannel.Meta
       AlertsChannel.Spec AlertsChannel.Status
       AlertsChannelStatus.AppliedSpec AlertsChannelStatus.ChannelID
       NrqlAlertCondition.set_Meta NrqlAlertCondition.set_Spec
       NrqlAlertCondition.set_Status NrqlAlertCondition.ResourceVersion
       NrqlAlertCondition.key NrqlAlertCondition.Meta NrqlAlertCondition.Spec
       NrqlAlertCondition.Status] in *.

(** Closing a goal [applied id p _] from the equation that relates the
    policy left by the condition step to the one handed in. *)
Ltac applied_tac Hq Hlen :=
  unfold applied; clear - Hq Hlen;
  match type of Hq with
  | ?q = _ =>
      match goal with
      | p : Policy.t |- _ =>
          tryif constr_eq p q then fail else
            (destruct q as [? [] ?], p as [? [] ?]; api_simpl; simplify_eq;
             repeat split; first [assumption | reflexivity])
      end
  end.

Lemma child_write_condition_write id (writes : list Event) :
  Forall (child_write id) writes ->
  Forall (fun ev => is_condition_write (call ev) = true) writes.
Proof. intros H. eapply Forall_impl; [exact H|]. now intros ev [? _]. Qed.

Lemma createPolicy_sync env r p w :
  exists res w' new nl,
    PolicyReconciler.createPolicy env r p w = (res, w')
    /\ grows w w' new nl
    /\ sync_run (AlertsCreatePolicy (PolicySpec_APIPolicy (Policy.Spec p)))
                (NewRelicAlertsClient.CreatePolicy (Alerts r) (trace w)
                   (PolicySpec_APIPolicy (Policy.Spec p)))
                alerts.ID p w w' res new.
Proof.
  unfold PolicyReconciler.createPolicy.
  unfold bind at 1, Log_Info at 1. unfold bind at 1.
  unfold Alerts_CreatePolicy, remote. world_simpl.
  destruct (NewRelicAlertsClient.CreatePolicy (Alerts r) (trace w)
              (PolicySpec_APIPolicy (Policy.Spec p))) as [created [e|]] eqn:Hcreate;
    world_simpl.
  - unfold_go. do 4 eexists. split; [reflexivity|]. split; [grows_tac|].
    eapply sync_remote_fails; reflexivity.
  - destruct created as [created|].
    2: { unfold_go. do 4 eexists. split; [reflexivity|]. split; [grows_tac|].
         eapply sync_panics; [reflexivity | now left | reflexivity | constructor]. }
    unfold bind at 1, deref, ret at 1. unfold bind at 1.
    match goal with
    | |- context [PolicyReconciler.createOrUpdateConditions env r ?q ?w1] =>
        destruct (createOrUpdateConditions_runs env r q w1)
          as (res1 & w2 & new1 & nl1 & Hrun & Hg & (Hpol & _) & Hwrites & Hres);
        assert (Hg0 : grows w w1 [mkEvent (AlertsCreatePolicy
                                             (PolicySpec_APIPolicy (Policy.Spec p))) None]
                            [LogInfo "Creating policy"]) by grows_tac
    end.
    rewrite Hrun. world_simpl.
    pose proof (child_write_condition_write _ _ Hwrites) as Hcw.
    pose proof (grows_trans _ _ _ _ _ _ _ Hg0 Hg) as Hg1.
    destruct res1 as [[q [e|]]|msg]; unfold_go; world_simpl.
    + destruct Hres as [Hsome [cond ->]].
      do 4 eexists. split; [reflexivity|]. split.
      * eapply grows_trans; [exact Hg1 | grows_tac].
      * cbn [app]. eapply sync_condition_fails; [reflexivity | exact Hsome | exact Hpol].
    + destruct (createOrUpdateConditions_policy _ _ _ _ _ _ _ Hrun) as [Hq Hlen].
      match goal with
      | |- context [storeFault env ?h ?c] => destruct (storeFault env h c) as [e|]
      end; world_simpl;
        do 4 eexists; (split; [reflexivity|]);
        (split; [eapply grows_trans; [exact Hg1 | grows_tac]|]);
        cbn [app].
      * eapply sync_update_fails; [reflexivity | exact Hres | exact Hpol | exact Hcw].
      * eapply sync_done; [reflexivity | exact Hres | | | exact Hwrites].
        -- rewrite Hpol. f_equal. rewrite Hq. reflexivity.
        -- applied_tac Hq Hlen.
    + do 4 eexists. split; [reflexivity|]. split.
      * eapply grows_trans; [exact Hg1 | grows_tac].
      * cbn [app]. rewrite app_nil_r.
        eapply sync_panics;
          [reflexivity
          | destruct Hres as [_ [Hn | (ap & cond & rest & _ & _ & Hc & Hv)]];
            [right; left; exact Hn | right; right; exists cond, rest; now split]
          | exact Hpol | exact Hcw].
Qed.

Lemma updatePolicy_sync env r p w :
  exists res w' new nl,
    PolicyReconciler.updatePolicy env r p w = (res, w')
    /\ grows w w' new nl
    /\ sync_run
         (AlertsUpdatePolicy (alerts.set_ID (Policy.PolicyID p)
                                            (PolicySpec_APIPolicy (Policy.Spec p))))
         (NewRelicAlertsClient.UpdatePolicy (Alerts r) (trace w)
            (alerts.set_ID (Policy.PolicyID p) (PolicySpec_APIPolicy (Policy.Spec p))))
         (fun _ => Policy.PolicyID p) p w w' res new.
Proof.
  unfold PolicyReconciler.updatePolicy.
  unfold bind at 1, Log_Info at 1. unfold bind at 1.
  unfold Alerts_UpdatePolicy, remote. world_simpl.
  set (api := alerts.set_ID (Policy.PolicyID p) (PolicySpec_APIPolicy (Policy.Spec p))).
  destruct (NewRelicAlertsClient.UpdatePolicy (Alerts r) (trace w) api)
    as [updated [e|]] eqn:Hupdate; world_simpl.
  - unfold_go. do 4 eexists. split; [reflexivity|]. split; [grows_tac|].
    eapply sync_remote_fails; reflexivity.
  - unfold bind at 1.
    match goal with
    | |- context [PolicyReconciler.createOrUpdateConditions env r ?q ?w1] =>
        destruct (createOrUpdateConditions_runs env r q w1)
          as (res1 & w2 & new1 & nl1 & Hrun & Hg & (Hpol & _) & Hwrites & Hres);
        assert (Hg0 : grows w w1 [mkEvent (AlertsUpdatePolicy api) None]
                            [LogInfo "updating policy"]) by grows_tac
    end.
    rewrite Hrun. world_simpl.
    pose proof (child_write_condition_write _ _ Hwrites) as Hcw.
    pose proof (grows_trans _ _ _ _ _ _ _ Hg0 Hg) as Hg1.
    destruct res1 as [[q [e|]]|msg]; unfold_go; world_simpl.
    + destruct Hres as [Hsome [cond ->]].
      do 4 eexists. split; [reflexivity|]. split.
      * eapply grows_trans; [exact Hg1 | grows_tac].
      * cbn [app]. eapply sync_condition_fails; [reflexivity | exact Hsome | exact Hpol].
    + destruct (createOrUpdateConditions_policy _ _ _ _ _ _ _ Hrun) as [Hq Hlen].
      destruct updated as [updated|].
      * match goal with
        | |- context [storeFault env ?h ?c] => destruct (storeFault env h c) as [e|]
        end; world_simpl;
          do 4 eexists; (split; [reflexivity|]);
          (split; [eapply grows_trans; [exact Hg1 | grows_tac]|]);
          cbn [app].
        -- eapply sync_update_fails; [reflexivity | exact Hres | exact Hpol | exact Hcw].
        -- eapply sync_done; [reflexivity | exact Hres | | | exact Hwrites].
           ++ rewrite Hpol. f_equal. rewrite Hq. reflexivity.
           ++ applied_tac Hq Hlen.
      * do 4 eexists. split; [reflexivity|]. split.
        -- eapply grows_trans; [exact Hg1 | grows_tac].
        -- cbn [app]. rewrite app_nil_r.
           eapply sync_panics; [reflexivity | now left | exact Hpol | exact Hcw].
    + do 4 eexists. split; [reflexivity|]. split.
      * eapply grows_trans; [exact Hg1 | grows_tac].
      * cbn [app]. rewrite app_nil_r.
        eapply sync_panics;
          [reflexivity
          | destruct Hres as [_ [Hn | (ap & cond & rest & _ & _ & Hc & Hv)]];
            [right; left; exact Hn | right; right; exists cond, rest; now split]
          | exact Hpol | exact Hcw].
Qed.

Lemma sync_run_done c answer seen p w w' q new :
  sync_run c answer seen p w w' (Done (q, None)) new ->
  exists created writes q0,
    answer = (Some created, None)
    /\ policies w' = <[Policy.key p := q]> (policies w)
    /\ applied (alerts.ID created) p q
    /\ Forall (child_write (seen created)) writes
    /\ new = mkEvent c None :: writes ++ [mkEvent (ClientUpdatePolicy q0) None].
Proof. inversion 1; subst. eauto 10. Qed.

(** X1.  When [createPolicy] returns nil, the remote create answered a
    policy, and its identifier is the [Status.PolicyID] of the policy now in
    the store under the key of the policy handed in; the stored
    [Status.AppliedSpec] is the stored [Spec]; a child condition created on
    the way points to that identifier; the calls are the remote create,
    the writes of conditions and the store update, in this order. *)
Theorem createPolicy_success_state (env : Env) (r : Reconciler) (p q : Policy.t)
    (w w' : World) :
  PolicyReconciler.createPolicy env r p w = (Done (q, None), w') ->
  exists created writes q0,
    NewRelicAlertsClient.CreatePolicy (Alerts r) (trace w)
      (PolicySpec_APIPolicy (Policy.Spec p)) = (Some created, None)
    /\ policies w' !! Policy.key p = Some q
    /\ applied (alerts.ID created) p q
    /\ Forall (child_write (alerts.ID created)) writes
    /\ new_events w w'
       = mkEvent (AlertsCreatePolicy (PolicySpec_APIPolicy (Policy.Spec p))) None
           :: writes ++ [mkEvent (ClientUpdatePolicy q0) None].
Proof.
  intros Hrun.
  destruct (createPolicy_sync env r p w) as (res & w1 & new & nl & Hrun' & Hg & Hsync).
  rewrite Hrun in Hrun'. injection Hrun' as <- <-.
  apply sync_run_done in Hsync.
  destruct Hsync as (created & writes & q0 & Hanswer & Hpol & Happlied & Hwrites & ->).
  exists created, writes, q0. split; [exact Hanswer|].
  split; [rewrite Hpol; apply lookup_insert_eq|].
  split; [exact Happlied|]. split; [exact Hwrites|].
  now apply grows_new_events in Hg.
Qed.

(** X2.  When [updatePolicy] returns nil, the remote update was sent with
    the identifier known before and answered a policy, and the identifier of
    the answer is the [Status.PolicyID] of the policy now in the store; the
    stored [Status.AppliedSpec] is the stored [Spec]; a child condition
    created on the way points to the identifier known before. *)
Theorem updatePolicy_success_state (env : Env) (r : Reconciler) (p q : Policy.t)
    (w w' : World) :
  PolicyReconciler.updatePolicy env r p w = (Done (q, None), w') ->
  let sent := alerts.set_ID (Policy.PolicyID p) (PolicySpec_APIPolicy (Policy.Spec p)) in
  exists updated writes q0,
    NewRelicAlertsClient.UpdatePolicy (Alerts r) (trace w) sent = (Some updated, None)
    /\ policies w' !! Policy.key p = Some q
    /\ applied (alerts.ID updated) p q
    /\ Forall (child_write (Policy.PolicyID p)) writes
    /\ new_events w w'
       = mkEvent (AlertsUpdatePolicy sent) None
           :: writes ++ [mkEvent (ClientUpdatePolicy q0) None].
Proof.
  intros Hrun sent.
  destruct (updatePolicy_sync env r p w) as (res & w1 & new & nl & Hrun' & Hg & Hsync).
  rewrite Hrun in Hrun'. injection Hrun' as <- <-.
  apply sync_run_done in Hsync.
  destruct Hsync as (updated & writes & q0 & Hanswer & Hpol & Happlied & Hwrites & ->).
  exists updated, writes, q0. split; [exact Hanswer|].
  split; [rewrite Hpol; apply lookup_insert_eq|].
  split; [exact Happlied|]. split; [exact Hwrites|].
  now apply grows_new_events in Hg.
Qed.

(** ** The lifecycle of a policy that is not being deleted *)

Lemma lifecycle_live env r p w :
  ObjectMeta.DeletionTimestamp_IsZero (Policy.Meta p) = true ->
  Policy.AppliedSpec p <> Some (Policy.Spec p) ->
  exists q w1 new1 nl1 res w' new2 nl2,
    PolicyReconciler.Reconcile_lifecycle env r p w = (error_of res, w')
    /\ discovery_run r (withFinalizer p PolicyReconciler.policyFinalizer) (trace w)
                     q new1 nl1
    /\ grows w w1 new1 (LogInfo "Reconciling" :: nl1)
    /\ store w1 = store w
    /\ grows w1 w' new2 nl2
    /\ sync_run (syncCall q) (syncAnswer r q (trace w1)) (syncSeen q) q w1 w' res new2.
Proof.
  intros Hdel Hneq.
  unfold PolicyReconciler.Reconcile_lifecycle. rewrite Hdel.
  fold (withFinalizer p PolicyReconciler.policyFinalizer).
  set (p0 := withFinalizer p PolicyReconciler.policyFinalizer).
  destruct (withFinalizer_spec p PolicyReconciler.policyFinalizer) as [Hspec Hstatus].
  fold p0 in Hspec, Hstatus.
  unfold DeepEqual, Policy.AppliedSpec. rewrite Hspec, Hstatus.
  fold (Policy.AppliedSpec p).
  rewrite bool_decide_eq_false_2 by congruence.
  unfold bind at 1, Log_Info at 1. unfold bind at 1.
  set (w0 := write_log (LogInfo "Reconciling") w).
  destruct (checkForExistingPolicy_runs r p0 w0)
    as (q & w1 & new1 & nl1 & Hcheck & Hg1 & Hs1 & Hdisc).
  rewrite Hcheck.
  assert (Hg0 : grows w w0 [] [LogInfo "Reconciling"]) by apply grows_write_log.
  pose proof (grows_trans _ _ _ _ _ _ _ Hg0 Hg1) as Hg01. cbn [app] in Hg01.
  assert (Hsync : exists res w' new2 nl2,
             (if negb (Z.eqb (Policy.PolicyID q) 0)
              then PolicyReconciler.updatePolicy env r q
              else PolicyReconciler.createPolicy env r q) w1 = (res, w')
             /\ grows w1 w' new2 nl2
             /\ sync_run (syncCall q) (syncAnswer r q (trace w1)) (syncSeen q)
                         q w1 w' res new2).
  { unfold syncCall, syncAnswer, syncSeen.
    destruct (Z.eqb (Policy.PolicyID q) 0); cbn [negb].
    - apply createPolicy_sync.
    - apply updatePolicy_sync. }
  destruct Hsync as (res & w' & new2 & nl2 & Hrun & Hg2 & Hstep).
  exists q, w1, new1, nl1, res, w', new2, nl2.
  split.
  - destruct (Z.eqb (Policy.PolicyID q) 0); cbn [negb] in *;
      unfold bind; rewrite Hrun; now destruct res as [[? [?|]]|].
  - repeat (split; [assumption|]). assumption.
Qed.

(** [Reconcile] returns early, having only read the store, or it runs the
    lifecycle on the policy stored under the requested name, with a key that
    is not blank and the client that the factory built. *)
Lemma Reconcile_cases env req w :
  exists res w',
    PolicyReconciler.Reconcile env req w = (res, w')
    /\ ((quiet w w'
         /\ (noop_result env EmptyString res
             \/ exists h k region e,
                 AlertClientFunc env h k region = inr e /\ res = Done (Some e)))
        \/ exists p r w1,
            policies w !! req = Some p
            /\ quiet w w1
            /\ AlertClientFunc env (trace w1) (apiKey r) (PolicySpec.Region (Policy.Spec p))
               = inl (Alerts r)
            /\ PolicyReconciler.Reconcile_lifecycle env r p w1 = (res, w')).
Proof.
  unfold PolicyReconciler.Reconcile. unfold bind at 1.
  destruct (Client_Get_Policy env req w) as [[[x [e|]]|msg] w1] eqn:Hget.
  - pose proof (policy_fetch_quiet _ _ _ _ _ _ Hget) as Hq.
    destruct (strings_Contains e " not found"); unfold_go;
      do 2 eexists; (split; [reflexivity|]); left;
      (split; [quiet_tac | left; now left]).
  - pose proof (policy_fetch_quiet _ _ _ _ _ _ Hget) as Hq.
    assert (Hx : policies w !! req = Some x).
    { unfold Client_Get_Policy in Hget. repeat case_match; simplify_eq; auto. }
    unfold bind, Log_Info.
    set (w2 := write_log (LogInfo "policy spec")
                 (write_log (LogInfo "Starting reconcile action") w1)).
    assert (Hq2 : quiet w w2) by (unfold w2; quiet_tac).
    destruct (policy_resolver_quiet env x w2) as (k & w3 & Hres & Hq3).
    pose proof (quiet_trans _ _ _ Hq2 Hq3) as Hq'.
    rewrite Hres.
    destruct (String.eqb k EmptyString).
    + do 2 eexists. split; [reflexivity|]. left.
      split; [assumption | left; right; now left].
    + destruct (AlertClientFunc env (trace w3) k (PolicySpec.Region (Policy.Spec x)))
        as [client|e] eqn:Hfactory.
      * destruct (PolicyReconciler.Reconcile_lifecycle env (mkReconciler k client) x w3)
          as [res w'] eqn:Hrun.
        do 2 eexists. split; [reflexivity|]. right.
        exists x, (mkReconciler k client), w3. repeat split; assumption.
      * unfold_go. do 2 eexists. split; [reflexivity|]. left.
        split; [quiet_tac | right; eauto 10].
  - unfold Client_Get_Policy in Hget. repeat case_match; simplify_eq.
Qed.

(** The four ways [Reconcile_lifecycle] can go. *)
Lemma lifecycle_view env r p w res w' :
  PolicyReconciler.Reconcile_lifecycle env r p w = (res, w') ->
  exists new nl,
    grows w w' new nl
    /\ ((ObjectMeta.DeletionTimestamp_IsZero (Policy.Meta p) = false
         /\ res = Done None /\ new = [] /\ store w' = store w)
        \/ (ObjectMeta.DeletionTimestamp_IsZero (Policy.Meta p) = false
            /\ exists res0,
                res = error_of res0
                /\ deletion_run p PolicyReconciler.policyFinalizer w w' res0 new nl)
        \/ (ObjectMeta.DeletionTimestamp_IsZero (Policy.Meta p) = true
            /\ Policy.AppliedSpec p = Some (Policy.Spec p)
            /\ res = Done None /\ new = [] /\ store w' = store w)
        \/ (ObjectMeta.DeletionTimestamp_IsZero (Policy.Meta p) = true
            /\ Policy.AppliedSpec p <> Some (Policy.Spec p)
            /\ exists q w1 new1 nl1 res0 new2 nl2,
                res = error_of res0
                /\ new = new1 ++ new2
                /\ discovery_run r (withFinalizer p PolicyReconciler.policyFinalizer)
                                 (trace w) q new1 nl1
                /\ grows w w1 new1 (LogInfo "Reconciling" :: nl1)
                /\ store w1 = store w
                /\ grows w1 w' new2 nl2
                /\ sync_run (syncCall q) (syncAnswer r q (trace w1)) (syncSeen q)
                            q w1 w' res0 new2)).
Proof.
  intros Hrun.
  destruct (lifecycle_runs env r p w) as (res1 & w1 & new & nl & Hrun1 & Hg & Hshape).
  rewrite Hrun in Hrun1. injection Hrun1 as <- <-.
  destruct Hshape as [nl Hdel Hstore | res0 new nl Hdel Hshape
                     | Hdel Happlied Hstore
                     | q w1 new1 nl1 res0 new2 nl2 Hdel Hneq _ _ _].
  - exists [], nl. split; [exact Hg|]. left. auto.
  - exists new, nl. split; [exact Hg|]. right. left. eauto.
  - exists [], []. split; [exact Hg|]. right. right. left. auto.
  - destruct (lifecycle_live env r p w Hdel Hneq)
      as (q' & w1' & new1' & nl1' & res' & w'' & new2' & nl2'
          & Hrun' & Hdisc & Hg1 & Hs1 & Hg2 & Hsync).
    rewrite Hrun in Hrun'. injection Hrun' as Hres <-.
    pose proof (grows_trans _ _ _ _ _ _ _ Hg1 Hg2) as Hg'.
    eexists _, _. split; [exact Hg'|]. right. right. right.
    split; [exact Hdel|]. split; [exact Hneq|].
    exists q', w1', new1', nl1', res', new2', nl2'. auto 10.
Qed.

Lemma discovery_run_keeps r p h q new nl :
  discovery_run r p h q new nl ->
  Policy.Meta q = Policy.Meta p /\ Policy.Spec q = Policy.Spec p
  /\ Policy.AppliedSpec q = Policy.AppliedSpec p
  /\ q = Policy.set_PolicyID (Policy.PolicyID q) p
  /\ Forall (fun ev => call ev = listCall p) new.
Proof.
  assert (Hid : forall p : Policy.t, p = Policy.set_PolicyID (Policy.PolicyID p) p)
    by (now intros [? ? []]).
  destruct 1 as [Hid0 | ps e nl Hid0 Hlist Hlog | ps nl Hid0 Hlist].
  - repeat split; auto.
  - repeat split; auto.
  - unfold adopt. destruct (PolicyReconciler.firstNamed _ ps); repeat split; auto.
Qed.

Lemma syncCall_is_mutation q : is_policy_mutation (syncCall q) = true.
Proof. unfold syncCall. now destruct (Z.eqb _ _). Qed.

Lemma policy_mutation_is_remote c : is_policy_mutation c = true -> is_remote c = true.
Proof. now destruct c. Qed.

Lemma policy_persisted_app (t1 t2 : list Event) :
  policy_persisted (t1 ++ t2) = policy_persisted t1 || policy_persisted t2.
Proof. apply existsb_app. Qed.

Lemma not_persisted (t : list Event) :
  Forall (fun ev => match call ev, failure ev with
                    | ClientUpdatePolicy _, None => False
                    | _, _ => True
                    end) t ->
  policy_persisted t = false.
Proof.
  induction 1 as [|[c e] rest Hev _ IH]; [reflexivity|].
  unfold policy_persisted in *. cbn [existsb]. rewrite IH.
  cbn in Hev |- *. now destruct c, e.
Qed.

Lemma no_writes_not_persisted (t : list Event) :
  store_writes t = [] -> policy_persisted t = false.
Proof.
  intros Hnone. apply not_persisted. apply Forall_forall. intros [c e] Hin.
  cbn. destruct c; try exact I. destruct e; [exact I|].
  assert (Hw : mkEvent (ClientUpdatePolicy policy) None ∈ store_writes t).
  { unfold store_writes. apply list_elem_of_filter. split; [reflexivity | exact Hin]. }
  rewrite Hnone in Hw. now apply elem_of_nil in Hw.
Qed.

Lemma quiet_not_persisted w w' : quiet w w' -> policy_persisted (new_events w w') = false.
Proof.
  intros (new & nl & Hg & _ & _ & Hwrites).
  rewrite (grows_new_events _ _ _ _ Hg). now apply no_writes_not_persisted.
Qed.

Lemma condition_writes_not_persisted (writes : list Event) :
  Forall (fun ev => is_condition_write (call ev) = true) writes ->
  policy_persisted writes = false.
Proof.
  intros H. apply not_persisted. eapply Forall_impl; [exact H|].
  intros [c e]. cbn. now destruct c.
Qed.

(** Of the runs of the synchronisation step, only the successful one holds
    a store update of the policy that went through. *)
Lemma sync_run_persisted c answer seen p w w' res new :
  is_remote c = true ->
  sync_run c answer seen p w w' res new ->
  policy_persisted new = true ->
  exists q, res = Done (q, None).
Proof.
  intros Hc Hrun.
  destruct Hrun as [a e Hans Hstore | a msg writes Hans Hcause Hpol Hwrites
                   | a q e cond Hans Hsome Hpol | a q e writes Hans Hsome Hpol Hwrites
                   | created q q0 writes Hans Hsome Hpol Happlied Hwrites].
  - cbn. destruct c; try discriminate; cbn; discriminate.
  - change (mkEvent c None :: writes) with ([mkEvent c None] ++ writes).
    rewrite policy_persisted_app, (condition_writes_not_persisted _ Hwrites).
    destruct c; try discriminate; cbn; discriminate.
  - destruct c; try discriminate; cbn; discriminate.
  - change (mkEvent c None :: writes ++ [mkEvent (ClientUpdatePolicy q) (Some e)])
      with ([mkEvent c None] ++ writes ++ [mkEvent (ClientUpdatePolicy q) (Some e)]).
    rewrite !policy_persisted_app, (condition_writes_not_persisted _ Hwrites).
    destruct c; try discriminate; cbn; discriminate.
  - eauto.
Qed.

Lemma withFinalizer_meta p fin :
  ObjectMeta.key (Policy.Meta (withFinalizer p fin)) = ObjectMeta.key (Policy.Meta p)
  /\ ObjectMeta.DeletionTimestamp_IsZero (Policy.Meta (withFinalizer p fin))
     = ObjectMeta.DeletionTimestamp_IsZero (Policy.Meta p).
Proof. unfold withFinalizer. now destruct (negb _). Qed.

Lemma list_calls_not_persisted p (new : list Event) :
  Forall (fun ev => call ev = listCall p) new -> policy_persisted new = false.
Proof.
  intros H. apply not_persisted. eapply Forall_impl; [exact H|].
  intros [c e]. cbn. now intros ->.
Qed.

(** What a policy [q] stored by the synchronisation step for [p0], the
    policy [p] after the finalizer check and discovery, keeps of [p]. *)
Lemma applied_keeps id p p0 q fin :
  Policy.Meta p0 = Policy.Meta (withFinalizer p fin) ->
  Policy.Spec p0 = Policy.Spec (withFinalizer p fin) ->
  applied id p0 q ->
  Policy.key q = Policy.key p
  /\ ObjectMeta.DeletionTimestamp_IsZero (Policy.Meta q)
     = ObjectMeta.DeletionTimestamp_IsZero (Policy.Meta p)
  /\ PolicySpec.APIKey (Policy.Spec q) = PolicySpec.APIKey (Policy.Spec p)
  /\ PolicySpec.APIKeySecret (Policy.Spec q) = PolicySpec.APIKeySecret (Policy.Spec p)
  /\ PolicySpec.Region (Policy.Spec q) = PolicySpec.Region (Policy.Spec p)
  /\ Policy.Finalizers q = Policy.Finalizers (withFinalizer p fin).
Proof.
  intros Hmeta Hspec (_ & _ & Hs & _ & Hm).
  destruct (withFinalizer_meta p fin) as [Hkey Hdel].
  destruct (withFinalizer_spec p fin) as [Hspec0 _].
  unfold Policy.key, Policy.Finalizers.
  rewrite Hm, Hs, Hmeta, Hspec, Hspec0, <- Hkey, <- Hdel.
  repeat split.
Qed.

(** X3.  A policy that is not being deleted and is stored under its own
    name: when an invocation of [Reconcile] holds a store update of the
    policy that went through, the invocation returns success, the stored
    policy has its [Status.AppliedSpec] equal to its [Spec], and from then
    on any number of invocations call nothing remote and write nothing. *)
Theorem persisted_policy_is_converged (env : Env) (req : NamespacedName.t)
    (p : Policy.t) (w w' : World) (res : outcome error) :
  PolicyReconciler.Reconcile env req w = (res, w') ->
  policies w !! req = Some p ->
  Policy.key p = req ->
  ObjectMeta.DeletionTimestamp_IsZero (Policy.Meta p) = true ->
  policy_persisted (new_events w w') = true ->
  res = Done None
  /\ (exists q, policies w' !! req = Some q
                /\ Policy.AppliedSpec q = Some (Policy.Spec q)
                /\ Policy.Finalizers q
                   = Policy.Finalizers (withFinalizer p PolicyReconciler.policyFinalizer))
  /\ converged_noop env (PolicyReconciler.Reconcile env req)
       (PolicySpec.APIKey (Policy.Spec p)) (PolicySpec.APIKeySecret (Policy.Spec p))
       (PolicySpec.Region (Policy.Spec p)) w'.
Proof.
  intros Hrun Hp Hkey Hdel Hpers.
  destruct (Reconcile_cases env req w) as (res1 & w1 & Hrun1 & Hcases).
  rewrite Hrun in Hrun1. injection Hrun1 as <- <-.
  destruct Hcases as [[Hq _] | (p' & r & w1 & Hp' & Hq & _ & Hlife)].
  { rewrite (quiet_not_persisted _ _ Hq) in Hpers. discriminate. }
  rewrite Hp in Hp'. injection Hp' as <-.
  destruct (lifecycle_view _ _ _ _ _ _ Hlife) as (new & nl & Hg & Hview).
  destruct Hq as (new0 & nl0 & Hg0 & Hs0 & _ & Hw0).
  pose proof (grows_trans _ _ _ _ _ _ _ Hg0 Hg) as Hgt.
  rewrite (grows_new_events _ _ _ _ Hgt), policy_persisted_app,
    (no_writes_not_persisted _ Hw0) in Hpers.
  cbn [orb] in Hpers.
  destruct Hview
    as [(Hd & _) | [(Hd & _) | [(_ & _ & _ & -> & _)
       | (_ & Hneq & q & w2 & new1 & nl1 & res0 & new2 & nl2
          & -> & -> & Hdisc & Hg1 & Hs1 & Hg2 & Hsync)]]];
    [congruence | congruence | discriminate |].
  destruct (discovery_run_keeps _ _ _ _ _ _ Hdisc) as (Hmeta & Hspec & _ & _ & Hlist).
  rewrite policy_persisted_app, (list_calls_not_persisted _ _ Hlist) in Hpers.
  cbn [orb] in Hpers.
  destruct (sync_run_persisted _ _ _ _ _ _ _ _
              (policy_mutation_is_remote _ (syncCall_is_mutation q)) Hsync Hpers)
    as [q' ->].
  apply sync_run_done in Hsync.
  destruct Hsync as (created & writes & q0 & _ & Hpol & Happlied & _ & _).
  destruct (applied_keeps _ _ _ _ _ Hmeta Hspec Happlied)
    as (Hkey' & Hdel' & Hapikey & Hsecret & Hregion & Hfin).
  assert (Hstored : policies w' !! req = Some q').
  { rewrite Hpol. unfold Policy.key. rewrite Hmeta.
    rewrite (proj1 (withFinalizer_meta p PolicyReconciler.policyFinalizer)).
    fold (Policy.key p). rewrite Hkey. apply lookup_insert_eq. }
  destruct Happlied as (_ & Hconv & _).
  split; [reflexivity|]. split; [eauto|].
  rewrite <- Hapikey, <- Hsecret, <- Hregion.
  apply (converged_noop_intro env _ _ _ _ (fun w0 => policies w0 !! req = Some q'));
    [|exact Hstored].
  intros w0 Hw0'.
  destruct (policy_converged_step env req q' w0 Hw0' ltac:(congruence) Hconv)
    as (r0 & w0' & Hstep & Hquiet & Hkeep & Hres).
  exists r0, w0'. auto.
Qed.

(** ** What an invocation never does *)

Lemma policy_mutations_app (t1 t2 : list Event) :
  policy_mutations (t1 ++ t2) = policy_mutations t1 ++ policy_mutations t2.
Proof. apply filter_app. Qed.

Lemma policy_mutations_none (t : list Event) :
  Forall (fun ev => is_policy_mutation (call ev) = false) t -> policy_mutations t = [].
Proof.
  induction 1 as [|ev rest Hev _ IH]; [reflexivity|].
  unfold policy_mutations in *. rewrite filter_cons, IH.
  destruct (decide _) as [Htrue|]; [congruence | reflexivity].
Qed.

Lemma not_remote_not_mutation (t : list Event) :
  Forall (fun ev => is_remote (call ev) = false) t ->
  Forall (fun ev => is_policy_mutation (call ev) = false) t.
Proof.
  intros H. eapply Forall_impl; [exact H|]. intros [c e]. cbn. now destruct c.
Qed.

Lemma no_remote_no_mutation (t : list Event) :
  remote_calls t = [] -> policy_mutations t = [].
Proof.
  intros Hnone. apply policy_mutations_none, Forall_forall. intros ev Hin.
  destruct (is_policy_mutation (call ev)) eqn:Hm; [|reflexivity].
  assert (Hr : ev ∈ remote_calls t).
  { unfold remote_calls. apply list_elem_of_filter.
    split; [now apply policy_mutation_is_remote | exact Hin]. }
  rewrite Hnone in Hr. now apply elem_of_nil in Hr.
Qed.

Lemma okDelete_not_mutation (l : list NrqlAlertCondition.t) :
  policy_mutations (map okDelete l) = [].
Proof.
  apply policy_mutations_none, Forall_forall. intros ev Hin.
  apply elem_of_okDelete in Hin. destruct Hin as [c ->]. reflexivity.
Qed.

Lemma deletion_run_mutations p fin w w' res new nl :
  deletion_run p fin w w' res new nl -> (length (policy_mutations new) <= 1)%nat.
Proof.
  destruct 1; rewrite ?policy_mutations_app, ?okDelete_not_mutation;
    unfold policy_mutations; rewrite ?filter_cons, ?filter_nil;
    repeat match goal with
           | |- context [decide ?P] =>
               let Hd := fresh "Hd" in
               destruct (decide P) as [Hd|Hd]; [try (cbn in Hd; discriminate)|];
               clear Hd
           end;
    cbn; lia.
Qed.

Lemma sync_run_mutations c answer seen p w w' res new :
  sync_run c answer seen p w w' res new -> (length (policy_mutations new) <= 1)%nat.
Proof.
  assert (Hone : forall (e : error) rest,
             Forall (fun ev => is_policy_mutation (call ev) = false) rest ->
             (length (policy_mutations (mkEvent c e :: rest)) <= 1)%nat).
  { intros e rest Hrest.
    change (mkEvent c e :: rest) with ([mkEvent c e] ++ rest).
    rewrite policy_mutations_app, (policy_mutations_none rest Hrest), app_nil_r.
    unfold policy_mutations. rewrite filter_cons, filter_nil.
    destruct (decide _); cbn; lia. }
  assert (Hwrites : forall writes,
             Forall (fun ev => is_condition_write (call ev) = true) writes ->
             Forall (fun ev => is_policy_mutation (call ev) = false) writes).
  { intros writes H. eapply Forall_impl; [exact H|]. intros [c0 e0]. cbn. now destruct c0. }
  destruct 1 as [a e Hans Hstore | a msg writes Hans Hcause Hpol Hw
                | a q e cond Hans Hsome Hpol | a q e writes Hans Hsome Hpol Hw
                | created q q0 writes Hans Hsome Hpol Happlied Hw];
    apply Hone.
  - constructor.
  - now apply Hwrites.
  - repeat constructor.
  - apply Forall_app. split; [now apply Hwrites | repeat constructor].
  - apply Forall_app. split; [|repeat constructor].
    apply Hwrites. now apply child_write_condition_write in Hw.
Qed.

(** X4.  One invocation of [Reconcile] issues at most one remote call that
    changes a policy (a create, an update or a delete), whatever the store
    and the remote system answer. *)
Theorem at_most_one_policy_mutation (env : Env) (req : NamespacedName.t) (w : World) :
  (length (policy_mutations
             (new_events w (snd (PolicyReconciler.Reconcile env req w)))) <= 1)%nat.
Proof.
  destruct (Reconcile_cases env req w) as (res & w' & Hrun & Hcases).
  rewrite Hrun. cbn [snd].
  destruct Hcases as [[Hq _] | (p & r & w1 & Hp & Hq & _ & Hlife)].
  { destruct Hq as (new & nl & Hg & _ & Hremote & _).
    rewrite (grows_new_events _ _ _ _ Hg), (no_remote_no_mutation _ Hremote). cbn. lia. }
  destruct (lifecycle_view _ _ _ _ _ _ Hlife) as (new & nl & Hg & Hview).
  destruct Hq as (new0 & nl0 & Hg0 & _ & Hremote & _).
  pose proof (grows_trans _ _ _ _ _ _ _ Hg0 Hg) as Hgt.
  rewrite (grows_new_events _ _ _ _ Hgt), policy_mutations_app,
    (no_remote_no_mutation _ Hremote).
  cbn [app].
  destruct Hview
    as [(_ & _ & -> & _) | [(_ & res0 & _ & Hshape) | [(_ & _ & _ & -> & _)
       | (_ & _ & q & w2 & new1 & nl1 & res0 & new2 & nl2
          & _ & -> & Hdisc & _ & _ & _ & Hsync)]]].
  - cbn. lia.
  - eapply deletion_run_mutations; eassumption.
  - cbn. lia.
  - destruct (discovery_run_keeps _ _ _ _ _ _ Hdisc) as (_ & _ & _ & _ & Hlist).
    rewrite policy_mutations_app, (policy_mutations_none new1).
    + eapply sync_run_mutations; eassumption.
    + eapply Forall_impl; [exact Hlist|]. intros [c e]. cbn. now intros ->.
Qed.

Lemma sync_run_no_delete c answer seen p w w' res new :
  is_delete c = false ->
  sync_run c answer seen p w w' res new ->
  Forall (fun ev => is_delete (call ev) = false) new.
Proof.
  intros Hc.
  assert (Hwrites : forall writes,
             Forall (fun ev => is_condition_write (call ev) = true) writes ->
             Forall (fun ev => is_delete (call ev) = false) writes).
  { intros writes H. eapply Forall_impl; [exact H|]. intros [c0 e0]. cbn. now destruct c0. }
  destruct 1 as [a e Hans Hstore | a msg writes Hans Hcause Hpol Hw
                | a q e cond Hans Hsome Hpol | a q e writes Hans Hsome Hpol Hw
                | created q q0 writes Hans Hsome Hpol Happlied Hw];
    (apply List.Forall_cons; [exact Hc|]).
  - constructor.
  - now apply Hwrites.
  - repeat constructor.
  - apply Forall_app. split; [now apply Hwrites | repeat constructor].
  - apply Forall_app. split; [|repeat constructor].
    apply Hwrites. now apply child_write_condition_write in Hw.
Qed.

Lemma syncCall_not_delete q : is_delete (syncCall q) = false.
Proof. unfold syncCall. now destruct (Z.eqb _ _). Qed.

Lemma quiet_no_delete w w' :
  quiet w w' -> exists new nl,
    grows w w' new nl /\ Forall (fun ev => is_delete (call ev) = false) new.
Proof.
  intros (new & nl & Hg & _ & Hremote & Hwrites).
  exists new, nl. split; [exact Hg|]. apply Forall_forall. intros [c e] Hin. cbn.
  destruct c; try reflexivity.
  - assert (Hw : mkEvent (ClientDeleteCondition condition) e ∈ store_writes new).
    { unfold store_writes. apply list_elem_of_filter. split; [reflexivity | exact Hin]. }
    rewrite Hwrites in Hw. now apply elem_of_nil in Hw.
  - assert (Hw : mkEvent (AlertsDeletePolicy id) e ∈ remote_calls new).
    { unfold remote_calls. apply list_elem_of_filter. split; [reflexivity | exact Hin]. }
    rewrite Hremote in Hw. now apply elem_of_nil in Hw.
  - assert (Hw : mkEvent (AlertsDeleteChannel id) e ∈ remote_calls new).
    { unfold remote_calls. apply list_elem_of_filter. split; [reflexivity | exact Hin]. }
    rewrite Hremote in Hw. now apply elem_of_nil in Hw.
Qed.

(** X5.  An invocation of [Reconcile] on a policy that is not being deleted
    deletes nothing: no condition resource in the store, no remote policy.
    In particular a condition that was removed from [Spec.Conditions] stays
    in the store. *)
Theorem live_policy_deletes_nothing (env : Env) (req : NamespacedName.t)
    (p : Policy.t) (w w' : World) (res : outcome error) :
  PolicyReconciler.Reconcile env req w = (res, w') ->
  policies w !! req = Some p ->
  ObjectMeta.DeletionTimestamp_IsZero (Policy.Meta p) = true ->
  Forall (fun ev => is_delete (call ev) = false) (new_events w w').
Proof.
  intros Hrun Hp Hdel.
  destruct (Reconcile_cases env req w) as (res1 & w1 & Hrun1 & Hcases).
  rewrite Hrun in Hrun1. injection Hrun1 as <- <-.
  destruct Hcases as [[Hq _] | (p' & r & w1 & Hp' & Hq & _ & Hlife)].
  { destruct (quiet_no_delete _ _ Hq) as (new & nl & Hg & Hnone).
    now rewrite (grows_new_events _ _ _ _ Hg). }
  rewrite Hp in Hp'. injection Hp' as <-.
  destruct (lifecycle_view _ _ _ _ _ _ Hlife) as (new & nl & Hg & Hview).
  destruct (quiet_no_delete _ _ Hq) as (new0 & nl0 & Hg0 & Hnone).
  pose proof (grows_trans _ _ _ _ _ _ _ Hg0 Hg) as Hgt.
  rewrite (grows_new_events _ _ _ _ Hgt).
  apply Forall_app. split; [exact Hnone|].
  destruct Hview
    as [(Hd & _) | [(Hd & _) | [(_ & _ & _ & -> & _)
       | (_ & _ & q & w2 & new1 & nl1 & res0 & new2 & nl2
          & _ & -> & Hdisc & _ & _ & _ & Hsync)]]];
    [congruence | congruence | constructor |].
  destruct (discovery_run_keeps _ _ _ _ _ _ Hdisc) as (_ & _ & _ & _ & Hlist).
  apply Forall_app. split.
  - eapply Forall_impl; [exact Hlist|]. intros [c e]. cbn. now intros ->.
  - eapply sync_run_no_delete; [apply syncCall_not_delete | exact Hsync].
Qed.

(** ** Failures of the store *)

Lemma elem_of_last_only {A : Type} (pre : list A) (x y : A) (P : A -> Prop) :
  Forall P pre -> ~ P x -> x ∈ pre ++ [y] -> x = y.
Proof.
  intros Hpre Hx Hin. apply elem_of_app in Hin. destruct Hin as [Hin|Hin].
  - rewrite Forall_forall in Hpre. now apply Hpre in Hin.
  - now apply list_elem_of_singleton in Hin.
Qed.

(** A failed store update of a policy in a run of the synchronisation
    step: it is the last call, its error is returned, the remote call went
    through and the stored policies are as before. *)
Lemma sync_run_failed_update c answer seen p w w' res new q e :
  is_remote c = true ->
  sync_run c answer seen p w w' res new ->
  mkEvent (ClientUpdatePolicy q) (Some e) ∈ new ->
  error_of res = Done (Some e)
  /\ policies w' = policies w
  /\ exists pre, new = mkEvent c None :: pre ++ [mkEvent (ClientUpdatePolicy q) (Some e)].
Proof.
  intros Hc Hrun Hin.
  assert (Hwrites : forall writes,
             Forall (fun ev => is_condition_write (call ev) = true) writes ->
             Forall (fun ev => ev <> mkEvent (ClientUpdatePolicy q) (Some e)) writes).
  { intros writes H. eapply Forall_impl; [exact H|]. intros [c0 e0]. cbn.
    intros Hcw Heq. injection Heq as -> ->. discriminate. }
  destruct Hrun as [a e0 Hans Hstore | a msg writes Hans Hcause Hpol Hw
                   | a q1 e0 cond Hans Hsome Hpol | a q1 e0 writes Hans Hsome Hpol Hw
                   | created q1 q0 writes Hans Hsome Hpol Happlied Hw];
    apply elem_of_cons in Hin; destruct Hin as [Hin|Hin];
    try (injection Hin as <- _; discriminate).
  - now apply elem_of_nil in Hin.
  - apply Hwrites in Hw. rewrite Forall_forall in Hw. now apply Hw in Hin.
  - apply list_elem_of_singleton in Hin. discriminate.
  - apply (elem_of_last_only _ _ _ (fun ev => ev <> mkEvent (ClientUpdatePolicy q) (Some e)))
      in Hin; [| now apply Hwrites | tauto].
    injection Hin as <- <-. cbn. split; [reflexivity|]. split; [exact Hpol|]. eauto.
  - apply (elem_of_last_only _ _ _ (fun ev => ev <> mkEvent (ClientUpdatePolicy q) (Some e)))
      in Hin; [| apply Hwrites; now apply child_write_condition_write in Hw | tauto].
    discriminate.
Qed.

Lemma deletion_run_failed_update p fin w w' res new nl q e :
  deletion_run p fin w w' res new nl ->
  mkEvent (ClientUpdatePolicy q) (Some e) ∈ new ->
  error_of res = Done (Some e)
  /\ policies w' = policies w
  /\ exists pre ev,
      new = pre ++ [ev; mkEvent (ClientUpdatePolicy q) (Some e)]
      /\ is_policy_mutation (call ev) = true /\ failure ev = None.
Proof.
  intros Hrun Hin.
  destruct Hrun; unfold failedDelete, remoteDelete in *; elem_cases Hin;
    unfold okDelete in *; try discriminate.
  injection Hin as <- <-. cbn. split; [reflexivity|]. split; [assumption|].
  eexists _, _. split; [reflexivity|]. split; reflexivity.
Qed.

(** X6.  When the store refuses the update of the policy object, the
    invocation of [Reconcile] returns that error; the refused update is its
    last call and comes after a remote create, update or delete of the
    policy that went through; the stored policies are as before, so the
    store does not record what was done remotely. *)
Theorem failed_policy_update_is_returned (env : Env) (req : NamespacedName.t)
    (w w' : World) (res : outcome error) (q : Policy.t) (e : GoError) :
  PolicyReconciler.Reconcile env req w = (res, w') ->
  mkEvent (ClientUpdatePolicy q) (Some e) ∈ new_events w w' ->
  res = Done (Some e)
  /\ policies w' = policies w
  /\ exists pre ev post,
      new_events w w' = pre ++ ev :: post ++ [mkEvent (ClientUpdatePolicy q) (Some e)]
      /\ is_policy_mutation (call ev) = true /\ failure ev = None.
Proof.
  intros Hrun Hin.
  destruct (Reconcile_cases env req w) as (res1 & w1 & Hrun1 & Hcases).
  rewrite Hrun in Hrun1. injection Hrun1 as <- <-.
  assert (Hquiet : forall w0 w1 new nl,
             grows w0 w1 new nl -> store_writes new = [] ->
             mkEvent (ClientUpdatePolicy q) (Some e) ∈ new -> False).
  { intros w0 w1 new nl _ Hnone Hel.
    assert (Hw : mkEvent (ClientUpdatePolicy q) (Some e) ∈ store_writes new).
    { unfold store_writes. apply list_elem_of_filter. split; [reflexivity | exact Hel]. }
    rewrite Hnone in Hw. now apply elem_of_nil in Hw. }
  destruct Hcases as [[Hq _] | (p & r & w1 & Hp & Hq & _ & Hlife)].
  { destruct Hq as (new & nl & Hg & _ & _ & Hwrites).
    rewrite (grows_new_events _ _ _ _ Hg) in Hin. now destruct (Hquiet _ _ _ _ Hg Hwrites). }
  destruct (lifecycle_view _ _ _ _ _ _ Hlife) as (new & nl & Hg & Hview).
  destruct Hq as (new0 & nl0 & Hg0 & Hs0 & _ & Hw0).
  assert (Hpol0 : policies w1 = policies w) by (unfold store in Hs0; congruence).
  pose proof (grows_trans _ _ _ _ _ _ _ Hg0 Hg) as Hgt.
  rewrite (grows_new_events _ _ _ _ Hgt) in *.
  apply elem_of_app in Hin. destruct Hin as [Hin|Hin];
    [now destruct (Hquiet _ _ _ _ Hg0 Hw0)|].
  destruct Hview
    as [(_ & _ & -> & _) | [(_ & res0 & -> & Hshape) | [(_ & _ & _ & -> & _)
       | (_ & _ & q1 & w2 & new1 & nl1 & res0 & new2 & nl2
          & -> & -> & Hdisc & _ & Hs1 & _ & Hsync)]]].
  - now apply elem_of_nil in Hin.
  - destruct (deletion_run_failed_update _ _ _ _ _ _ _ _ _ Hshape Hin)
      as (Hres & Hpol & pre & ev & -> & Hmut & Hok).
    split; [exact Hres|]. split; [congruence|].
    exists (new0 ++ pre), ev, []. rewrite <- app_assoc. auto.
  - now apply elem_of_nil in Hin.
  - destruct (discovery_run_keeps _ _ _ _ _ _ Hdisc) as (_ & _ & _ & _ & Hlist).
    apply elem_of_app in Hin. destruct Hin as [Hin|Hin].
    { rewrite Forall_forall in Hlist. apply Hlist in Hin. discriminate. }
    destruct (sync_run_failed_update _ _ _ _ _ _ _ _ _ _
                (policy_mutation_is_remote _ (syncCall_is_mutation q1)) Hsync Hin)
      as (Hres & Hpol & pre & ->).
    split; [exact Hres|]. split; [unfold store in Hs1; congruence|].
    exists (new0 ++ new1), (mkEvent (syncCall q1) None), pre.
    rewrite <- app_assoc. split; [reflexivity|].
    split; [apply syncCall_is_mutation | reflexivity].
Qed.

(** ** A policy that was never applied *)

Lemma sync_run_unapplied c answer seen p w w' res new :
  Policy.AppliedSpec p = None ->
  sync_run c answer seen p w w' res new ->
  policies w' = policies w
  /\ forall ev, ev ∈ new -> is_policy_mutation (call ev) = true ->
       match failure ev with
       | None => exists msg, error_of res = Panic msg
       | Some e => error_of res = Done (Some e)
       end.
Proof.
  intros Hnone Hrun.
  destruct Hrun as [a e Hans Hstore | a msg writes Hans Hcause Hpol Hw
                   | a q e cond Hans Hsome Hpol | a q e writes Hans Hsome Hpol Hw
                   | created q q0 writes Hans Hsome Hpol Happlied Hw];
    try contradiction.
  - split; [unfold store in Hstore; congruence|].
    intros ev Hin _. apply list_elem_of_singleton in Hin. subst ev. reflexivity.
  - split; [exact Hpol|].
    intros ev Hin Hmut. apply elem_of_cons in Hin. destruct Hin as [->|Hin].
    + cbn. eauto.
    + rewrite Forall_forall in Hw. apply Hw in Hin.
      destruct ev as [c0 e0]. cbn in *. now destruct c0.
Qed.

(** X7.  A policy whose [Status.AppliedSpec] is nil, as it is before the
    first synchronisation, and that is not being deleted: an invocation of
    [Reconcile] never writes it to the store; when its remote create or
    update goes through, the invocation panics on the nil pointer, and when
    the remote call fails, its error is returned. *)
Theorem unapplied_policy_is_not_synchronised (env : Env) (req : NamespacedName.t)
    (p : Policy.t) (w w' : World) (res : outcome error) :
  PolicyReconciler.Reconcile env req w = (res, w') ->
  policies w !! req = Some p ->
  Policy.AppliedSpec p = None ->
  ObjectMeta.DeletionTimestamp_IsZero (Policy.Meta p) = true ->
  policies w' = policies w
  /\ forall ev, ev ∈ new_events w w' -> is_policy_mutation (call ev) = true ->
       match failure ev with
       | None => exists msg, res = Panic msg
       | Some e => res = Done (Some e)
       end.
Proof.
  intros Hrun Hp Hnone Hdel.
  destruct (Reconcile_cases env req w) as (res1 & w1 & Hrun1 & Hcases).
  rewrite Hrun in Hrun1. injection Hrun1 as <- <-.
  destruct Hcases as [[Hq _] | (p' & r & w1 & Hp' & Hq & _ & Hlife)].
  { split; [pose proof (quiet_store _ _ Hq) as Hs; unfold store in Hs; congruence|].
    intros ev Hin Hmut. apply policy_mutation_is_remote in Hmut.
    rewrite (quiet_no_remote _ _ _ Hq Hin) in Hmut. discriminate. }
  rewrite Hp in Hp'. injection Hp' as <-.
  destruct (lifecycle_view _ _ _ _ _ _ Hlife) as (new & nl & Hg & Hview).
  assert (Hpol0 : policies w1 = policies w)
    by (pose proof (quiet_store _ _ Hq) as Hs; unfold store in Hs; congruence).
  destruct Hview
    as [(Hd & _) | [(Hd & _) | [(_ & Happlied & _) | (_ & _ & q & w2 & new1 & nl1 & res0
          & new2 & nl2 & -> & -> & Hdisc & _ & Hs1 & _ & Hsync)]]];
    [congruence | congruence | congruence |].
  destruct (discovery_run_keeps _ _ _ _ _ _ Hdisc) as (_ & _ & Happ & _ & Hlist).
  destruct (withFinalizer_spec p PolicyReconciler.policyFinalizer) as [_ Hstatus].
  assert (Hq_none : Policy.AppliedSpec q = None).
  { rewrite Happ. unfold Policy.AppliedSpec. rewrite Hstatus. exact Hnone. }
  destruct (sync_run_unapplied _ _ _ _ _ _ _ _ Hq_none Hsync) as [Hpol Hevents].
  split; [unfold store in Hs1; congruence|].
  intros ev Hin Hmut.
  assert (Hremote : is_remote (call ev) = true) by now apply policy_mutation_is_remote.
  apply (remote_after_quiet _ _ _ _ _ _ Hq Hg) in Hin; [|exact Hremote].
  apply elem_of_app in Hin. destruct Hin as [Hin|Hin].
  - rewrite Forall_forall in Hlist. apply Hlist in Hin. rewrite Hin in Hmut. discriminate.
  - exact (Hevents ev Hin Hmut).
Qed.

(** ** The condition step *)

(** X8.  A declared condition that carries a resource version and differs
    from the recorded one is written to the store as it is declared, and
    whatever the store answers, [createOrUpdateConditions] returns nil: the
    error of [r.Client.Update] is dropped, not even logged as an error. *)
Theorem condition_update_error_is_ignored (env : Env) (r : Reconciler) (p : Policy.t)
    (recorded : PolicySpec.t) (c c0 : NrqlAlertCondition.t)
    (rest rest0 : list NrqlAlertCondition.t) (w : World) :
  Policy.AppliedSpec p = Some recorded ->
  PolicySpec.Conditions (Policy.Spec p) = c :: rest ->
  NrqlAlertCondition.ResourceVersion c <> EmptyString ->
  PolicySpec.Conditions recorded = c0 :: rest0 ->
  c <> c0 ->
  exists q w',
    PolicyReconciler.createOrUpdateConditions env r p w = (Done (q, None), w')
    /\ new_events w w'
       = [mkEvent (ClientUpdateCondition c)
                  (storeFault env (trace w) (ClientUpdateCondition c))]
    /\ Forall (fun l => exists msg, l = LogInfo msg) (new_logs w w')
    /\ (storeFault env (trace w) (ClientUpdateCondition c) <> None ->
        store w' = store w /\ Policy.Spec q = Policy.Spec p).
Proof.
  intros Happlied Hconds Hversion Hrecorded Hneq.
  unfold PolicyReconciler.createOrUpdateConditions.
  rewrite Happlied. unfold_go. unfold DeepEqual.
  rewrite bool_decide_eq_false_2 by (rewrite Hconds, Hrecorded; congruence).
  rewrite Hconds. cbn [for_range].
  unfold PolicyReconciler.createOrUpdateConditions_body. unfold_go. world_simpl.
  apply String.eqb_neq in Hversion. rewrite Hversion. cbn [negb].
  rewrite Happlied, Hrecorded. cbn [lookup list_lookup]. unfold DeepEqual.
  rewrite bool_decide_eq_false_2 by assumption. cbn [negb]. world_simpl.
  destruct (storeFault env (trace w) (ClientUpdateCondition c)) as [e|] eqn:Hfault;
    world_simpl; do 2 eexists; (split; [reflexivity|]);
    (split; [apply new_events_app; reflexivity|]);
    (split; [erewrite new_logs_app by (cbn; rewrite <- !app_assoc; reflexivity);
             repeat constructor; eauto|]).
  - intros _. split; [reflexivity|].
    destruct p as [m [] st]. cbn in *. now subst.
  - intros Hcontra. now contradiction Hcontra.
Qed.

(** X9.  A declared condition that carries a resource version while no
    condition is recorded in [Status.AppliedSpec]: indexing the recorded
    conditions (line 195) is out of range, and [createOrUpdateConditions]
    panics before any call. *)
Theorem versioned_condition_without_record_panics (env : Env) (r : Reconciler)
    (p : Policy.t) (recorded : PolicySpec.t) (c : NrqlAlertCondition.t)
    (rest : list NrqlAlertCondition.t) (w : World) :
  Policy.AppliedSpec p = Some recorded ->
  PolicySpec.Conditions (Policy.Spec p) = c :: rest ->
  NrqlAlertCondition.ResourceVersion c <> EmptyString ->
  PolicySpec.Conditions recorded = [] ->
  exists w',
    PolicyReconciler.createOrUpdateConditions env r p w = (Panic "index out of range", w')
    /\ trace w' = trace w
    /\ store w' = store w.
Proof.
  intros Happlied Hconds Hversion Hrecorded.
  unfold PolicyReconciler.createOrUpdateConditions.
  rewrite Happlied. unfold_go. unfold DeepEqual.
  rewrite bool_decide_eq_false_2 by (rewrite Hconds, Hrecorded; congruence).
  rewrite Hconds. cbn [for_range].
  unfold PolicyReconciler.createOrUpdateConditions_body. unfold_go. world_simpl.
  apply String.eqb_neq in Hversion. rewrite Hversion. cbn [negb].
  rewrite Happlied, Hrecorded. cbn [lookup list_lookup].
  eexists. split; [reflexivity|]. split; reflexivity.
Qed.

(** X10.  The condition that [createCondition] creates can be read back:
    after a create that went through, the store holds the returned
    condition under the name of the policy followed by the hash of the
    specification as declared, in the namespace of the policy; it carries
    the labels, the region, the credentials and the identifier of the
    policy and a cleared status.  A create that failed leaves the store as
    it was and returns the error. *)
Theorem created_condition_round_trip (env : Env) (r : Reconciler) (p : Policy.t)
    (c c' : NrqlAlertCondition.t) (err : error) (w w' : World) :
  PolicyReconciler.createCondition env r p c w = (Done (c', err), w') ->
  new_events w w' = [mkEvent (ClientCreateCondition (childOf env p c)) err]
  /\ match err with
     | None =>
         conditions w'
           !! NamespacedName.mk (Policy.Namespace p)
                (String.append (Policy.Name p)
                   (sprintf_d (ComputeHash env (NrqlAlertCondition.Spec c))))
         = Some c'
         /\ c' = versioned (storeVersion env (trace w)) (childOf env p c)
         /\ NrqlAlertConditionSpec.ExistingPolicyID (NrqlAlertCondition.Spec c')
            = Policy.PolicyID p
         /\ NrqlAlertCondition.Status c'
            = NrqlAlertConditionStatus.mk (Some NrqlAlertConditionSpec.zero) 0
         /\ same_entities w w'
     | Some _ => store w' = store w /\ c' = childOf env p c
     end.
Proof.
  rewrite createCondition_childOf. unfold_go. world_simpl.
  destruct (storeFault env (trace w) (ClientCreateCondition (childOf env p c)))
    as [e|] eqn:Hfault; world_simpl; intros Hrun; injection Hrun as <- <- <-.
  - split; [apply new_events_app; reflexivity|]. split; reflexivity.
  - split; [apply new_events_app; reflexivity|].
    split; [apply lookup_insert_eq|]. repeat split.
Qed.

(** X11.  [updateCondition] does what [createCondition] does: it issues a
    create on the store, never an update. *)
Theorem updateCondition_creates (env : Env) (r : Reconciler) (p : Policy.t)
    (c : NrqlAlertCondition.t) (w : World) :
  PolicyReconciler.updateCondition env r p c = PolicyReconciler.createCondition env r p c
  /\ exists err,
      new_events w (snd (PolicyReconciler.updateCondition env r p c w))
      = [mkEvent (ClientCreateCondition (childOf env p c)) err].
Proof.
  split; [reflexivity|].
  change (PolicyReconciler.updateCondition env r p c)
    with (PolicyReconciler.createCondition env r p c).
  rewrite createCondition_childOf. unfold_go. world_simpl.
  destruct (storeFault env (trace w) (ClientCreateCondition (childOf env p c)));
    eexists; apply new_events_app; reflexivity.
Qed.



(** ** Deletion *)

(** X13.  [deletePolicy] on a policy that does not carry the finalizer
    does nothing, even when the policy has a remote identifier and recorded
    conditions: no call, the store as it was, success. *)
Theorem deletion_without_finalizer_is_skipped (env : Env) (r : Reconciler)
    (p : Policy.t) (fin : string) (w : World) :
  containsString (Policy.Finalizers p) fin = false ->
  exists w',
    PolicyReconciler.deletePolicy env r p fin w = (Done (p, None), w')
    /\ trace w' = trace w
    /\ store w' = store w.
Proof.
  intros Hfin. unfold PolicyReconciler.deletePolicy. rewrite Hfin. unfold_go.
  eexists. split; [reflexivity|]. split; reflexivity.
Qed.

(** The loop of [deletePolicy], when it ends without error: the recorded
    conditions are gone from the store, and nothing else is. *)
Lemma deletePolicy_loop_store env (conds : list NrqlAlertCondition.t) :
  forall i w w',
    for_range (PolicyReconciler.deletePolicy_body env) i conds tt w = (Done (tt, None), w') ->
    (forall c, c ∈ conds -> conditions w' !! NrqlAlertCondition.key c = None)
    /\ (forall k, conditions w !! k = None -> conditions w' !! k = None)
    /\ (forall k, Forall (fun c => NrqlAlertCondition.key c <> k) conds ->
                  conditions w' !! k = conditions w !! k)
    /\ same_entities w w'.
Proof.
  induction conds as [|x rest IH]; intros i w w' Hrun.
  - cbn in Hrun. unfold ret in Hrun. injection Hrun as <-.
    split; [|split; [|split]]; auto using same_entities_refl.
    intros c Hin. now apply elem_of_nil in Hin.
  - cbn [for_range] in Hrun.
    unfold PolicyReconciler.deletePolicy_body at 1 in Hrun.
    unfold PolicyReconciler.deleteCondition in Hrun.
    unfold_go. world_simpl.
    destruct (storeFault env (trace w) (ClientDeleteCondition x)) as [e|];
      world_simpl; [discriminate|].
    apply IH in Hrun. world_simpl.
    destruct Hrun as (Hgone & Hnone & Hkeep & Hsame).
    split; [|split; [|split]].
    + intros c Hin. apply elem_of_cons in Hin. destruct Hin as [->|Hin]; [|now apply Hgone].
      apply Hnone. apply lookup_delete_eq.
    + intros k Hk. apply Hnone. rewrite lookup_delete_None. now right.
    + intros k Hall. apply Forall_cons in Hall. destruct Hall as [Hx Hall].
      rewrite (Hkeep k Hall). now apply lookup_delete_ne.
    + exact Hsame.
Qed.

(** X14.  When [deletePolicy] returns nil for a policy with the finalizer
    and a remote identifier, every condition recorded in
    [Status.AppliedSpec] is gone from the store and no other condition is;
    the policy is stored under its key with the finalizer removed, its
    specification and status as before. *)
Theorem deletion_removes_children (env : Env) (r : Reconciler) (p q : Policy.t)
    (fin : string) (w w' : World) :
  containsString (Policy.Finalizers p) fin = true ->
  Policy.PolicyID p <> 0 ->
  PolicyReconciler.deletePolicy env r p fin w = (Done (q, None), w') ->
  (forall c, c ∈ recordedConditions p ->
             conditions w' !! NrqlAlertCondition.key c = None)
  /\ (forall k, Forall (fun c => NrqlAlertCondition.key c <> k) (recordedConditions p) ->
                conditions w' !! k = conditions w !! k)
  /\ policies w' !! Policy.key p = Some q
  /\ Policy.Finalizers q = removeString (Policy.Finalizers p) fin
  /\ Policy.Spec q = Policy.Spec p
  /\ Policy.Status q = Policy.Status p.
Proof.
  intros Hfin Hid. unfold PolicyReconciler.deletePolicy. rewrite Hfin.
  apply Z.eqb_neq in Hid. rewrite Hid. unfold recordedConditions.
  destruct (Policy.AppliedSpec p) as [recorded|]; [|unfold_go; discriminate].
  unfold PolicyReconciler.deleteNewRelicAlertPolicy. unfold_go.
  destruct (for_range (PolicyReconciler.deletePolicy_body env) 0 (PolicySpec.Conditions recorded) tt w)
    as [[[[] [e|]]|msg] w1] eqn:Hloop; [discriminate | | discriminate].
  apply deletePolicy_loop_store in Hloop.
  destruct Hloop as (Hgone & _ & Hkeep & Hpol & _).
  world_simpl. intros Hrun. go_cases.
  split; [exact Hgone|]. split; [exact Hkeep|].
  split; [rewrite Hpol; apply lookup_insert_eq|]. repeat split.
Qed.

(** ** The channel reconciler *)

(** X15.  What [deleteAlertsChannel] returns is the error of the store
    update alone: the update of the channel with the finalizer stripped is
    its last call, made whatever the remote delete returned, and when it
    goes through the channel is stored without the finalizer even if the
    remote delete failed.  The remote delete is called only for a channel
    with an identifier. *)
Theorem channel_delete_returns_store_error (env : Env) (r : Reconciler)
    (c c' : AlertsChannel.t) (fin : string) (err : error) (w w' : World) :
  AlertsChannelReconciler.deleteAlertsChannel env r c fin w = (Done (c', err), w') ->
  (exists pre,
      new_events w w' = pre ++ [mkEvent (ClientUpdateChannel (strippedChannel c fin)) err]
      /\ if Z.eqb (AlertsChannel.ChannelID c) 0 then pre = []
         else exists e, pre = [mkEvent (AlertsDeleteChannel (AlertsChannel.ChannelID c)) e])
  /\ match err with
     | None =>
         channels w' !! AlertsChannel.key c = Some c'
         /\ AlertsChannel.Finalizers c' = removeString (AlertsChannel.Finalizers c) fin
     | Some _ => store w' = store w
     end.
Proof.
  unfold AlertsChannelReconciler.deleteAlertsChannel.
  fold (strippedChannel c fin). unfold_go. world_simpl.
  destruct (Z.eqb (AlertsChannel.ChannelID c) 0) eqn:Hid; cbn [negb]; world_simpl.
  - destruct (storeFault env (trace w) (ClientUpdateChannel (strippedChannel c fin)))
      as [e|] eqn:Hfault; world_simpl; intros Hrun; injection Hrun as <- <- <-;
      world_simpl.
    + split; [|reflexivity]. exists []. split; [|reflexivity].
      apply new_events_app. reflexivity.
    + split; [|split; [apply lookup_insert_eq | reflexivity]].
      exists []. split; [|reflexivity]. apply new_events_app. reflexivity.
  - destruct (NewRelicAlertsClient.DeleteChannel (Alerts r) (trace w)
                (AlertsChannel.ChannelID c)) as [deleted remoteErr] eqn:Hdelete.
    assert (Hpre : forall w1 : World,
               trace w1
               = (trace w ++ [mkEvent (AlertsDeleteChannel (AlertsChannel.ChannelID c))
                                      remoteErr])
                 ++ [mkEvent (ClientUpdateChannel (strippedChannel c fin)) err] ->
               exists pre,
                 new_events w w1
                 = pre ++ [mkEvent (ClientUpdateChannel (strippedChannel c fin)) err]
                 /\ exists e, pre = [mkEvent (AlertsDeleteChannel (AlertsChannel.ChannelID c)) e]).
    { intros w1 Hw1. eexists. split; [|eexists; reflexivity].
      apply new_events_app. rewrite Hw1, <- app_assoc. reflexivity. }
    destruct remoteErr as [remoteErr|]; world_simpl;
      match goal with
      | |- context [storeFault env ?h ?call] =>
          destruct (storeFault env h call) as [e|] eqn:Hfault
      end; world_simpl; intros Hrun; injection Hrun as <- <- <-; world_simpl;
      (split; [apply Hpre; reflexivity|]);
      first [reflexivity | split; [apply lookup_insert_eq | reflexivity]].
Qed.

(** X16.  A channel that is being deleted, has no remote identifier and
    whose specification is not the applied one: once the store has taken
    the update that strips the finalizer, [Reconcile] does not return but
    goes on to the synchronisation and creates the channel remotely. *)
Theorem deleted_channel_without_identifier_is_created (env : Env) (r : Reconciler)
    (c : AlertsChannel.t) (w : World) :
  ObjectMeta.DeletionTimestamp_IsZero (AlertsChannel.Meta c) = false ->
  AlertsChannel.ChannelID c = 0 ->
  AlertsChannel.AppliedSpec c <> Some (AlertsChannel.Spec c) ->
  storeFault env (trace w)
    (ClientUpdateChannel (strippedChannel c AlertsChannelReconciler.channelFinalizer)) = None ->
  exists err rest,
    new_events w (snd (AlertsChannelReconciler.Reconcile_lifecycle env r c w))
    = mkEvent (ClientUpdateChannel
                 (strippedChannel c AlertsChannelReconciler.channelFinalizer)) None
        :: mkEvent (AlertsCreateChannel
                      (AlertsChannelSpec_APIChannel (AlertsChannel.Spec c))) err
        :: rest.
Proof.
  intros Hdel Hid Hneq Hfault.
  unfold AlertsChannelReconciler.Reconcile_lifecycle. rewrite Hdel.
  unfold AlertsChannelReconciler.deleteAlertsChannel.
  fold (strippedChannel c AlertsChannelReconciler.channelFinalizer).
  rewrite Hid. cbn [Z.eqb negb]. unfold_go. world_simpl. rewrite Hfault. world_simpl.
  match goal with
  | |- context [AlertsChannelReconciler.Reconcile_sync env r ?c1 ?w1] =>
      destruct (channel_sync_runs env r c1 w1) as (res & w' & new & nl & Hrun & Hg & _ & Hshape);
      rewrite Hrun; cbn [snd];
      assert (Hg0 : grows w w1
                      [mkEvent (ClientUpdateChannel
                                  (strippedChannel c AlertsChannelReconciler.channelFinalizer))
                               None]
                      [LogInfo "Deleting AlertsChannel"]) by grows_tac
  end.
  pose proof (grows_trans _ _ _ _ _ _ _ Hg0 Hg) as Hgt.
  rewrite (grows_new_events _ _ _ _ Hgt). cbn [app].
  destruct Hshape as [Hconv | nl Hneq' Hid' | e nl Hid' Hlog | res rest nl Hid' Hrest].
  - contradiction Hneq.
  - contradiction Hid'.
  - eauto.
  - eauto.
Qed.

(** X17.  When [createAlertsChannel] returns nil, the remote create
    answered a channel whose identifier is the [Status.ChannelID] of the
    channel now stored under the key of the channel handed in, with
    [Status.AppliedSpec] equal to the unchanged [Spec]; the synchronisation
    of the stored channel then has nothing to do. *)
Theorem createAlertsChannel_success_state (env : Env) (r : Reconciler)
    (c c' : AlertsChannel.t) (w w' : World) :
  AlertsChannelReconciler.createAlertsChannel env r c w = (Done (c', None), w') ->
  exists created,
    NewRelicAlertsClient.CreateChannel (Alerts r) (trace w)
      (AlertsChannelSpec_APIChannel (AlertsChannel.Spec c)) = (Some created, None)
    /\ AlertsChannel.ChannelID c' = alerts.ChannelID created
    /\ AlertsChannel.AppliedSpec c' = Some (AlertsChannel.Spec c')
    /\ AlertsChannel.Spec c' = AlertsChannel.Spec c
    /\ channels w' !! AlertsChannel.key c = Some c'
    /\ AlertsChannelReconciler.Reconcile_sync env r c' w' = (Done None, w').
Proof.
  unfold AlertsChannelReconciler.createAlertsChannel. unfold_go. world_simpl.
  destruct (NewRelicAlertsClient.CreateChannel (Alerts r) (trace w)
              (AlertsChannelSpec_APIChannel (AlertsChannel.Spec c)))
    as [[created|] [e|]] eqn:Hcreate; world_simpl; try discriminate.
  intros Hrun. go_cases.
  exists created. split; [reflexivity|]. repeat split.
  - apply lookup_insert_eq.
  - unfold AlertsChannelReconciler.Reconcile_sync, DeepEqual.
    now rewrite bool_decide_eq_true_2.
Qed.

(** ** The client factory and the resolvers *)


(** X19.  The two credential resolvers agree: for a policy and a channel
    with the same inline key and the same secret reference they return the
    same key after the same calls, leaving the store as it was.  (They
    differ in what they log: the one of the policy logs the result of the
    fetch of the secret even when it is nil.) *)
Theorem resolvers_agree (env : Env) (p : Policy.t) (c : AlertsChannel.t) (w : World) :
  PolicySpec.APIKey (Policy.Spec p) = AlertsChannelSpec.APIKey (AlertsChannel.Spec c) ->
  PolicySpec.APIKeySecret (Policy.Spec p)
  = AlertsChannelSpec.APIKeySecret (AlertsChannel.Spec c) ->
  let policy_run := PolicyReconciler.getAPIKeyOrSecret env p w in
  let channel_run := AlertsChannelReconciler.getAPIKeyOrSecret env c w in
  fst policy_run = fst channel_run
  /\ trace (snd policy_run) = trace (snd channel_run)
  /\ store (snd policy_run) = store w
  /\ store (snd channel_run) = store w.
Proof.
  intros Hkey Hsecret. cbv zeta.
  unfold PolicyReconciler.getAPIKeyOrSecret, AlertsChannelReconciler.getAPIKeyOrSecret.
  rewrite <- Hkey, <- Hsecret. unfold_go. world_simpl.
  go_cases; cbn [fst snd]; world_simpl; repeat split.
  all: cbn; now rewrite ?lookup_empty.
Qed.

(** ** Discovery leaves the rest alone *)

(** X20.  [checkForExistingPolicy] changes nothing of the policy but
    [Status.PolicyID], never touches the store, and calls at most the list,
    once; for a policy that has an identifier it calls nothing and changes
    nothing. *)
Theorem discovery_changes_only_the_identifier (r : Reconciler) (p : Policy.t) (w : World) :
  exists q w',
    PolicyReconciler.checkForExistingPolicy r p w = (Done q, w')
    /\ q = Policy.set_PolicyID (Policy.PolicyID q) p
    /\ store w' = store w
    /\ (length (new_events w w') <= 1)%nat
    /\ Forall (fun ev => call ev = listCall p) (new_events w w')
    /\ (Policy.PolicyID p <> 0 -> q = p /\ new_events w w' = []).
Proof.
  destruct (checkForExistingPolicy_runs r p w)
    as (q & w' & new & nl & Hrun & Hg & Hstore & Hdisc).
  exists q, w'. split; [exact Hrun|].
  rewrite (grows_new_events _ _ _ _ Hg).
  destruct (discovery_run_keeps _ _ _ _ _ _ Hdisc) as (_ & _ & _ & Hq & Hlist).
  split; [exact Hq|]. split; [exact Hstore|].
  split; [|split; [exact Hlist|]].
  - destruct Hdisc; cbn; lia.
  - intros Hid. destruct Hdisc; [now split | contradiction | contradiction].
Qed.

(** ** Panics *)

(** X21.  [Reconcile] returns, it does not panic, when the clients that
    the factory builds answer a create or an update of a policy with a
    policy or with an error, and the policy stored under the requested name
    has a non-nil [Status.AppliedSpec] and a first declared condition
    without resource version. *)
Theorem Reconcile_returns (env : Env) (req : NamespacedName.t) (w : World) :
  (forall h k region client,
      AlertClientFunc env h k region = inl client -> answers_policy client) ->
  (forall p, policies w !! req = Some p ->
             Policy.AppliedSpec p <> None /\ first_condition_is_new p) ->
  exists err, fst (PolicyReconciler.Reconcile env req w) = Done err.
Proof.
  intros Hclients Hstored.
  destruct (Reconcile_cases env req w) as (res & w' & Hrun & Hcases).
  rewrite Hrun. cbn [fst].
  destruct Hcases as [[_ Hearly] | (p & r & w1 & Hp & _ & Hfactory & Hlife)].
  { destruct Hearly as [[-> | [-> | (h & k & e & _ & ->)]] | (h & k & region & e & _ & ->)];
      eauto. }
  destruct (Hstored p Hp) as [Happlied Hfirst].
  apply Hclients in Hfactory. destruct Hfactory as [Hcreate Hupdate].
  destruct (lifecycle_view _ _ _ _ _ _ Hlife) as (new & nl & _ & Hview).
  destruct Hview
    as [(_ & -> & _) | [(_ & res0 & -> & Hshape) | [(_ & _ & -> & _)
       | (_ & _ & q & w2 & new1 & nl1 & res0 & new2 & nl2
          & -> & _ & Hdisc & _ & _ & _ & Hsync)]]]; eauto.
  - destruct Hshape; cbn; eauto. contradiction.
  - destruct (discovery_run_keeps _ _ _ _ _ _ Hdisc) as (_ & Hspec & Happ & _ & _).
    destruct (withFinalizer_spec p PolicyReconciler.policyFinalizer) as [Hspec0 Hstatus0].
    destruct Hsync as [a e Hans Hstore | a msg writes Hans Hcause Hpol Hw
                      | a q1 e cond Hans Hsome Hpol | a q1 e writes Hans Hsome Hpol Hw
                      | created q1 q0 writes Hans Hsome Hpol Happlied' Hw];
      cbn; eauto.
    exfalso. destruct Hcause as [-> | [Hnone | (cond & rest & Hconds & Hversion)]].
    + unfold syncAnswer in Hans. destruct (Z.eqb (Policy.PolicyID q) 0).
      * now apply Hcreate in Hans.
      * now apply Hupdate in Hans.
    + apply Happlied. rewrite <- Hnone, Happ. unfold Policy.AppliedSpec. now rewrite Hstatus0.
    + apply Hversion. apply (Hfirst cond rest). now rewrite <- Hspec0, <- Hspec.
Qed.

(** ** Discovery *)

Lemma firstNamed_first name (ps : list alerts.Policy) :
  (exists m, m ∈ ps /\ alerts.Name m = name) ->
  exists m pre post,
    ps = pre ++ m :: post
    /\ Forall (fun x => alerts.Name x <> name) pre
    /\ alerts.Name m = name
    /\ PolicyReconciler.firstNamed name ps = Some m.
Proof.
  induction ps as [|x rest IH]; intros (m & Hin & Hname).
  - now apply elem_of_nil in Hin.
  - cbn [PolicyReconciler.firstNamed].
    destruct (String.eqb (alerts.Name x) name) eqn:Hx.
    + apply String.eqb_eq in Hx. exists x, [], rest. repeat split; auto.
    + apply String.eqb_neq in Hx.
      apply elem_of_cons in Hin. destruct Hin as [->|Hin]; [contradiction|].
      destruct IH as (m' & pre & post & -> & Hpre & Hname' & Hfirst); [eauto|].
      exists m', (x :: pre), post. repeat split; auto.
Qed.

Lemma sync_run_shape c answer seen p w w' res new :
  sync_run c answer seen p w w' res new ->
  exists err rest,
    new = mkEvent c err :: rest
    /\ Forall (fun ev => is_remote (call ev) = false) rest.
Proof.
  assert (Hwrites : forall writes,
             Forall (fun ev => is_condition_write (call ev) = true) writes ->
             Forall (fun ev => is_remote (call ev) = false) writes)
    by apply condition_write_not_remote.
  destruct 1 as [a e Hans Hstore | a msg writes Hans Hcause Hpol Hw
                | a q e cond Hans Hsome Hpol | a q e writes Hans Hsome Hpol Hw
                | created q q0 writes Hans Hsome Hpol Happlied Hw];
    eexists _, _; (split; [reflexivity|]).
  - constructor.
  - now apply Hwrites.
  - repeat constructor.
  - apply Forall_app. split; [now apply Hwrites | repeat constructor].
  - apply Forall_app. split; [|repeat constructor].
    apply Hwrites. now apply child_write_condition_write in Hw.
Qed.

Lemma sync_run_not_done c answer seen p w w' res new :
  sync_run c answer seen p w w' res new ->
  error_of res <> Done None ->
  policies w' = policies w.
Proof.
  destruct 1 as [a e Hans Hstore | a msg writes Hans Hcause Hpol Hw
                | a q e cond Hans Hsome Hpol | a q e writes Hans Hsome Hpol Hw
                | created q q0 writes Hans Hsome Hpol Happlied Hw];
    intros Hres; try assumption.
  - unfold store in Hstore. congruence.
  - now contradiction Hres.
Qed.

(** C8.  Discovery.  A policy without identifier whose reconciliation
    reaches the discovery step, and for which the remote list returns
    policies of which some have its name, their identifiers not being the
    unassigned 0: [checkForExistingPolicy] adopts into [Status.PolicyID]
    the identifier of the first listed policy of that name.  The invocation
    then takes the update path: its calls are the list, the remote update
    carrying the adopted identifier, and calls of the store; nothing is
    created remotely.  When the invocation succeeds, the policy in the
    store has the identifier that the remote update answered for the
    adopted one, and its [Status.AppliedSpec] is its [Spec]; when it does
    not succeed, the stored policies are as before. *)
Theorem discovery_adopts_first_match (env : Env) (r : Reconciler) (p : Policy.t)
    (w : World) (ps : list alerts.Policy) :
  Policy.PolicyID p = 0 ->
  ObjectMeta.DeletionTimestamp_IsZero (Policy.Meta p) = true ->
  Policy.AppliedSpec p <> Some (Policy.Spec p) ->
  NewRelicAlertsClient.ListPolicies (Alerts r) (trace w)
    (alerts.mkListPoliciesParams (PolicySpec.Name (Policy.Spec p))) = (ps, None) ->
  (exists m, m ∈ ps /\ alerts.Name m = PolicySpec.Name (Policy.Spec p)) ->
  (forall m, m ∈ ps -> alerts.Name m = PolicySpec.Name (Policy.Spec p) ->
             alerts.ID m <> 0) ->
  exists m pre post,
    ps = pre ++ m :: post
    /\ Forall (fun x => alerts.Name x <> PolicySpec.Name (Policy.Spec p)) pre
    /\ alerts.Name m = PolicySpec.Name (Policy.Spec p)
    /\ (exists w1,
           PolicyReconciler.checkForExistingPolicy r p w
           = (Done (Policy.set_PolicyID (alerts.ID m) p), w1))
    /\ let sent := alerts.set_ID (alerts.ID m) (PolicySpec_APIPolicy (Policy.Spec p)) in
       let res := fst (PolicyReconciler.Reconcile_lifecycle env r p w) in
       let w' := snd (PolicyReconciler.Reconcile_lifecycle env r p w) in
       (exists err rest,
           new_events w w'
           = mkEvent (listCall p) None :: mkEvent (AlertsUpdatePolicy sent) err :: rest
           /\ Forall (fun ev => is_remote (call ev) = false) rest)
       /\ remote_creates (new_events w w') = []
       /\ (res = Done None ->
           exists q updated,
             NewRelicAlertsClient.UpdatePolicy (Alerts r)
               (trace w ++ [mkEvent (listCall p) None]) sent = (Some updated, None)
             /\ policies w' !! Policy.key p = Some q
             /\ Policy.PolicyID q = alerts.ID updated
             /\ Policy.AppliedSpec q = Some (Policy.Spec q))
       /\ (res <> Done None -> policies w' = policies w).
Proof.
  intros Hid Hdel Hneq Hlist Hsome Hnonzero.
  destruct (firstNamed_first _ _ Hsome) as (m & pre & post & Hps & Hpre & Hname & Hfirst).
  assert (Hm : alerts.ID m <> 0).
  { apply Hnonzero; [|exact Hname]. rewrite Hps. apply elem_of_app. right.
    apply list_elem_of_here. }
  exists m, pre, post. split; [exact Hps|]. split; [exact Hpre|]. split; [exact Hname|].
  split.
  { destruct (checkForExistingPolicy_runs r p w)
      as (q & w1 & new & nl & Hrun & _ & _ & Hdisc).
    exists w1. rewrite Hrun. do 2 f_equal.
    destruct Hdisc as [Hskip | ps' e nl _ Hlist' _ | ps' nl _ Hlist'].
    - contradiction.
    - rewrite Hlist in Hlist'. discriminate.
    - rewrite Hlist in Hlist'. simplify_eq. unfold adopt. now rewrite Hfirst. }
  cbv zeta.
  destruct (lifecycle_live env r p w Hdel Hneq)
    as (q & w1 & new1 & nl1 & res0 & w' & new2 & nl2
        & Hrun & Hdisc & Hg1 & Hs1 & Hg2 & Hsync).
  rewrite Hrun. cbn [fst snd].
  set (p0 := withFinalizer p PolicyReconciler.policyFinalizer) in *.
  assert (Hid0 : Policy.PolicyID p0 = 0) by (unfold p0; now rewrite withFinalizer_PolicyID).
  assert (Hname0 : PolicySpec.Name (Policy.Spec p0) = PolicySpec.Name (Policy.Spec p))
    by apply withFinalizer_Name.
  destruct (withFinalizer_spec p PolicyReconciler.policyFinalizer) as [Hspec0 _].
  fold p0 in Hspec0.
  assert (Hlc : listCall p0 = listCall p) by (unfold listCall; now rewrite Hname0).
  assert (Hq : q = Policy.set_PolicyID (alerts.ID m) p0 /\ new1 = [mkEvent (listCall p) None]).
  { destruct Hdisc as [Hskip | ps' e nl1 _ Hlist' _ | ps' nl1 _ Hlist'].
    - contradiction.
    - rewrite Hname0, Hlist in Hlist'. discriminate.
    - rewrite Hname0, Hlist in Hlist'. injection Hlist' as <-.
      unfold adopt. rewrite Hname0, Hfirst, Hlc. now split. }
  destruct Hq as [-> ->].
  assert (Hcall : syncCall (Policy.set_PolicyID (alerts.ID m) p0)
                  = AlertsUpdatePolicy
                      (alerts.set_ID (alerts.ID m) (PolicySpec_APIPolicy (Policy.Spec p)))).
  { unfold syncCall. cbn. apply Z.eqb_neq in Hm. rewrite Hm. now rewrite Hspec0. }
  assert (Hanswer : syncAnswer r (Policy.set_PolicyID (alerts.ID m) p0) (trace w1)
                    = NewRelicAlertsClient.UpdatePolicy (Alerts r)
                        (trace w ++ [mkEvent (listCall p) None])
                        (alerts.set_ID (alerts.ID m) (PolicySpec_APIPolicy (Policy.Spec p)))).
  { unfold syncAnswer. cbn. apply Z.eqb_neq in Hm. rewrite Hm, Hspec0.
    now rewrite (proj1 Hg1). }
  rewrite Hcall, Hanswer in Hsync.
  pose proof (grows_trans _ _ _ _ _ _ _ Hg1 Hg2) as Hg.
  rewrite (grows_new_events _ _ _ _ Hg).
  destruct (sync_run_shape _ _ _ _ _ _ _ _ Hsync) as (err & rest & -> & Hrest).
  assert (Hpol1 : policies w1 = policies w) by (unfold store in Hs1; congruence).
  split; [eauto|]. split; [|split].
  - apply remote_creates_nil. intros ev Hin. cbn [app] in Hin.
    apply elem_of_cons in Hin. destruct Hin as [->|Hin]; [reflexivity|].
    apply elem_of_cons in Hin. destruct Hin as [->|Hin]; [reflexivity|].
    rewrite Forall_forall in Hrest. apply Hrest in Hin.
    destruct (call ev); cbn in *; congruence.
  - intros Hres. destruct res0 as [[q' [e|]]|msg]; try discriminate.
    apply sync_run_done in Hsync.
    destruct Hsync as (updated & writes & q0 & Hans & Hpol & Happlied & _ & _).
    exists q', updated. split; [exact Hans|].
    destruct Happlied as (Hpid & Hconv & _).
    split; [|split; assumption].
    rewrite Hpol, Hpol1.
    assert (Policy.key (Policy.set_PolicyID (alerts.ID m) p0) = Policy.key p) as ->.
    { unfold Policy.key. cbn. apply withFinalizer_meta. }
    apply lookup_insert_eq.
  - intros Hres. rewrite <- Hpol1. eapply sync_run_not_done; eassumption.
Qed.

(** * The properties on the fixtures *)

Section OnFixtures.
Import Fixtures Scenarios.

(** Splits a conjunction into its parts, and evaluates one part. *)
Ltac conj_tac := repeat match goal with |- _ /\ _ => split end.
Ltac eval_tac := vm_compute; first [reflexivity | discriminate | repeat constructor].

(** Membership in a list that computes. *)
Ltac elem_tac :=
  vm_compute; repeat first [apply list_elem_of_here | apply list_elem_of_further].

Lemma converged_reconcile_is_noop_witness :
  converged_noop (fakeEnv fakeAlerts)
    (PolicyReconciler.Reconcile (fakeEnv fakeAlerts) namespacedName)
    (PolicySpec.APIKey (Policy.Spec converged))
    (PolicySpec.APIKeySecret (Policy.Spec converged))
    (PolicySpec.Region (Policy.Spec converged)) convergedWorld
  /\ converged_noop (fakeEnv fakeAlerts)
       (AlertsChannelReconciler.Reconcile (fakeEnv fakeAlerts) channelName)
       (AlertsChannelSpec.APIKey (AlertsChannel.Spec convergedChannel))
       (AlertsChannelSpec.APIKeySecret (AlertsChannel.Spec convergedChannel))
       (AlertsChannelSpec.Region (AlertsChannel.Spec convergedChannel)) convergedWorld
  /\ Forall (fun r => r = Done None)
       (fst (Reconcile_n (PolicyReconciler.Reconcile (fakeEnv fakeAlerts) namespacedName)
                         3 (withSecret (withPolicy convergedBySecret emptyWorld)))).
Proof.
  split; [|split].
  - apply (proj1 (converged_reconcile_is_noop (fakeEnv fakeAlerts) namespacedName
                    convergedWorld) converged);
      vm_compute; reflexivity.
  - apply (proj2 (converged_reconcile_is_noop (fakeEnv fakeAlerts) channelName
                    convergedWorld) convergedChannel);
      vm_compute; reflexivity.
  - pose proof (proj1 (converged_reconcile_is_noop (fakeEnv fakeAlerts) namespacedName
                         (withSecret (withPolicy convergedBySecret emptyWorld)))
                      convergedBySecret) as Hnoop.
    destruct (Hnoop ltac:(vm_compute; reflexivity) eq_refl eq_refl 3%nat)
      as (_ & _ & _ & _ & _ & Hok).
    apply Hok. split; [intros _ h; reflexivity|].
    split; [vm_compute; discriminate | intros h e; discriminate].
Defined.

(** C1 does not hold as stated: a converged policy whose key is in a secret
    that is no longer in the store is not reconciled with success. *)
Lemma converged_without_key_is_an_error :
  let w := withPolicy convergedBySecret emptyWorld in
  let run := PolicyReconciler.Reconcile (fakeEnv fakeAlerts) namespacedName w in
  policies w !! namespacedName = Some convergedBySecret
  /\ ObjectMeta.DeletionTimestamp_IsZero (Policy.Meta convergedBySecret) = true
  /\ Policy.AppliedSpec convergedBySecret = Some (Policy.Spec convergedBySecret)
  /\ fst run = Done (Some apiKeyBlank)
  /\ fst run <> Done None.
Proof. cbv zeta. conj_tac; eval_tac. Qed.

(** C2.  Condition fan-out, on a policy that declares two conditions, none
    of them created yet: the invocation succeeds and records the whole
    specification as applied, yet it has written one condition only; the
    second one is never created. *)
Lemma second_condition_is_never_created :
  let w := withPolicy twoConditions emptyWorld in
  let run := PolicyReconciler.Reconcile (fakeEnv fakeAlerts) namespacedName w in
  length (PolicySpec.Conditions (Policy.Spec twoConditions)) = 2%nat
  /\ Forall (fun c => NrqlAlertCondition.ResourceVersion c = EmptyString)
            (PolicySpec.Conditions (Policy.Spec twoConditions))
  /\ fst run = Done None
  /\ length (filter (fun ev => is_condition_write (call ev) = true)
                    (new_events w (snd run))) = 1%nat
  /\ size (conditions (snd run)) = 1%nat
  /\ Policy.AppliedSpec <$> policies (snd run) !! namespacedName
     = Some <$> (Policy.Spec <$> policies (snd run) !! namespacedName).
Proof. cbv zeta. conj_tac; eval_tac. Qed.

Lemma create_error_preserves_state_witness :
  let w := withPolicy policy emptyWorld in
  let run := PolicyReconciler.Reconcile (fakeEnv failingCreate) namespacedName w in
  fst run = Done (Some anyError)
  /\ store (snd run) = store w
  /\ Policy.PolicyID <$> policies (snd run) !! namespacedName
     = Policy.PolicyID <$> policies w !! namespacedName
  /\ Policy.AppliedSpec <$> policies (snd run) !! namespacedName
     = Policy.AppliedSpec <$> policies w !! namespacedName.
Proof.
  cbv zeta.
  apply (create_error_preserves_state (fakeEnv failingCreate) namespacedName
           (withPolicy policy emptyWorld) _ _
           (PolicySpec_APIPolicy (Policy.Spec policy)) anyError).
  - apply surjective_pairing.
  - elem_tac.
Defined.

Lemma deletion_ordering_witness :
  let w := withPolicy deletingAssigned emptyWorld in
  let run := PolicyReconciler.Reconcile_lifecycle (fakeEnv fakeAlerts) (receiver fakeAlerts)
               deletingAssigned w in
  let failed := PolicyReconciler.Reconcile_lifecycle failingDeleteEnv (receiver fakeAlerts)
                  deletingAssigned w in
  ((exists res0 nl,
       fst run = error_of res0
       /\ deletion_run deletingAssigned PolicyReconciler.policyFinalizer w (snd run) res0
            (new_events w (snd run)) nl)
   /\ children_before_parent deletingAssigned (new_events w (snd run))
   /\ finalizer_after_remote_delete deletingAssigned PolicyReconciler.policyFinalizer
        w (snd run) (new_events w (snd run))
   /\ first_child_error_aborts deletingAssigned w (snd run) (fst run)
        (new_events w (snd run)))
  /\ fst run = Done None
  /\ new_events w (snd run)
     = [okDelete (condition "NRQL Condition");
        remoteDelete deletingAssigned None;
        mkEvent (ClientUpdatePolicy
                   (stripped deletingAssigned PolicyReconciler.policyFinalizer)) None]
  /\ ((exists res0 nl,
         fst failed = error_of res0
         /\ deletion_run deletingAssigned PolicyReconciler.policyFinalizer w (snd failed) res0
              (new_events w (snd failed)) nl)
      /\ children_before_parent deletingAssigned (new_events w (snd failed))
      /\ finalizer_after_remote_delete deletingAssigned PolicyReconciler.policyFinalizer
           w (snd failed) (new_events w (snd failed))
      /\ first_child_error_aborts deletingAssigned w (snd failed) (fst failed)
           (new_events w (snd failed))).
Proof.
  cbv zeta. split; [|split; [|split]].
  - apply (deletion_ordering (fakeEnv fakeAlerts) (receiver fakeAlerts) deletingAssigned).
    + reflexivity.
    + reflexivity.
    + vm_compute. discriminate.
    + apply surjective_pairing.
  - vm_compute. reflexivity.
  - vm_compute. reflexivity.
  - apply (deletion_ordering failingDeleteEnv (receiver fakeAlerts) deletingAssigned).
    + reflexivity.
    + reflexivity.
    + vm_compute. discriminate.
    + apply surjective_pairing.
Defined.

(** C5.  Channel update path, on a channel with remote identifier 5 and a
    specification that differs from the applied one: the invocation
    succeeds, but its only call is the fetch; nothing is sent to the remote
    system and the stored channel is as before. *)
Lemma changed_channel_is_not_updated :
  let w := withChannel changedChannel emptyWorld in
  let run := AlertsChannelReconciler.Reconcile (fakeEnv fakeAlerts) channelName w in
  AlertsChannel.ChannelID changedChannel = 5
  /\ AlertsChannel.AppliedSpec changedChannel <> Some (AlertsChannel.Spec changedChannel)
  /\ ObjectMeta.DeletionTimestamp_IsZero (AlertsChannel.Meta changedChannel) = true
  /\ fst run = Done None
  /\ new_events w (snd run) = [mkEvent (ClientGetChannel channelName) None]
  /\ channels (snd run) !! channelName = Some changedChannel.
Proof. cbv zeta. conj_tac; eval_tac. Qed.

(** C6.  Deletion with no remote counterpart, on a policy with the deletion
    timestamp set, the finalizer present and no identifier: the invocation
    succeeds after the fetch alone, and the stored policy still carries the
    finalizer. *)
Lemma unassigned_deletion_keeps_finalizer :
  let w := withPolicy deletingUnassigned emptyWorld in
  let run := PolicyReconciler.Reconcile (fakeEnv fakeAlerts) namespacedName w in
  ObjectMeta.DeletionTimestamp_IsZero (Policy.Meta deletingUnassigned) = false
  /\ containsString (Policy.Finalizers deletingUnassigned)
                    PolicyReconciler.policyFinalizer = true
  /\ Policy.PolicyID deletingUnassigned = 0
  /\ fst run = Done None
  /\ new_events w (snd run) = [mkEvent (ClientGetPolicy namespacedName) None]
  /\ policies (snd run) !! namespacedName = Some deletingUnassigned
  /\ Policy.Finalizers <$> policies (snd run) !! namespacedName
     = Some [PolicyReconciler.policyFinalizer].
Proof. cbv zeta. conj_tac; eval_tac. Qed.

Lemma remote_mutation_failure_is_returned_witness :
  let w := withPolicy policy (withChannel freshChannel emptyWorld) in
  let run := PolicyReconciler.Reconcile (fakeEnv failingCreate) namespacedName w in
  let crun := AlertsChannelReconciler.Reconcile (fakeEnv failingChannelCreate) channelName w in
  let failed := mkEvent (AlertsCreatePolicy (PolicySpec_APIPolicy (Policy.Spec policy)))
                        (Some anyError) in
  let cfailed := mkEvent (AlertsCreateChannel
                            (AlertsChannelSpec_APIChannel (AlertsChannel.Spec freshChannel)))
                         (Some anyError) in
  (fst run = Done (Some anyError)
   /\ (exists msg, LogError (Some anyError) msg ∈ new_logs w (snd run))
   /\ exists pre, new_events w (snd run) = pre ++ [failed])
  /\ (fst crun = Done (Some anyError)
      /\ (exists msg, LogError (Some anyError) msg ∈ new_logs w (snd crun))
      /\ exists pre, new_events w (snd crun) = pre ++ [cfailed]).
Proof.
  cbv zeta. split.
  - refine (proj1 (proj1 (remote_mutation_failure_is_returned (fakeEnv failingCreate)
                            namespacedName _ _ _) _)
                  (mkEvent (AlertsCreatePolicy (PolicySpec_APIPolicy (Policy.Spec policy)))
                           (Some anyError)) anyError _ _ _).
    + apply surjective_pairing.
    + elem_tac.
    + reflexivity.
    + reflexivity.
  - refine (proj2 (remote_mutation_failure_is_returned (fakeEnv failingChannelCreate)
                     channelName _ _ _) _
                  (mkEvent (AlertsCreateChannel
                              (AlertsChannelSpec_APIChannel (AlertsChannel.Spec freshChannel)))
                           (Some anyError)) anyError _ _ _).
    + apply surjective_pairing.
    + elem_tac.
    + reflexivity.
    + reflexivity.
Defined.

(** C7 does not hold as stated: the list call fails, and the invocation
    succeeds. *)
Lemma failed_list_is_not_returned :
  let w := withPolicy policy emptyWorld in
  let run := PolicyReconciler.Reconcile (fakeEnv (listing ([], Some anyError)))
               namespacedName w in
  mkEvent (listCall policy) (Some anyError) ∈ new_events w (snd run)
  /\ fst run = Done None.
Proof. split; [elem_tac | vm_compute; reflexivity]. Qed.

Lemma discovery_adopts_first_match_witness :
  let r := receiver (Cases.echoing Cases.duplicates) in
  let w := emptyWorld in
  let run := PolicyReconciler.Reconcile_lifecycle (fakeEnv fakeAlerts) r policy w in
  let sent := alerts.set_ID 5 (PolicySpec_APIPolicy (Policy.Spec policy)) in
  (exists m pre post,
      Cases.duplicates = pre ++ m :: post
      /\ Forall (fun x => alerts.Name x <> PolicySpec.Name (Policy.Spec policy)) pre
      /\ alerts.Name m = PolicySpec.Name (Policy.Spec policy)
      /\ (exists w1,
             PolicyReconciler.checkForExistingPolicy r policy w
             = (Done (Policy.set_PolicyID (alerts.ID m) policy), w1))
      /\ (exists err rest,
             new_events w (snd run)
             = mkEvent (listCall policy) None
                 :: mkEvent (AlertsUpdatePolicy
                               (alerts.set_ID (alerts.ID m)
                                  (PolicySpec_APIPolicy (Policy.Spec policy)))) err :: rest
             /\ Forall (fun ev => is_remote (call ev) = false) rest)
      /\ remote_creates (new_events w (snd run)) = []
      /\ (fst run = Done None ->
          exists q updated,
            NewRelicAlertsClient.UpdatePolicy (Alerts r)
              (trace w ++ [mkEvent (listCall policy) None])
              (alerts.set_ID (alerts.ID m) (PolicySpec_APIPolicy (Policy.Spec policy)))
            = (Some updated, None)
            /\ policies (snd run) !! Policy.key policy = Some q
            /\ Policy.PolicyID q = alerts.ID updated
            /\ Policy.AppliedSpec q = Some (Policy.Spec q))
      /\ (fst run <> Done None -> policies (snd run) = policies w))
  /\ fst (PolicyReconciler.checkForExistingPolicy r policy w)
     = Done (Policy.set_PolicyID 5 policy)
  /\ fst run = Done None
  /\ remote_calls (new_events w (snd run))
     = [mkEvent (listCall policy) None; mkEvent (AlertsUpdatePolicy sent) None]
  /\ Policy.PolicyID <$> policies (snd run) !! namespacedName = Some 5.
Proof.
  cbv zeta. split; [|conj_tac; eval_tac].
  apply (discovery_adopts_first_match (fakeEnv fakeAlerts)
           (receiver (Cases.echoing Cases.duplicates)) policy emptyWorld Cases.duplicates).
  - reflexivity.
  - reflexivity.
  - vm_compute. discriminate.
  - reflexivity.
  - exists (alerts.mkPolicy 5 "PER_POLICY" "test policy").
    split; [elem_tac | reflexivity].
  - intros m Hin _. unfold Cases.duplicates in Hin.
    rewrite !elem_of_cons, elem_of_nil in Hin.
    destruct Hin as [->|[->|[->|[]]]]; discriminate.
Defined.

Lemma credential_resolver_contract_witness :
  let env := fakeEnv fakeAlerts in
  (exists w',
      PolicyReconciler.getAPIKeyOrSecret env withSecretRef
        (withSecret (withPolicy withSecretRef emptyWorld)) = (Done "112233", w'))
  /\ (exists w',
         PolicyReconciler.Reconcile env namespacedName (withPolicy convergedBlank emptyWorld)
         = (Done (Some apiKeyBlank), w')).
Proof.
  cbv zeta. split.
  - destruct (proj1 (credential_resolver_contract (fakeEnv fakeAlerts)) withSecretRef
                (withSecret (withPolicy withSecretRef emptyWorld)))
      as (_ & Hsecret & _).
    destruct (Hsecret eq_refl ltac:(discriminate) _ _ _ eq_refl) as (w' & Hrun & _).
    exists w'. exact Hrun.
  - destruct (proj1 (proj2 (proj2 (credential_resolver_contract (fakeEnv fakeAlerts))))
                namespacedName (withPolicy convergedBlank emptyWorld) _ _ eq_refl eq_refl)
      as (w' & Hrun & _).
    exists w'. exact Hrun.
Defined.

Lemma fetch_error_returns_success_witness :
  let env := fakeEnv fakeAlerts in
  (exists w', PolicyReconciler.Reconcile env namespacedName emptyWorld = (Done None, w')
              /\ store w' = store emptyWorld)
  /\ (exists w', AlertsChannelReconciler.Reconcile env channelName emptyWorld = (Done None, w')
                 /\ store w' = store emptyWorld).
Proof.
  cbv zeta. split.
  - destruct (proj1 (fetch_error_returns_success (fakeEnv fakeAlerts) namespacedName
                       emptyWorld) _ _ _ eq_refl) as (w' & Hrun & Hstore & _).
    exists w'. split; assumption.
  - destruct (proj2 (fetch_error_returns_success (fakeEnv fakeAlerts) channelName
                       emptyWorld) _ _ _ eq_refl) as (w' & Hrun & Hstore & _).
    exists w'. split; assumption.
Defined.

End OnFixtures.

(** * The further properties on the fixtures *)

Section FurtherOnFixtures.
Import Fixtures Scenarios Cases.

Ltac conj_tac := repeat match goal with |- _ /\ _ => split end.
Ltac eval_tac := vm_compute; first [reflexivity | discriminate | repeat constructor].
Ltac elem_tac :=
  vm_compute; repeat first [apply list_elem_of_here | apply list_elem_of_further].

Lemma createPolicy_success_state_witness :
  let run := PolicyReconciler.createPolicy (fakeEnv fakeAlerts) (receiver fakeAlerts)
               policy emptyWorld in
  exists q created,
    fst run = Done (q, None)
    /\ policies (snd run) !! Policy.key policy = Some q
    /\ applied (alerts.ID created) policy q
    /\ alerts.ID created = 333.
Proof.
  cbv zeta.
  destruct (createPolicy_success_state (fakeEnv fakeAlerts) (receiver fakeAlerts)
              policy _ emptyWorld _ eq_refl)
    as (created & writes & q0 & Hanswer & Hstored & Happlied & _).
  eexists _, created. split; [reflexivity|]. split; [exact Hstored|].
  split; [exact Happlied|]. now injection Hanswer as <-.
Defined.

Lemma updatePolicy_success_state_witness :
  let run := PolicyReconciler.updatePolicy (fakeEnv fakeAlerts) (receiver fakeAlerts)
               converged emptyWorld in
  exists q updated,
    fst run = Done (q, None)
    /\ policies (snd run) !! Policy.key converged = Some q
    /\ applied (alerts.ID updated) converged q
    /\ alerts.ID updated = 222.
Proof.
  cbv zeta.
  destruct (updatePolicy_success_state (fakeEnv fakeAlerts) (receiver fakeAlerts)
              converged _ emptyWorld _ eq_refl)
    as (updated & writes & q0 & Hanswer & Hstored & Happlied & _).
  eexists _, updated. split; [reflexivity|]. split; [exact Hstored|].
  split; [exact Happlied|]. now injection Hanswer as <-.
Defined.

Lemma persisted_policy_is_converged_witness :
  let w := withPolicy policy emptyWorld in
  let run := PolicyReconciler.Reconcile (fakeEnv fakeAlerts) namespacedName w in
  fst run = Done None
  /\ (exists q, policies (snd run) !! namespacedName = Some q
                /\ Policy.AppliedSpec q = Some (Policy.Spec q)
                /\ Policy.Finalizers q
                   = Policy.Finalizers (withFinalizer policy PolicyReconciler.policyFinalizer))
  /\ converged_noop (fakeEnv fakeAlerts)
       (PolicyReconciler.Reconcile (fakeEnv fakeAlerts) namespacedName)
       (PolicySpec.APIKey (Policy.Spec policy)) (PolicySpec.APIKeySecret (Policy.Spec policy))
       (PolicySpec.Region (Policy.Spec policy)) (snd run).
Proof.
  cbv zeta.
  apply (persisted_policy_is_converged (fakeEnv fakeAlerts) namespacedName policy
           (withPolicy policy emptyWorld)).
  - apply surjective_pairing.
  - vm_compute. reflexivity.
  - reflexivity.
  - reflexivity.
  - vm_compute. reflexivity.
Defined.

Lemma live_policy_deletes_nothing_witness :
  let w := withPolicy policy emptyWorld in
  let run := PolicyReconciler.Reconcile (fakeEnv fakeAlerts) namespacedName w in
  Forall (fun ev => is_delete (call ev) = false) (new_events w (snd run)).
Proof.
  cbv zeta.
  eapply (live_policy_deletes_nothing (fakeEnv fakeAlerts) namespacedName policy
            (withPolicy policy emptyWorld)).
  - apply surjective_pairing.
  - vm_compute. reflexivity.
  - reflexivity.
Defined.

Lemma failed_policy_update_is_returned_witness :
  let w := withPolicy policy emptyWorld in
  let run := PolicyReconciler.Reconcile refusingUpdateEnv namespacedName w in
  fst run = Done (Some "update refused")
  /\ policies (snd run) = policies w
  /\ exists q pre ev post,
      new_events w (snd run)
      = pre ++ ev :: post ++ [mkEvent (ClientUpdatePolicy q) (Some "update refused")]
      /\ is_policy_mutation (call ev) = true /\ failure ev = None.
Proof.
  cbv zeta.
  assert (Hin : exists q, mkEvent (ClientUpdatePolicy q) (Some "update refused")
                          ∈ new_events (withPolicy policy emptyWorld)
                              (snd (PolicyReconciler.Reconcile refusingUpdateEnv
                                      namespacedName (withPolicy policy emptyWorld)))).
  { eexists. elem_tac. }
  destruct Hin as [q Hin].
  destruct (failed_policy_update_is_returned refusingUpdateEnv namespacedName
              _ _ _ q "update refused" (surjective_pairing _) Hin)
    as (Hres & Hpol & pre & ev & post & Hnew & Hmut & Hok).
  split; [exact Hres|]. split; [exact Hpol|]. eauto 10.
Defined.

Lemma unapplied_policy_is_not_synchronised_witness :
  let w := withPolicy unapplied emptyWorld in
  let run := PolicyReconciler.Reconcile (fakeEnv fakeAlerts) namespacedName w in
  (policies (snd run) = policies w
   /\ forall ev, ev ∈ new_events w (snd run) -> is_policy_mutation (call ev) = true ->
        match failure ev with
        | None => exists msg, fst run = Panic msg
        | Some e => fst run = Done (Some e)
        end)
  /\ fst run = Panic "invalid memory address or nil pointer dereference"
  /\ remote_calls (new_events w (snd run))
     = [mkEvent (listCall unapplied) None;
        mkEvent (AlertsCreatePolicy (PolicySpec_APIPolicy (Policy.Spec unapplied))) None].
Proof.
  cbv zeta. split; [|conj_tac; eval_tac].
  apply (unapplied_policy_is_not_synchronised (fakeEnv fakeAlerts) namespacedName unapplied
           (withPolicy unapplied emptyWorld)).
  - apply surjective_pairing.
  - vm_compute. reflexivity.
  - reflexivity.
  - reflexivity.
Defined.

Lemma condition_update_error_is_ignored_witness :
  let w := emptyWorld in
  exists q w',
    PolicyReconciler.createOrUpdateConditions refusingConditionEnv (receiver fakeAlerts)
      withVersioned w = (Done (q, None), w')
    /\ new_events w w' = [mkEvent (ClientUpdateCondition versionedCondition) (Some "conflict")]
    /\ Forall (fun l => exists msg, l = LogInfo msg) (new_logs w w')
    /\ store w' = store w.
Proof.
  cbv zeta.
  destruct (condition_update_error_is_ignored refusingConditionEnv (receiver fakeAlerts)
              withVersioned (policySpec [recordedCondition])
              versionedCondition recordedCondition [] [] emptyWorld
              eq_refl eq_refl ltac:(discriminate) eq_refl ltac:(discriminate))
    as (q & w' & Hrun & Hnew & Hlogs & Hfault).
  exists q, w'. split; [exact Hrun|]. split; [exact Hnew|]. split; [exact Hlogs|].
  apply Hfault. discriminate.
Defined.

Lemma versioned_condition_without_record_panics_witness :
  exists w',
    PolicyReconciler.createOrUpdateConditions (fakeEnv fakeAlerts) (receiver fakeAlerts)
      versionedUnrecorded emptyWorld = (Panic "index out of range", w')
    /\ trace w' = trace emptyWorld
    /\ store w' = store emptyWorld.
Proof.
  apply (versioned_condition_without_record_panics (fakeEnv fakeAlerts)
           (receiver fakeAlerts) versionedUnrecorded PolicySpec.zero versionedCondition []
           emptyWorld eq_refl eq_refl ltac:(discriminate) eq_refl).
Defined.

Lemma created_condition_round_trip_witness :
  let run := PolicyReconciler.createCondition (fakeEnv fakeAlerts) (receiver fakeAlerts)
               converged (condition "NRQL Condition") emptyWorld in
  exists c',
    fst run = Done (c', None)
    /\ conditions (snd run) !! NamespacedName.mk "default" "test-policy476730929" = Some c'
    /\ NrqlAlertConditionSpec.ExistingPolicyID (NrqlAlertCondition.Spec c') = 333.
Proof.
  cbv zeta.
  destruct (created_condition_round_trip (fakeEnv fakeAlerts) (receiver fakeAlerts)
              converged (condition "NRQL Condition") _ None emptyWorld _ eq_refl)
    as (_ & Hstored & _ & Hid & _).
  eexists. split; [reflexivity|]. split; [exact Hstored | exact Hid].
Defined.

Lemma deletion_without_finalizer_is_skipped_witness :
  Policy.PolicyID assignedWithoutFinalizer = 333
  /\ exists w',
      PolicyReconciler.deletePolicy (fakeEnv fakeAlerts) (receiver fakeAlerts)
        assignedWithoutFinalizer PolicyReconciler.policyFinalizer emptyWorld
      = (Done (assignedWithoutFinalizer, None), w')
      /\ trace w' = trace emptyWorld
      /\ store w' = store emptyWorld.
Proof.
  split; [reflexivity|].
  apply (deletion_without_finalizer_is_skipped (fakeEnv fakeAlerts) (receiver fakeAlerts)
           assignedWithoutFinalizer PolicyReconciler.policyFinalizer emptyWorld eq_refl).
Defined.

Lemma deletion_removes_children_witness :
  let c := condition "NRQL Condition" in
  let w := mkWorld ∅ ∅ {[NrqlAlertCondition.key c := c]} ∅ [] [] in
  let run := PolicyReconciler.deletePolicy (fakeEnv fakeAlerts) (receiver fakeAlerts)
               deletingAssigned PolicyReconciler.policyFinalizer w in
  exists q,
    fst run = Done (q, None)
    /\ conditions w !! NrqlAlertCondition.key c = Some c
    /\ conditions (snd run) !! NrqlAlertCondition.key c = None
    /\ policies (snd run) !! Policy.key deletingAssigned = Some q
    /\ Policy.Finalizers q = [].
Proof.
  cbv zeta.
  destruct (deletion_removes_children (fakeEnv fakeAlerts) (receiver fakeAlerts)
              deletingAssigned _ PolicyReconciler.policyFinalizer
              (mkWorld ∅ ∅ {[NrqlAlertCondition.key (condition "NRQL Condition")
                             := condition "NRQL Condition"]} ∅ [] []) _
              eq_refl ltac:(discriminate) eq_refl)
    as (Hgone & _ & Hstored & Hfin & _).
  eexists. split; [reflexivity|]. split; [vm_compute; reflexivity|].
  split; [apply Hgone; apply list_elem_of_here|].
  split; [exact Hstored | exact Hfin].
Defined.

Lemma channel_delete_returns_store_error_witness :
  let run := AlertsChannelReconciler.deleteAlertsChannel (fakeEnv fakeAlerts)
               (receiver failingChannelDelete) deletingChannel
               AlertsChannelReconciler.channelFinalizer emptyWorld in
  exists c',
    fst run = Done (c', None)
    /\ new_events emptyWorld (snd run)
       = [mkEvent (AlertsDeleteChannel 5) (Some anyError);
          mkEvent (ClientUpdateChannel
                     (strippedChannel deletingChannel
                        AlertsChannelReconciler.channelFinalizer)) None]
    /\ channels (snd run) !! AlertsChannel.key deletingChannel = Some c'
    /\ AlertsChannel.Finalizers c' = [].
Proof.
  cbv zeta.
  destruct (channel_delete_returns_store_error (fakeEnv fakeAlerts)
              (receiver failingChannelDelete) deletingChannel _
              AlertsChannelReconciler.channelFinalizer None emptyWorld _ eq_refl)
    as [_ [Hstored Hfin]].
  eexists. split; [reflexivity|]. split; [vm_compute; reflexivity|].
  split; [exact Hstored | exact Hfin].
Defined.

Lemma deleted_channel_without_identifier_is_created_witness :
  let run := AlertsChannelReconciler.Reconcile_lifecycle (fakeEnv fakeAlerts)
               (receiver fakeAlerts) deletingFreshChannel emptyWorld in
  exists err rest,
    new_events emptyWorld (snd run)
    = mkEvent (ClientUpdateChannel
                 (strippedChannel deletingFreshChannel
                    AlertsChannelReconciler.channelFinalizer)) None
        :: mkEvent (AlertsCreateChannel
                      (AlertsChannelSpec_APIChannel (AlertsChannel.Spec deletingFreshChannel)))
                   err
        :: rest.
Proof.
  cbv zeta.
  apply (deleted_channel_without_identifier_is_created (fakeEnv fakeAlerts)
           (receiver fakeAlerts) deletingFreshChannel emptyWorld
           eq_refl eq_refl ltac:(discriminate) eq_refl).
Defined.

Lemma createAlertsChannel_success_state_witness :
  let run := AlertsChannelReconciler.createAlertsChannel (fakeEnv fakeAlerts)
               (receiver fakeAlerts) freshChannel emptyWorld in
  exists c',
    fst run = Done (c', None)
    /\ AlertsChannel.ChannelID c' = 444
    /\ AlertsChannel.AppliedSpec c' = Some (AlertsChannel.Spec c')
    /\ channels (snd run) !! channelName = Some c'.
Proof.
  cbv zeta.
  destruct (createAlertsChannel_success_state (fakeEnv fakeAlerts) (receiver fakeAlerts)
              freshChannel _ emptyWorld _ eq_refl)
    as (created & Hanswer & Hid & Happlied & _ & Hstored & _).
  eexists. split; [reflexivity|].
  split; [rewrite Hid; now injection Hanswer as <-|].
  split; [exact Happlied | exact Hstored].
Defined.


Lemma resolvers_agree_witness :
  let w := withSecret emptyWorld in
  fst (PolicyReconciler.getAPIKeyOrSecret (fakeEnv fakeAlerts) withSecretRef w)
  = fst (AlertsChannelReconciler.getAPIKeyOrSecret (fakeEnv fakeAlerts) channelBySecret w)
  /\ fst (PolicyReconciler.getAPIKeyOrSecret (fakeEnv fakeAlerts) withSecretRef w)
     = Done "112233".
Proof.
  cbv zeta. split; [|vm_compute; reflexivity].
  apply (resolvers_agree (fakeEnv fakeAlerts) withSecretRef channelBySecret
           (withSecret emptyWorld) eq_refl eq_refl).
Defined.

Lemma Reconcile_returns_witness :
  exists err,
    fst (PolicyReconciler.Reconcile (fakeEnv fakeAlerts) namespacedName
           (withPolicy policy emptyWorld)) = Done err.
Proof.
  apply (Reconcile_returns (fakeEnv fakeAlerts) namespacedName (withPolicy policy emptyWorld)).
  - intros h k region client Hclient. injection Hclient as <-.
    split; intros; discriminate.
  - intros p Hp.
    assert (Hpolicy : policies (withPolicy policy emptyWorld) !! namespacedName = Some policy)
      by (vm_compute; reflexivity).
    rewrite Hpolicy in Hp. injection Hp as <-.
    split; [discriminate|].
    intros c rest Hconds. injection Hconds as <- _. reflexivity.
Defined.

End FurtherOnFixtures.
